(** * Tarangini alerts: ingestion pipeline and proximity query

    A shallow embedding of the decision logic of [incois_scraper.py]
    (severity classification, geocoding overrides, deduplication and the
    sample fallback) and of [main.py] (the store sync
    [load_alerts_from_json], [haversine_km] and the route
    [alerts_nearby]), with the properties the design document states
    about them.

    Conventions of the embedding.
    - A Python [str] is a [string], the bytes of its UTF-8 form. In the
      modules [PyStr], [Scraper], [Normalizer] and [Builder] the
      lowercase form, the slices, the lengths and the whitespace are
      those of ASCII text, where a character is a byte and [str.lower]
      maps the letters A-Z to a-z. The module [Unicode] embeds the
      classification and the deduplication for text of every script,
      with [str.lower] as a parameter and slices that count characters.
    - A Python [float] is a real number: the rounding of float
      arithmetic, NaN and the infinities are outside the model, so
      what is proved of [haversine_km] is proved of its formula.
      [float(int)] is the nearest double and keeps its [OverflowError].
    - A [try]/[except Exception] around a computation is an [option]
      (or a sum) on that computation; the handler is the [None] branch.
    - Network, clock, file system and database are explicit: replies of
      the external services and clock readings are section variables,
      the file system and the table are fields of a state record. *)

From Stdlib Require Import List String Ascii Bool Arith ZArith Lia.
From Stdlib Require Import Reals Lra Psatz.
From Stdlib Require Import DecimalString.
Import ListNotations.

Open Scope string_scope.

(** ** Python strings *)

Module PyStr.

(** [c.lower()] on one character. *)
Definition lower_char (c : ascii) : ascii :=
  let n := nat_of_ascii c in
  if ((65 <=? n) && (n <=? 90))%nat then ascii_of_nat (n + 32) else c.

(** [s.lower()] *)
Fixpoint lower (s : string) : string :=
  match s with
  | EmptyString => EmptyString
  | String c s' => String (lower_char c) (lower s')
  end.

(** [s.startswith(p)] *)
Fixpoint startswith (p s : string) : bool :=
  match p, s with
  | EmptyString, _ => true
  | String _ _, EmptyString => false
  | String a p', String b s' => Ascii.eqb a b && startswith p' s'
  end.

(** [sub in s] for two strings: [sub] starts at some position of [s]. *)
Fixpoint str_in (sub s : string) : bool :=
  match s with
  | EmptyString => startswith sub s
  | String _ s' => startswith sub s || str_in sub s'
  end.

(** [s[:n]] *)
Fixpoint slice_to (n : nat) (s : string) : string :=
  match n, s with
  | O, _ => EmptyString
  | S _, EmptyString => EmptyString
  | S n', String c s' => String c (slice_to n' s')
  end.

(** [bool(s)]: a string is true when it is not empty. *)
Definition nonempty (s : string) : bool :=
  match s with EmptyString => false | String _ _ => true end.

(** [str(n)] for a natural number, as an f-string prints an index. *)
Definition str_of_nat (n : nat) : string :=
  NilEmpty.string_of_uint (Nat.to_uint n).

(** [k in seen] for a set of strings kept as a list. *)
Definition mem (k : string) (seen : list string) : bool :=
  existsb (String.eqb k) seen.

(** [kw] occurs in [text] as a substring. *)
Definition occurs (kw text : string) : Prop :=
  exists pre post, text = pre ++ kw ++ post.

(** [kw] occurs in [text] up to the case of letters: some substring of
    [text] has the same lowercase form as [kw]. *)
Definition occurs_ci (kw text : string) : Prop :=
  exists pre w post, text = pre ++ w ++ post /\ lower w = lower kw.

Lemma startswith_spec (p s : string) :
  startswith p s = true <-> exists post, s = p ++ post.
Proof.
  revert s; induction p as [|a p IH]; intros s; simpl.
  - split; [intros _; now exists s | reflexivity].
  - destruct s as [|b s].
    + split; [discriminate | intros [post H]; discriminate].
    + rewrite andb_true_iff, IH. split.
      * intros [Hab [post ->]]. apply Ascii.eqb_eq in Hab. subst b.
        now exists post.
      * intros [post H]. injection H as -> ->. split.
        -- apply Ascii.eqb_refl.
        -- now exists post.
Qed.

Lemma str_in_spec (sub s : string) :
  str_in sub s = true <-> occurs sub s.
Proof.
  unfold occurs. induction s as [|c s IH].
  - cbn [str_in]. rewrite startswith_spec. split.
    + intros [post H]. now exists EmptyString, post.
    + intros [pre [post H]]. destruct pre; [now exists post | discriminate].
  - cbn [str_in]. rewrite orb_true_iff, startswith_spec, IH. split.
    + intros [[post H] | [pre [post H]]].
      * now exists EmptyString, post.
      * exists (String c pre), post. simpl. now rewrite H.
    + intros [pre [post H]]. destruct pre as [|x pre].
      * left. now exists post.
      * right. simpl in H. injection H as _ H. now exists pre, post.
Qed.

Lemma lower_app (a b : string) : lower (a ++ b) = lower a ++ lower b.
Proof. induction a as [|c a IH]; simpl; [reflexivity | now rewrite IH]. Qed.

Lemma lower_split (s x y : string) :
  lower s = x ++ y -> exists a b, s = a ++ b /\ lower a = x /\ lower b = y.
Proof.
  revert s; induction x as [|c x IH]; intros s H.
  - exists EmptyString, s. auto.
  - destruct s as [|d s]; [discriminate|].
    simpl in H. injection H as Hc H.
    destruct (IH _ H) as [a [b [-> [Ha Hb]]]].
    exists (String d a), b. simpl. now rewrite Hc, Ha.
Qed.

(** The test the program writes, [kw.lower() in text.lower()], is
    case-insensitive substring containment. *)
Lemma str_in_lower_spec (kw text : string) :
  str_in (lower kw) (lower text) = true <-> occurs_ci kw text.
Proof.
  rewrite str_in_spec. unfold occurs, occurs_ci. split.
  - intros [pre [post H]].
    destruct (lower_split _ _ _ H) as [a [r [-> [Ha Hr]]]].
    destruct (lower_split _ _ _ Hr) as [w [b [-> [Hw Hb]]]].
    now exists a, w, b.
  - intros [pre [w [post [-> Hw]]]].
    exists (lower pre), (lower post).
    now rewrite !lower_app, Hw.
Qed.

Lemma mem_spec (k : string) (seen : list string) :
  mem k seen = true <-> In k seen.
Proof.
  unfold mem. rewrite existsb_exists. split.
  - intros [x [Hin Hx]]. apply String.eqb_eq in Hx. now subst.
  - intros H. exists k. split; [assumption | apply String.eqb_refl].
Qed.

End PyStr.

(** ** Python values read from JSON *)

Module PyVal.

Open Scope R_scope.

(** What [json.load] produces: [None], [bool], [int], [float], [str],
    [list] and [dict] (keys are strings; a list of bindings, the first
    binding of a key is the one [get] finds). *)
#[local] Set Warnings "-register-all".
Inductive pyval : Type :=
| PNone
| PBool (b : bool)
| PInt (z : Z)
| PFloat (r : R)
| PStr (s : string)
| PList (l : list pyval)
| PDict (d : list (string * pyval)).

Definition is_none (v : pyval) : bool :=
  match v with PNone => true | _ => false end.

(** [d.get(key)], [None] when the key is absent. *)
Fixpoint dict_lookup (d : list (string * pyval)) (key : string) : option pyval :=
  match d with
  | [] => None
  | (k, v) :: rest => if String.eqb k key then Some v else dict_lookup rest key
  end.

Definition dict_get (d : list (string * pyval)) (key : string) : pyval :=
  match dict_lookup d key with Some v => v | None => PNone end.

(** [d.get(key, default)] *)
Definition dict_get_default (d : list (string * pyval)) (key : string)
  (default : pyval) : pyval :=
  match dict_lookup d key with Some v => v | None => default end.

(** [bool(v)], the test behind [not v]. *)
Definition truthy (v : pyval) : bool :=
  match v with
  | PNone => false
  | PBool b => b
  | PInt z => negb (Z.eqb z 0)
  | PFloat r => if Req_dec_T r 0 then false else true
  | PStr s => PyStr.nonempty s
  | PList l => match l with [] => false | _ => true end
  | PDict d => match d with [] => false | _ => true end
  end.

(** [type(v).__name__] *)
Definition type_name (v : pyval) : string :=
  match v with
  | PNone => "NoneType"
  | PBool _ => "bool"
  | PInt _ => "int"
  | PFloat _ => "float"
  | PStr _ => "str"
  | PList _ => "list"
  | PDict _ => "dict"
  end.

(** The least magnitude of an [int] that no longer converts to a
    [float]: halfway between the largest double and [2^1024]. *)
Definition int_float_limit : Z := (2 ^ 1024 - 2 ^ 970)%Z.

(** The value of the double nearest to an integer. A double has 53
    significant bits: an integer of more bits keeps its 53 leading bits,
    rounded on the bits that are dropped, to the even one when they are
    exactly half. *)
Definition round_to_double (z : Z) : Z :=
  let n := Z.abs z in
  if (n <? 2 ^ 53)%Z then z
  else
    let e := (Z.log2 n - 52)%Z in
    let q := Z.shiftr n e in
    let r := (n - Z.shiftl q e)%Z in
    let half := Z.shiftl 1 (e - 1) in
    let q' := if (r <? half)%Z then q
              else if (half <? r)%Z then (q + 1)%Z
              else if Z.even q then q else (q + 1)%Z in
    (Z.sgn z * Z.shiftl q' e)%Z.

(** Conversion of an [int] operand to [float]: the nearest double;
    [None] is the [OverflowError]. *)
Definition float_of_int (z : Z) : option R :=
  if (Z.abs z <? int_float_limit)%Z then Some (IZR (round_to_double z))
  else None.

(** A value used as an operand of float arithmetic ([x - y] with [y] a
    float): numbers convert, anything else is a [TypeError] ([None]). *)
Definition as_number (v : pyval) : option R :=
  match v with
  | PBool b => Some (if b then 1 else 0)
  | PInt z => float_of_int z
  | PFloat r => Some r
  | _ => None
  end.

Section Builtins.

(** [float(s)] for a string, the parser of the interpreter; [None] is its
    [ValueError]. *)
Variable float_of_str : string -> option R.

(** [str(v)] for a value that is not a string, the printer of the
    interpreter. *)
Variable repr : pyval -> string.

(** [float(v)]; [None] stands for the exception ([TypeError],
    [ValueError] or [OverflowError]). *)
Definition py_float (v : pyval) : option R :=
  match v with
  | PStr s => float_of_str s
  | PNone | PList _ | PDict _ => None
  | _ => as_number v
  end.

(** [str(v)] *)
Definition py_str (v : pyval) : string :=
  match v with
  | PStr s => s
  | _ => repr v
  end.

End Builtins.

(** An optional float as a Python value, [None] when absent. *)
Definition of_option_float (o : option R) : pyval :=
  match o with Some r => PFloat r | None => PNone end.

End PyVal.

(** ** incois_scraper.py *)

Module Scraper.

Import PyStr PyVal.
Open Scope R_scope.

(** The dataclass [Alert] of the scraper. *)
Record Alert : Type := mkAlert {
  title : string;
  message : string;
  severity : string;
  source : string;
  lat : option R;
  lng : option R;
  time : string
}.

(** [self.severity_keywords], a dict with the two keys ['emergency'] and
    ['warning']. *)
Record keywords : Type := mkKeywords {
  emergency : list string;
  warning : list string
}.

(** The fields of [INCOISScraper] that the embedded methods read or
    write. *)
Record INCOISScraper : Type := mkScraper {
  alerts_processed : nat;
  alerts_skipped : nat;
  potential_feeds : list string;
  scraping_urls : list string;
  severity_keywords : keywords
}.

(** The object [INCOISScraper.__init__] builds. *)
Definition init : INCOISScraper :=
  {| alerts_processed := 0;
     alerts_skipped := 0;
     potential_feeds :=
       [ "https://incois.gov.in/portal/rss/highwave.xml";
         "https://incois.gov.in/portal/rss/tsunami.xml";
         "https://incois.gov.in/portal/rss/alerts.xml";
         "https://incois.gov.in/rss/highwave.xml";
         "https://incois.gov.in/rss/tsunami.xml";
         "https://incois.gov.in/rss.xml";
         "https://incois.gov.in/feed.xml" ];
     scraping_urls :=
       [ "https://incois.gov.in/portal/osf";
         "https://incois.gov.in/portal/tsunami";
         "https://incois.gov.in/portal/highwave";
         "https://incois.gov.in/portal/datainfo/hwforecast.jsp";
         "https://incois.gov.in/portal/datainfo/tsunamiwarning.jsp";
         "https://incois.gov.in/portal/announcements.jsp";
         "https://incois.gov.in" ];
     severity_keywords :=
       {| emergency :=
            [ "tsunami"; "cyclone"; "severe cyclone"; "very severe cyclone";
              "super cyclone"; "red alert"; "emergency"; "evacuation";
              "extreme"; "dangerous"; "life threatening"; "catastrophic";
              "super cyclonic storm"; "extremely severe" ];
          warning :=
            [ "warning"; "heavy rain"; "flood"; "high tide"; "storm surge";
              "orange alert"; "yellow alert"; "caution"; "advisory";
              "rough sea"; "high waves"; "strong wind"; "depression";
              "cyclonic storm"; "deep depression" ] |} |}.

(** The loop [for keyword in ...: if keyword.lower() in text_lower:
    return ...]: [true] when the loop returns from its body. *)
Fixpoint keyword_loop (kws : list string) (text_lower : string) : bool :=
  match kws with
  | [] => false
  | keyword :: rest =>
      if str_in (lower keyword) text_lower then true
      else keyword_loop rest text_lower
  end.

Definition _determine_severity (self : INCOISScraper) (text : string) : string :=
  let text_lower := lower text in
  if keyword_loop (emergency (severity_keywords self)) text_lower then "emergency"
  else if keyword_loop (warning (severity_keywords self)) text_lower then "warning"
  else "info".

(** What [self.geocoder.geocode(query, exactly_one=True)] does: it
    raises (time-out, service unavailable), returns [None], or returns a
    place with a latitude and a longitude. *)
Inductive geocode_reply : Type :=
| GeoRaises
| GeoNoMatch
| GeoPlace (latitude longitude : R).

Section Geocoder.

(** The external lookup service. *)
Variable geocode : string -> geocode_reply.

(** [_geocode_location] returns the coordinate, if any, together with
    the queries it sent to the external service, in order. *)
Definition _geocode_location (location : string) : option (R * R) * list string :=
  let location_lower := lower location in
  if str_in "bay of bengal" location_lower then (Some (15.0, 87.0), [])
  else if str_in "arabian sea" location_lower then (Some (15.0, 68.0), [])
  else if str_in "indian ocean" location_lower then (Some (10.0, 75.0), [])
  else
    let search_query := location ++ ", India" in
    match geocode search_query with
    | GeoPlace latitude longitude => (Some (latitude, longitude), [search_query])
    | GeoNoMatch => (None, [search_query])
    | GeoRaises => (None, [search_query])
    end.

End Geocoder.

(** [asdict(alert)] *)
Definition asdict (alert : Alert) : list (string * pyval) :=
  [ ("title", PStr (title alert));
    ("message", PStr (message alert));
    ("severity", PStr (severity alert));
    ("source", PStr (source alert));
    ("lat", of_option_float (lat alert));
    ("lng", of_option_float (lng alert));
    ("time", PStr (time alert)) ].

Definition bump_processed (self : INCOISScraper) : INCOISScraper :=
  {| alerts_processed := alerts_processed self + 1;
     alerts_skipped := alerts_skipped self;
     potential_feeds := potential_feeds self;
     scraping_urls := scraping_urls self;
     severity_keywords := severity_keywords self |}.

Definition bump_skipped (self : INCOISScraper) : INCOISScraper :=
  {| alerts_processed := alerts_processed self;
     alerts_skipped := alerts_skipped self + 1;
     potential_feeds := potential_feeds self;
     scraping_urls := scraping_urls self;
     severity_keywords := severity_keywords self |}.

Definition set_processed (self : INCOISScraper) (n : nat) : INCOISScraper :=
  {| alerts_processed := n;
     alerts_skipped := alerts_skipped self;
     potential_feeds := potential_feeds self;
     scraping_urls := scraping_urls self;
     severity_keywords := severity_keywords self |}.

(** [alert.message[:100].lower()] *)
Definition message_key (alert : Alert) : string :=
  lower (slice_to 100 (message alert)).

(** The loop that removes duplicates: [unique_alerts] grows at its end,
    [seen_messages] is the set of keys met so far, the two counters are
    fields of [self]. *)
Fixpoint dedup_loop (all_alerts unique_alerts : list Alert)
  (seen_messages : list string) (self : INCOISScraper)
  : list Alert * INCOISScraper :=
  match all_alerts with
  | [] => (unique_alerts, self)
  | alert :: rest =>
      let key := message_key alert in
      if negb (mem key seen_messages) then
        dedup_loop rest (unique_alerts ++ [alert]) (key :: seen_messages)
          (bump_processed self)
      else
        dedup_loop rest unique_alerts seen_messages (bump_skipped self)
  end.

Section Fetch.

(** [_try_rss_feed] and [_scrape_webpage] depend on the network and on
    the parsers of feeds and pages; their results are taken as given.
    [None] is an exception that leaves the method, which
    [fetch_incois_alerts] catches. *)
Variable _try_rss_feed : string -> option (list Alert).
Variable _scrape_webpage : string -> option (list Alert).

(** The clock reading, as an ISO string, when the [n]-th sample alert is
    built. *)
Variable now : nat -> string.

Definition _generate_sample_alerts : list Alert :=
  [ {| title := "🚨 High Wave Alert - Bay of Bengal";
       message := "Sea conditions are rough to very rough with wave heights of 3-4 meters expected along Andhra Pradesh and Odisha coasts. Fishermen are advised not to venture into the sea.";
       severity := "warning";
       source := "INCOIS";
       lat := Some 17.7;
       lng := Some 83.3;
       time := now 0 |};
    {| title := "⚠️ Ocean State Forecast";
       message := "Moderate sea conditions expected along Tamil Nadu coast with wave heights of 1.5-2.5 meters. Light to moderate rainfall predicted.";
       severity := "info";
       source := "INCOIS";
       lat := Some 13.0827;
       lng := Some 80.2707;
       time := now 1 |};
    {| title := "🚨 Cyclone Warning - Arabian Sea";
       message := "A deep depression in Arabian Sea is likely to intensify into a cyclonic storm. Coastal areas of Gujarat and Maharashtra advised to take precautionary measures.";
       severity := "emergency";
       source := "INCOIS";
       lat := Some 20.0;
       lng := Some 70.0;
       time := now 2 |} ].

(** The loop over [self.potential_feeds]. *)
Fixpoint rss_loop (feeds : list string) (all_alerts : list Alert) : list Alert :=
  match feeds with
  | [] => all_alerts
  | feed_url :: rest =>
      match _try_rss_feed feed_url with
      | Some rss_alerts => rss_loop rest (all_alerts ++ rss_alerts)
      | None => rss_loop rest all_alerts
      end
  end.

(** The loop over [self.scraping_urls], left once five alerts are
    there. *)
Fixpoint web_loop (urls : list string) (all_alerts : list Alert) : list Alert :=
  match urls with
  | [] => all_alerts
  | url :: rest =>
      match _scrape_webpage url with
      | Some web_alerts =>
          let all_alerts := (all_alerts ++ web_alerts)%list in
          if (5 <=? List.length all_alerts)%nat then all_alerts
          else web_loop rest all_alerts
      | None => web_loop rest all_alerts
      end
  end.

(** Everything the feeds and the pages gave. *)
Definition scrape_all (self : INCOISScraper) : list Alert :=
  web_loop (scraping_urls self) (rss_loop (potential_feeds self) []).

(** [if not all_alerts: all_alerts = self._generate_sample_alerts()] *)
Definition or_samples (all_alerts : list Alert) : list Alert :=
  match all_alerts with
  | [] => _generate_sample_alerts
  | _ :: _ => all_alerts
  end.

(** [if not unique_alerts: ...], the last step before the result. *)
Definition ensure_one (unique_alerts : list Alert) (self : INCOISScraper)
  : list Alert * INCOISScraper :=
  match unique_alerts with
  | [] => (_generate_sample_alerts,
           set_processed self (List.length _generate_sample_alerts))
  | _ :: _ => (unique_alerts, self)
  end.

Definition fetch_incois_alerts (self : INCOISScraper)
  : INCOISScraper * list (list (string * pyval)) :=
  let all_alerts := or_samples (scrape_all self) in
  let (unique_alerts, self1) := dedup_loop all_alerts [] [] self in
  let (unique_alerts, self2) := ensure_one unique_alerts self1 in
  (self2, map asdict unique_alerts).

End Fetch.

(** Deduplication as the design document words it: the alert at
    position [i] is kept when its key is the key of no alert before
    position [i]. *)
Definition first_of_its_key (alerts : list Alert) (i : nat) (a : Alert) : bool :=
  negb (mem (message_key a) (map message_key (firstn i alerts))).

Definition first_occurrences (alerts : list Alert) : list Alert :=
  map snd
    (filter (fun ia => first_of_its_key alerts (fst ia) (snd ia))
       (combine (seq 0 (List.length alerts)) alerts)).

(** *** Severity classification *)

(** Some keyword of [kws] occurs in [text], whatever the case of its
    letters. *)
Definition some_keyword_occurs (kws : list string) (text : string) : Prop :=
  exists kw, In kw kws /\ occurs_ci kw text.

Lemma keyword_loop_spec (kws : list string) (text : string) :
  keyword_loop kws (lower text) = true <-> some_keyword_occurs kws text.
Proof.
  unfold some_keyword_occurs. induction kws as [|k kws IH]; simpl.
  - split; [discriminate | intros [kw [[] _]]].
  - destruct (str_in (lower k) (lower text)) eqn:E.
    + split; [intros _ | reflexivity].
      exists k. split; [now left | now apply str_in_lower_spec].
    + rewrite IH. split.
      * intros [kw [Hin Hocc]]. exists kw. split; [now right | assumption].
      * intros [kw [[-> | Hin] Hocc]].
        -- apply str_in_lower_spec in Hocc. congruence.
        -- now exists kw.
Qed.

Lemma keyword_loop_false (kws : list string) (text : string) :
  ~ some_keyword_occurs kws text -> keyword_loop kws (lower text) = false.
Proof.
  intros H. destruct (keyword_loop kws (lower text)) eqn:E; [|reflexivity].
  apply keyword_loop_spec in E. contradiction.
Qed.

Example severity_warning :
  _determine_severity init "High Tide expected near Chennai" = "warning".
Proof. reflexivity. Qed.

Example severity_info :
  _determine_severity init "Ocean state forecast for the week" = "info".
Proof. reflexivity. Qed.

(** *** Geocoding overrides *)

Lemma str_in_lower_false (kw text : string) :
  ~ occurs_ci kw text -> str_in (lower kw) (lower text) = false.
Proof.
  intros H. destruct (str_in (lower kw) (lower text)) eqn:E; [|reflexivity].
  apply str_in_lower_spec in E. contradiction.
Qed.

(** C4, as the code has it. The three overrides are tried in the order
    bay of bengal, arabian sea, indian ocean, each by case-insensitive
    containment, and the first that matches gives the coordinate; no
    query is sent to the external service in any of the three cases. *)
Theorem geocode_overrides_in_order
  (geocode : string -> geocode_reply) (location : string) :
  (occurs_ci "bay of bengal" location ->
   _geocode_location geocode location = (Some (15.0, 87.0), [])) /\
  (~ occurs_ci "bay of bengal" location ->
   occurs_ci "arabian sea" location ->
   _geocode_location geocode location = (Some (15.0, 68.0), [])) /\
  (~ occurs_ci "bay of bengal" location ->
   ~ occurs_ci "arabian sea" location ->
   occurs_ci "indian ocean" location ->
   _geocode_location geocode location = (Some (10.0, 75.0), [])).
Proof.
  unfold _geocode_location. repeat split.
  - intros Hb. apply str_in_lower_spec in Hb.
    change (lower "bay of bengal") with "bay of bengal" in Hb.
    now rewrite Hb.
  - intros Hnb Ha.
    apply str_in_lower_false in Hnb. apply str_in_lower_spec in Ha.
    change (lower "bay of bengal") with "bay of bengal" in Hnb.
    change (lower "arabian sea") with "arabian sea" in Ha.
    now rewrite Hnb, Ha.
  - intros Hnb Hna Hi.
    apply str_in_lower_false in Hnb. apply str_in_lower_false in Hna.
    apply str_in_lower_spec in Hi.
    change (lower "bay of bengal") with "bay of bengal" in Hnb.
    change (lower "arabian sea") with "arabian sea" in Hna.
    change (lower "indian ocean") with "indian ocean" in Hi.
    now rewrite Hnb, Hna, Hi.
Qed.

(** The name of the bay in mixed case: the override answers and the
    service is not asked, whatever it would have said. *)
Lemma geocode_overrides_in_order_witness :
  _geocode_location (fun _ => GeoPlace 1 2) "Bay of Bengal"
  = (Some (15.0, 87.0), []).
Proof.
  apply (proj1 (geocode_overrides_in_order (fun _ => GeoPlace 1 2)
                  "Bay of Bengal")).
  apply str_in_lower_spec. reflexivity.
Defined.

(** C4 fails as stated: a location that contains 'arabian sea' and also
    'bay of bengal' gets the coordinate of the bay, not (15.0, 68.0). *)
Lemma geocode_arabian_sea_counterexample :
  occurs_ci "arabian sea" "Arabian Sea and Bay of Bengal" /\
  _geocode_location (fun _ => GeoNoMatch) "Arabian Sea and Bay of Bengal"
  = (Some (15.0, 87.0), []) /\
  (Some (15.0, 87.0), @nil string) <> (Some (15.0, 68.0), @nil string).
Proof.
  split; [|split].
  - apply str_in_lower_spec. reflexivity.
  - reflexivity.
  - intros H. injection H as H. lra.
Qed.

(** Any other location is sent once to the service, with the country
    appended. *)
Lemma geocode_external (geocode : string -> geocode_reply) (location : string) :
  ~ occurs_ci "bay of bengal" location ->
  ~ occurs_ci "arabian sea" location ->
  ~ occurs_ci "indian ocean" location ->
  snd (_geocode_location geocode location) = [location ++ ", India"].
Proof.
  intros Hb Ha Hi. unfold _geocode_location.
  apply str_in_lower_false in Hb, Ha, Hi.
  change (lower "bay of bengal") with "bay of bengal" in Hb.
  change (lower "arabian sea") with "arabian sea" in Ha.
  change (lower "indian ocean") with "indian ocean" in Hi.
  rewrite Hb, Ha, Hi. now destruct (geocode _).
Qed.

(** *** Deduplication *)

Lemma firstn_length_app {A : Type} (l r : list A) :
  firstn (List.length l) (l ++ r) = l.
Proof. induction l as [|x l IH]; simpl; [now destruct r | now rewrite IH]. Qed.

Lemma mem_cons (k x : string) (l : list string) :
  mem k (x :: l) = String.eqb k x || mem k l.
Proof. reflexivity. Qed.

Lemma mem_snoc (k x : string) (l : list string) :
  mem k (l ++ [x]) = mem k l || String.eqb k x.
Proof. unfold mem. rewrite existsb_app. simpl. now rewrite orb_false_r. Qed.

(** The loop, started after the alerts [done] with a set [seen] that
    holds their keys, appends to [unique_alerts] the alerts of the rest
    that are the first of their key in the whole sequence. *)
Lemma dedup_loop_keeps (rest done unique_alerts : list Alert)
  (seen : list string) (self : INCOISScraper) :
  (forall k, mem k seen = mem k (map message_key done)) ->
  fst (dedup_loop rest unique_alerts seen self)
  = (unique_alerts ++
     map snd
       (filter (fun ia => first_of_its_key (done ++ rest) (fst ia) (snd ia))
          (combine (seq (List.length done) (List.length rest)) rest)))%list.
Proof.
  revert done unique_alerts seen self.
  induction rest as [|a rest IH]; intros done unique_alerts seen self Hseen.
  - simpl. now rewrite app_nil_r.
  - cbn [dedup_loop List.length seq combine filter fst snd].
    unfold first_of_its_key at 1. rewrite firstn_length_app, <- Hseen.
    assert (Hassoc : (done ++ a :: rest = (done ++ [a]) ++ rest)%list)
      by now rewrite <- app_assoc.
    assert (Hlen : S (List.length done) = List.length (done ++ [a])%list)
      by (rewrite length_app; simpl; lia).
    destruct (mem (message_key a) seen) eqn:E; cbn [negb].
    + rewrite (IH (done ++ [a])%list).
      * now rewrite Hassoc, Hlen.
      * intros k. rewrite map_app. cbn [map]. rewrite mem_snoc, <- Hseen.
        destruct (String.eqb k (message_key a)) eqn:Ek.
        -- apply String.eqb_eq in Ek. subst k. now rewrite E.
        -- now rewrite orb_false_r.
    + rewrite (IH (done ++ [a])%list).
      * cbn [map snd]. now rewrite Hassoc, Hlen, <- app_assoc.
      * intros k. rewrite map_app. cbn [map].
        rewrite mem_snoc, mem_cons, <- Hseen. apply orb_comm.
Qed.

(** Each alert of the sequence moves one of the two counters: the kept
    ones [alerts_processed], the dropped ones [alerts_skipped]. *)
Lemma dedup_loop_counts (rest unique_alerts : list Alert)
  (seen : list string) (self : INCOISScraper) :
  let r := dedup_loop rest unique_alerts seen self in
  (alerts_processed (snd r) + List.length unique_alerts
   = alerts_processed self + List.length (fst r))%nat /\
  (alerts_skipped (snd r) + List.length (fst r)
   = alerts_skipped self + List.length unique_alerts + List.length rest)%nat.
Proof.
  revert unique_alerts seen self.
  induction rest as [|a rest IH]; intros unique_alerts seen self; cbn zeta.
  - simpl. lia.
  - cbn [dedup_loop].
    destruct (negb (mem (message_key a) seen)).
    + specialize (IH (unique_alerts ++ [a])%list (message_key a :: seen)
                    (bump_processed self)).
      cbn zeta in IH. rewrite length_app in IH. simpl in IH |- *. lia.
    + specialize (IH unique_alerts seen (bump_skipped self)).
      cbn zeta in IH. simpl in IH |- *. lia.
Qed.

(** Started on an empty set, the loop keeps the first occurrences. *)
Lemma dedup_loop_first_occurrences (alerts : list Alert) (self : INCOISScraper) :
  fst (dedup_loop alerts [] [] self) = first_occurrences alerts.
Proof.
  now rewrite (dedup_loop_keeps alerts [] [] [] self).
Qed.

(** The first alert of a sequence is always kept. *)
Lemma first_occurrences_head (a : Alert) (rest : list Alert) :
  exists kept, first_occurrences (a :: rest) = a :: kept.
Proof.
  unfold first_occurrences. cbn [List.length seq combine filter fst snd].
  unfold first_of_its_key at 1. cbn [firstn map mem existsb negb].
  eexists. reflexivity.
Qed.

(** C5 fails as stated: two messages that differ within their first 100
    characters, but only in the case of letters, have one key, and the
    second alert is dropped. *)
Lemma dedup_case_counterexample :
  let a := mkAlert "t1" "HIGH WAVE ALERT" "warning" "INCOIS" None None "t" in
  let b := mkAlert "t2" "High wave alert" "warning" "INCOIS" None None "t" in
  slice_to 100 (message a) <> slice_to 100 (message b) /\
  fst (dedup_loop [a; b] [] [] init) = [a] /\
  alerts_skipped (snd (dedup_loop [a; b] [] [] init)) = 1%nat.
Proof.
  cbv zeta. split; [|split].
  - vm_compute. discriminate.
  - reflexivity.
  - reflexivity.
Qed.

(** *** The sample fallback *)

Section FetchFacts.

Variable _try_rss_feed : string -> option (list Alert).
Variable _scrape_webpage : string -> option (list Alert).
Variable now : nat -> string.

Lemma or_samples_nonempty (all_alerts : list Alert) :
  or_samples now all_alerts <> [].
Proof. destruct all_alerts; simpl; discriminate. Qed.

Lemma dedup_loop_nonempty (all_alerts : list Alert) (self : INCOISScraper) :
  all_alerts <> [] -> fst (dedup_loop all_alerts [] [] self) <> [].
Proof.
  intros H. destruct all_alerts as [|a rest]; [contradiction|].
  rewrite dedup_loop_first_occurrences.
  destruct (first_occurrences_head a rest) as [kept ->]. discriminate.
Qed.

(** The three sample alerts have three keys: all of them are kept. *)
Lemma dedup_loop_samples (self : INCOISScraper) :
  fst (dedup_loop (_generate_sample_alerts now) [] [] self)
  = _generate_sample_alerts now.
Proof. reflexivity. Qed.

(** What a run returns: the first occurrences among what was scraped,
    or among the samples when nothing was. *)
Lemma fetch_incois_alerts_result (self : INCOISScraper) :
  snd (fetch_incois_alerts _try_rss_feed _scrape_webpage now self)
  = map asdict
      (first_occurrences
         (or_samples now (scrape_all _try_rss_feed _scrape_webpage self))).
Proof.
  unfold fetch_incois_alerts.
  pose proof (dedup_loop_first_occurrences
                (or_samples now (scrape_all _try_rss_feed _scrape_webpage self))
                self) as Hfirst.
  pose proof (dedup_loop_nonempty
                (or_samples now (scrape_all _try_rss_feed _scrape_webpage self))
                self (or_samples_nonempty _)) as Hne.
  destruct (dedup_loop _ [] [] self) as [unique_alerts self1].
  cbn [fst] in Hfirst, Hne. rewrite <- Hfirst.
  destruct unique_alerts as [|a rest]; [contradiction | reflexivity].
Qed.

(** C6. [fetch_incois_alerts] never returns an empty list. When the
    feeds and the pages gave no alert at all, the result is the three
    sample alerts; the last step of the method puts the samples in
    place of an empty list of unique alerts; and the samples are not
    empty. *)
Theorem fetch_incois_alerts_never_empty (self : INCOISScraper) :
  snd (fetch_incois_alerts _try_rss_feed _scrape_webpage now self) <> [] /\
  (scrape_all _try_rss_feed _scrape_webpage self = [] ->
   snd (fetch_incois_alerts _try_rss_feed _scrape_webpage now self)
   = map asdict (_generate_sample_alerts now)) /\
  (forall self1 : INCOISScraper,
     fst (ensure_one now [] self1) = _generate_sample_alerts now) /\
  _generate_sample_alerts now <> [].
Proof.
  split; [|split; [|split]].
  - unfold fetch_incois_alerts.
    pose proof (dedup_loop_nonempty
                  (or_samples now (scrape_all _try_rss_feed _scrape_webpage self))
                  self (or_samples_nonempty _)) as Hne.
    destruct (dedup_loop _ [] [] self) as [unique_alerts self1].
    cbn [fst] in Hne.
    destruct unique_alerts as [|a rest]; [contradiction|].
    cbn [ensure_one snd map]. discriminate.
  - intros Hnone. unfold fetch_incois_alerts. rewrite Hnone.
    cbn [or_samples].
    pose proof (dedup_loop_samples self) as Hs.
    destruct (dedup_loop (_generate_sample_alerts now) [] [] self)
      as [unique_alerts self1].
    cbn [fst] in Hs. subst unique_alerts. reflexivity.
  - reflexivity.
  - discriminate.
Qed.

End FetchFacts.

(** Every feed and every page fails with an exception: the run still
    returns the three samples. *)
Lemma fetch_incois_alerts_never_empty_witness :
  snd (fetch_incois_alerts (fun _ => None) (fun _ => None) (fun _ => "t") init)
  = map asdict (_generate_sample_alerts (fun _ => "t")).
Proof.
  apply (proj1 (proj2 (fetch_incois_alerts_never_empty
                         (fun _ => None) (fun _ => None) (fun _ => "t") init))).
  reflexivity.
Defined.

(** Six alerts from the first page, the fifth a copy of the first up to
    case: the loop over the pages stops there and five alerts are
    returned. *)
Example fetch_stops_and_dedups :
  let a (m : string) := mkAlert m m "info" "INCOIS" None None "t" in
  let page (url : string) :=
    if String.eqb url "https://incois.gov.in/portal/osf"
    then Some [a "one"; a "two"; a "three"; a "four"; a "ONE"; a "six"]
    else None in
  let r := fetch_incois_alerts (fun _ => Some []) page (fun _ => "t") init in
  List.length (snd r) = 5%nat /\
  alerts_processed (fst r) = 5%nat /\ alerts_skipped (fst r) = 1%nat.
Proof. cbv zeta. repeat split; reflexivity. Qed.

End Scraper.

(** ** main.py *)

Module Main.

Import PyStr PyVal.
Open Scope R_scope.

(** A [datetime], as a count of microseconds. *)
Definition datetime : Type := Z.

(** The table model [Alert]. Its columns [lat] and [lng] are declared
    [Optional[float]]; an object holds whatever the constructor was
    given, since a table model does not validate its arguments, so the
    two fields are Python values here, [PNone] for [None]. The values
    are converted when the object is inserted: a row of the table
    holds a float or [None]. *)
Record Alert : Type := mkAlert {
  id : option Z;
  source : option string;
  severity : option string;
  title : option string;
  message : option string;
  time : option datetime;
  lat : pyval;
  lng : pyval
}.

(** The global [last_error]. *)
Record error_info : Type := mkError {
  error_time : option string;
  error_message : option string;
  error_trace : option string
}.

(** What is at a path of the file system: nothing, a file that [open] or
    [json.load] fails on (with the text of the exception), or a file
    with a JSON value. *)
Inductive file_content : Type :=
| NoFile
| Unreadable (err : string)
| Json (data : pyval).

(** The state the functions of [main.py] work on: the working
    directory, the files, the rows of the table [alert] in the order
    the table returns them, and [last_error]. *)
Record world : Type := mkWorld {
  cwd : string;
  files : string -> file_content;
  table : list Alert;
  last_error : error_info
}.

Definition set_table (w : world) (rows : list Alert) : world :=
  {| cwd := cwd w; files := files w; table := rows; last_error := last_error w |}.

Definition set_id (a : Alert) (key : Z) : Alert :=
  {| id := Some key; source := source a; severity := severity a;
     title := title a; message := message a; time := time a;
     lat := lat a; lng := lng a |}.

(** The integer key the table gives its next row: one more than the
    largest key in use, 1 for an empty table. *)
Fixpoint next_key (rows : list Alert) : Z :=
  match rows with
  | [] => 1%Z
  | a :: rest =>
      Z.max (match id a with Some k => (k + 1)%Z | None => 1%Z end) (next_key rest)
  end.

Fixpoint assign_keys (key : Z) (pending : list Alert) : list Alert :=
  match pending with
  | [] => []
  | a :: rest => set_id a key :: assign_keys (key + 1) rest
  end.

(** [session.query(Alert).delete()] and its [session.commit()] *)
Definition delete_all (w : world) : world := set_table w [].

(** What the loop of [load_alerts_from_json] carries: the objects added
    to the session and the three accumulators. *)
Record sync_state : Type := mkSync {
  session_new : list Alert;
  inserted : nat;
  skipped : nat;
  skipped_details : list string
}.

Definition sync_start : sync_state :=
  {| session_new := []; inserted := 0; skipped := 0; skipped_details := [] |}.

(** [skipped += 1; skipped_details.append(reason); continue] *)
Definition skip (st : sync_state) (reason : string) : sync_state :=
  {| session_new := session_new st;
     inserted := inserted st;
     skipped := skipped st + 1;
     skipped_details := skipped_details st ++ [reason] |}.

(** [session.add(alert); inserted += 1] *)
Definition add (st : sync_state) (alert : Alert) : sync_state :=
  {| session_new := session_new st ++ [alert];
     inserted := inserted st + 1;
     skipped := skipped st;
     skipped_details := skipped_details st |}.

Section Sync.

(** The builtins [float] (on strings) and [str] (on values that are not
    strings). *)
Variable float_of_str : string -> option R.
Variable repr : pyval -> string.

(** [datetime.utcnow()] when the record of index [idx] is built. *)
Variable utcnow : nat -> datetime.

(** [datetime.utcnow().isoformat()] and [traceback.format_exc()] inside
    [set_last_error], for an exception with a given text. *)
Variable error_clock : string -> string.
Variable format_exc : string -> string.

(** The text of the exception that [session.commit()] raises when the
    INSERT of the given pending objects fails. *)
Variable commit_error : list Alert -> string.

Definition set_last_error (w : world) (exc : string) : world :=
  {| cwd := cwd w; files := files w; table := table w;
     last_error := {| error_time := Some (error_clock exc);
                      error_message := Some exc;
                      error_trace := Some (format_exc exc) |} |}.

(** The inner [try] of the body, entered when both coordinates are
    there: [lat = float(lat); lng = float(lng)]. [None] is its handler,
    which skips the record. With only one coordinate, or none, nothing
    is converted. *)
Definition coerce_pair (lat_ lng_ : pyval) : option (pyval * pyval) :=
  if negb (is_none lat_) && negb (is_none lng_) then
    match py_float float_of_str lat_ with
    | Some flat =>
        match py_float float_of_str lng_ with
        | Some flng => Some (PFloat flat, PFloat flng)
        | None => None
        end
    | None => None
    end
  else Some (lat_, lng_).

(** The call [Alert(title=str(title), ..., lat=lat, lng=lng)] for the
    record of index [idx]. *)
Definition new_alert (idx : nat) (title_ message_ severity_ source_ lat_ lng_ : pyval)
  : Alert :=
  {| id := None;
     source := Some (py_str repr source_);
     severity := Some (py_str repr severity_);
     title := Some (py_str repr title_);
     message := Some (py_str repr message_);
     time := Some (utcnow idx);
     lat := lat_;
     lng := lng_ |}.

(** The body of the loop over the records, for the record [item] of
    index [idx]. An [item] that is not a dict has no method [get]: the
    [AttributeError] is caught by the handler of the body. *)
Definition sync_item (idx : nat) (item : pyval) (st : sync_state) : sync_state :=
  match item with
  | PDict d =>
      let title_ := dict_get d "title" in
      let message_ := dict_get d "message" in
      let severity_ := dict_get_default d "severity" (PStr "info") in
      let source_ := dict_get_default d "source" (PStr "unknown") in
      let lat_ := dict_get_default d "lat" PNone in
      let lng_ := dict_get_default d "lng" PNone in
      if negb (truthy title_) || negb (truthy message_) then
        skip st ("idx " ++ str_of_nat idx ++ ": missing title/message")
      else
        match coerce_pair lat_ lng_ with
        | None => skip st ("idx " ++ str_of_nat idx ++ ": invalid lat/lng")
        | Some (lat_, lng_) =>
            add st (new_alert idx title_ message_ severity_ source_ lat_ lng_)
        end
  | _ =>
      skip st ("idx " ++ str_of_nat idx ++ ": exception '" ++ type_name item
               ++ "' object has no attribute 'get'")
  end.

(** [for idx, item in enumerate(data)], from index [idx] on. *)
Fixpoint sync_loop (idx : nat) (data : list pyval) (st : sync_state) : sync_state :=
  match data with
  | [] => st
  | item :: rest => sync_loop (S idx) rest (sync_item idx item st)
  end.

(** What the column type [Float] of [lat] and [lng] does with a value
    bound to an INSERT: [None] stays [None], every other value goes
    through [float]. The [None] of the result is the exception of that
    [float]. *)
Definition bind_float (v : pyval) : option pyval :=
  match v with
  | PNone => Some PNone
  | _ => option_map PFloat (py_float float_of_str v)
  end.

(** The row a pending object becomes under the key [key]; [None] when
    one of its coordinates cannot be bound. *)
Definition insert_row (key : Z) (a : Alert) : option Alert :=
  match bind_float (lat a), bind_float (lng a) with
  | Some lat_, Some lng_ =>
      Some {| id := Some key; source := source a; severity := severity a;
              title := title a; message := message a; time := time a;
              lat := lat_; lng := lng_ |}
  | _, _ => None
  end.

(** The INSERT of the pending objects, in the order they were added,
    with consecutive keys from [key] on. One value that cannot be bound
    fails the whole statement. *)
Fixpoint flush (key : Z) (pending : list Alert) : option (list Alert) :=
  match pending with
  | [] => Some []
  | a :: rest =>
      match insert_row key a, flush (key + 1) rest with
      | Some r, Some rows => Some (r :: rows)
      | _, _ => None
      end
  end.

(** [session.commit()] after a series of [session.add]: the pending
    objects become rows after the rows of the table; [None] when the
    INSERT raises, and then the table is as it was. *)
Definition commit_new (w : world) (pending : list Alert) : option world :=
  match flush (next_key (table w)) pending with
  | Some rows => Some (set_table w (table w ++ rows))
  | None => None
  end.

(** The handler of the outer [try]: record the error, return a dict
    with the keys ['error'] and ['trace']. *)
Definition load_failed (w : world) (exc : string) : world * list (string * pyval) :=
  (set_last_error w exc,
   [ ("error", PStr exc); ("trace", PStr (format_exc exc)) ]).

Definition load_alerts_from_json (w : world) (file_path : string)
  : world * list (string * pyval) :=
  match files w file_path with
  | NoFile => load_failed w (file_path ++ " not found in cwd: " ++ cwd w)
  | Unreadable err => load_failed w err
  | Json data =>
      match data with
      | PList items =>
          let w1 := delete_all w in
          let st := sync_loop 0 items sync_start in
          match commit_new w1 (session_new st) with
          | Some w2 =>
              (w2,
               [ ("inserted", PInt (Z.of_nat (inserted st)));
                 ("skipped", PInt (Z.of_nat (skipped st)));
                 ("skipped_details", PList (map PStr (skipped_details st))) ])
          | None => load_failed w1 (commit_error (session_new st))
          end
      | _ =>
          load_failed w
            "alerts.json must contain a JSON array (list) of alert objects."
      end
  end.

End Sync.

(** *** The great-circle distance *)

(** [math.radians] *)
Definition radians (x : R) : R := x * (PI / 180).

(** [math.sqrt]; [None] is the [ValueError] on a negative argument. *)
Definition math_sqrt (x : R) : option R :=
  if Rlt_dec x 0 then None else Some (sqrt x).

(** [math.atan2(y, x)], the angle of the point [(x, y)]. *)
Definition atan2 (y x : R) : R :=
  if Rlt_dec 0 x then atan (y / x)
  else if Rlt_dec x 0 then
    if Rle_dec 0 y then atan (y / x) + PI else atan (y / x) - PI
  else if Rlt_dec 0 y then PI / 2
  else if Rlt_dec y 0 then - (PI / 2)
  else 0.

Definition haversine_km (lat1 lon1 lat2 lon2 : R) : option R :=
  let R_ := 6371.0 in
  let dlat := radians (lat2 - lat1) in
  let dlon := radians (lon2 - lon1) in
  let a := sin (dlat / 2) ^ 2
           + cos (radians lat1) * cos (radians lat2) * sin (dlon / 2) ^ 2 in
  match math_sqrt a with
  | None => None
  | Some sa =>
      match math_sqrt (1 - a) with
      | None => None
      | Some sb =>
          let c := 2 * atan2 sa sb in
          Some (R_ * c)
      end
  end.

(** The integer nearest to [x], the even one of the two when [x] is
    halfway. *)
Definition round_half_even (x : R) : Z :=
  let n := Int_part x in
  let d := x - IZR n in
  if Rlt_dec d (1 / 2) then n
  else if Rlt_dec (1 / 2) d then (n + 1)%Z
  else if Z.even n then n else (n + 1)%Z.

(** [round(x, 2)] *)
Definition round2 (x : R) : R := IZR (round_half_even (x * 100)) / 100.

(** *** The proximity query *)

(** A row of the answer: [a.dict()] with the key ['distance_km']. *)
Record nearby_row : Type := mkRow {
  row : Alert;
  distance_km : R
}.

(** What the route answers: the list of rows, or the JSON error with
    status 500 of its handler. *)
Inductive response : Type :=
| Rows (nearby : list nearby_row)
| Error500 (error : string).

(** [haversine_km(lat, lng, a.lat, a.lng)] inside its [try]: the
    subtraction of a float from a value that is not a number raises, and
    so does a square root of a negative number; [None] is the handler
    [continue]. *)
Definition distance_to (qlat qlng : R) (a : Alert) : option R :=
  match as_number (lat a) with
  | None => None
  | Some lat2 =>
      match as_number (lng a) with
      | None => None
      | Some lon2 => haversine_km qlat qlng lat2 lon2
      end
  end.

(** The loop [for a in alerts] of the route. *)
Fixpoint nearby_loop (qlat qlng radius_km : R) (alerts : list Alert)
  : list nearby_row :=
  match alerts with
  | [] => []
  | a :: rest =>
      if is_none (lat a) || is_none (lng a) then
        nearby_loop qlat qlng radius_km rest
      else
        match distance_to qlat qlng a with
        | None => nearby_loop qlat qlng radius_km rest
        | Some dist =>
            if Rle_dec dist radius_km then
              {| row := a; distance_km := round2 dist |}
              :: nearby_loop qlat qlng radius_km rest
            else nearby_loop qlat qlng radius_km rest
        end
  end.

Section Nearby.

Variable float_of_str : string -> option R.
Variable repr : pyval -> string.
Variable utcnow : nat -> datetime.
Variable error_clock : string -> string.
Variable format_exc : string -> string.
Variable commit_error : list Alert -> string.

(** The route [/alerts-nearby]: it syncs the table with [alerts.json],
    whose result it does not look at, reads all rows and filters them.
    Nothing raises outside the two inner handlers, so the answer is
    always a list of rows. *)
Definition alerts_nearby (w : world) (qlat qlng radius_km : R)
  : world * response :=
  let w1 := fst (load_alerts_from_json float_of_str repr utcnow error_clock
                   format_exc commit_error w "alerts.json") in
  let alerts := table w1 in
  (w1, Rows (nearby_loop qlat qlng radius_km alerts)).

End Nearby.

(** *** Facts about the distance *)

Lemma radians_minus (x y : R) : radians (x - y) = radians x - radians y.
Proof. unfold radians. ring. Qed.

Lemma sin_half_sq_sym (x y : R) :
  sin (radians (x - y) / 2) ^ 2 = sin (radians (y - x) / 2) ^ 2.
Proof.
  replace (radians (x - y) / 2) with (- (radians (y - x) / 2))
    by (unfold radians; field).
  rewrite sin_neg. ring.
Qed.

Lemma haversine_km_sym (lat1 lon1 lat2 lon2 : R) :
  haversine_km lat1 lon1 lat2 lon2 = haversine_km lat2 lon2 lat1 lon1.
Proof.
  unfold haversine_km. cbv zeta.
  rewrite (sin_half_sq_sym lat2 lat1), (sin_half_sq_sym lon2 lon1).
  rewrite (Rmult_comm (cos (radians lat1)) (cos (radians lat2))).
  reflexivity.
Qed.

Lemma math_sqrt_0 : math_sqrt 0 = Some 0.
Proof.
  unfold math_sqrt. destruct (Rlt_dec 0 0) as [H|_]; [lra|].
  now rewrite sqrt_0.
Qed.

Lemma math_sqrt_1 : math_sqrt 1 = Some 1.
Proof.
  unfold math_sqrt. destruct (Rlt_dec 1 0) as [H|_]; [lra|].
  now rewrite sqrt_1.
Qed.

Lemma atan2_0_1 : atan2 0 1 = 0.
Proof.
  unfold atan2. destruct (Rlt_dec 0 1) as [_|H]; [|lra].
  replace (0 / 1) with 0 by field. apply atan_0.
Qed.

Lemma haversine_km_self (lat1 lon1 : R) :
  haversine_km lat1 lon1 lat1 lon1 = Some 0.
Proof.
  unfold haversine_km. cbv zeta.
  replace (lat1 - lat1) with 0 by ring.
  replace (lon1 - lon1) with 0 by ring.
  replace (radians 0 / 2) with 0 by (unfold radians; field).
  rewrite sin_0.
  replace (0 ^ 2 + cos (radians lat1) * cos (radians lat1) * 0 ^ 2) with 0
    by ring.
  rewrite math_sqrt_0. replace (1 - 0) with 1 by ring.
  rewrite math_sqrt_1, atan2_0_1. f_equal. ring.
Qed.

(** The argument of the two square roots lies between 0 and 1, for all
    real coordinates. *)
Lemma haversine_arg_bounds (p1 p2 l : R) :
  0 <= sin ((p2 - p1) / 2) ^ 2 + cos p1 * cos p2 * sin (l / 2) ^ 2 <= 1.
Proof.
  pose proof (sin2_cos2 (l / 2)) as Hl. unfold Rsqr in Hl.
  pose proof (cos_2a_sin ((p2 - p1) / 2)) as Hd.
  replace (2 * ((p2 - p1) / 2)) with (p2 - p1) in Hd by field.
  pose proof (cos_minus p2 p1) as Hm.
  pose proof (cos_plus p2 p1) as Hp.
  pose proof (COS_bound (p2 - p1)) as [Hd1 Hd2].
  pose proof (COS_bound (p2 + p1)) as [Hs1 Hs2].
  set (s := sin (l / 2)) in *. set (c := cos (l / 2)) in *.
  set (h := sin ((p2 - p1) / 2)) in *.
  set (cD := cos (p2 - p1)) in *. set (cS := cos (p2 + p1)) in *.
  set (c1 := cos p1) in *. set (c2 := cos p2) in *.
  set (s1 := sin p1) in *. set (s2 := sin p2) in *.
  assert (Hs : 0 <= s * s <= 1) by nra.
  assert (Hc12 : c1 * c2 = (cD + cS) / 2) by lra.
  assert (Hh : h * h = (1 - cD) / 2) by lra.
  replace (h ^ 2 + c1 * c2 * s ^ 2)
    with ((1 - s * s) * ((1 - cD) / 2) + (s * s) * ((1 + cS) / 2)).
  - split.
    + assert (0 <= (1 - s * s) * ((1 - cD) / 2)) by (apply Rmult_le_pos; lra).
      assert (0 <= (s * s) * ((1 + cS) / 2)) by (apply Rmult_le_pos; lra).
      lra.
    + assert (0 <= (1 - s * s) * ((1 + cD) / 2)) by (apply Rmult_le_pos; lra).
      assert (0 <= (s * s) * ((1 - cS) / 2)) by (apply Rmult_le_pos; lra).
      lra.
  - simpl. rewrite !Rmult_1_r. rewrite Hh, Hc12. field.
Qed.

Lemma atan2_nonneg (y x : R) : 0 <= y -> 0 <= x -> 0 <= atan2 y x.
Proof.
  intros Hy Hx. unfold atan2.
  destruct (Rlt_dec 0 x) as [Hpos|Hnpos].
  - rewrite <- atan_0. destruct (Req_dec_T y 0) as [->|Hne].
    + replace (0 / x) with 0 by (field; lra). lra.
    + left. apply atan_increasing. apply Rdiv_lt_0_compat; lra.
  - destruct (Rlt_dec x 0) as [Hneg|_]; [lra|].
    destruct (Rlt_dec 0 y) as [_|_].
    + pose proof PI_RGT_0. lra.
    + destruct (Rlt_dec y 0); [lra | lra].
Qed.

(** On real numbers the two square roots of the formula are defined,
    and the distance is not negative. *)
Lemma haversine_km_defined (lat1 lon1 lat2 lon2 : R) :
  exists d, haversine_km lat1 lon1 lat2 lon2 = Some d /\ 0 <= d.
Proof.
  unfold haversine_km. cbv zeta.
  pose proof (haversine_arg_bounds (radians lat1) (radians lat2)
                (radians (lon2 - lon1))) as [H0 H1].
  rewrite <- radians_minus in H0, H1.
  set (a := sin (radians (lat2 - lat1) / 2) ^ 2
            + cos (radians lat1) * cos (radians lat2)
              * sin (radians (lon2 - lon1) / 2) ^ 2) in *.
  unfold math_sqrt.
  destruct (Rlt_dec a 0) as [H|_]; [lra|].
  destruct (Rlt_dec (1 - a) 0) as [H|_]; [lra|].
  eexists. split; [reflexivity|].
  pose proof (atan2_nonneg (sqrt a) (sqrt (1 - a)) (sqrt_pos _) (sqrt_pos _)).
  lra.
Qed.

(** C9. The distance is symmetric in its two points, and the distance
    from a point to itself is 0. *)
Theorem haversine_symmetric_zero_on_diagonal (lat1 lon1 lat2 lon2 : R) :
  haversine_km lat1 lon1 lat2 lon2 = haversine_km lat2 lon2 lat1 lon1 /\
  haversine_km lat1 lon1 lat1 lon1 = Some 0.
Proof.
  split; [apply haversine_km_sym | apply haversine_km_self].
Qed.

(** *** Facts about rounding *)

Lemma round_half_even_close (x : R) :
  x - 1 / 2 <= IZR (round_half_even x) <= x + 1 / 2.
Proof.
  unfold round_half_even. cbv zeta.
  destruct (base_Int_part x) as [Hlo Hhi].
  set (n := Int_part x) in *.
  destruct (Rlt_dec (x - IZR n) (1 / 2)) as [H1|H1].
  - lra.
  - destruct (Rlt_dec (1 / 2) (x - IZR n)) as [H2|H2].
    + rewrite plus_IZR. lra.
    + destruct (Z.even n); [lra | rewrite plus_IZR; lra].
Qed.

(** [round(x, 2)] is a multiple of one hundredth, at most half a
    hundredth away from [x]. *)
Lemma round2_close (x : R) : x - 1 / 200 <= round2 x <= x + 1 / 200.
Proof.
  unfold round2. pose proof (round_half_even_close (x * 100)) as H. lra.
Qed.

Lemma round_half_even_IZR (z : Z) : round_half_even (IZR z) = z.
Proof.
  unfold round_half_even. cbv zeta.
  assert (Hn : Int_part (IZR z) = z)
    by (symmetry; apply Int_part_spec; lra).
  rewrite Hn. destruct (Rlt_dec (IZR z - IZR z) (1 / 2)) as [_|H]; [reflexivity|lra].
Qed.

Lemma round2_0 : round2 0 = 0.
Proof.
  unfold round2. replace (0 * 100) with (IZR 0) by (simpl; ring).
  rewrite round_half_even_IZR. simpl. field.
Qed.

(** *** Facts about the proximity query *)

Lemma is_none_false (v : pyval) : is_none v = false <-> v <> PNone.
Proof. destruct v; simpl; split; intros H; congruence. Qed.

(** The rows of the answer are the alerts with both coordinates, a
    distance that could be computed, and a distance within the radius. *)
Lemma nearby_loop_In (qlat qlng radius_km : R) (alerts : list Alert)
  (x : nearby_row) :
  In x (nearby_loop qlat qlng radius_km alerts) <->
  exists a dist,
    In a alerts /\ lat a <> PNone /\ lng a <> PNone /\
    distance_to qlat qlng a = Some dist /\ dist <= radius_km /\
    x = {| row := a; distance_km := round2 dist |}.
Proof.
  induction alerts as [|a rest IH].
  - simpl. split; [intros [] | intros [a [d [[] _]]]].
  - cbn [nearby_loop].
    destruct (is_none (lat a) || is_none (lng a)) eqn:Enone.
    + rewrite IH. split.
      * intros [b [d [Hin H]]]. exists b, d. split; [now right | assumption].
      * intros [b [d [[<- | Hin] [Hlat [Hlng H]]]]].
        -- apply is_none_false in Hlat, Hlng.
           rewrite Hlat, Hlng in Enone. discriminate.
        -- exists b, d. tauto.
    + apply orb_false_iff in Enone. destruct Enone as [Hlat Hlng].
      apply is_none_false in Hlat, Hlng.
      destruct (distance_to qlat qlng a) as [dist|] eqn:Edist.
      * destruct (Rle_dec dist radius_km) as [Hle|Hgt].
        -- cbn [In]. rewrite IH. split.
           ++ intros [<- | [b [d [Hin H]]]].
              ** exists a, dist. split; [now left | tauto].
              ** exists b, d. split; [now right | assumption].
           ++ intros [b [d [[<- | Hin] [Hb1 [Hb2 [Hd [Hr ->]]]]]]].
              ** left. rewrite Edist in Hd. injection Hd as ->. reflexivity.
              ** right. exists b, d. tauto.
        -- rewrite IH. split.
           ++ intros [b [d [Hin H]]]. exists b, d. split; [now right | assumption].
           ++ intros [b [d [[<- | Hin] [Hb1 [Hb2 [Hd [Hr ->]]]]]]].
              ** rewrite Edist in Hd. injection Hd as ->. contradiction.
              ** exists b, d. tauto.
      * rewrite IH. split.
        -- intros [b [d [Hin H]]]. exists b, d. split; [now right | assumption].
        -- intros [b [d [[<- | Hin] [Hb1 [Hb2 [Hd [Hr ->]]]]]]].
           ++ rewrite Edist in Hd. discriminate.
           ++ exists b, d. tauto.
Qed.

(** The answer keeps the order of the table. *)
Lemma nearby_loop_order (qlat qlng radius_km : R) (alerts : list Alert) :
  exists keep : Alert -> bool,
    map row (nearby_loop qlat qlng radius_km alerts) = filter keep alerts.
Proof.
  exists (fun a =>
            if is_none (lat a) || is_none (lng a) then false
            else match distance_to qlat qlng a with
                 | None => false
                 | Some dist => if Rle_dec dist radius_km then true else false
                 end).
  induction alerts as [|a rest IH]; [reflexivity|].
  cbn [nearby_loop filter].
  destruct (is_none (lat a) || is_none (lng a)); [assumption|].
  destruct (distance_to qlat qlng a) as [dist|]; [|assumption].
  destruct (Rle_dec dist radius_km); [|assumption].
  cbn [map row]. now rewrite IH.
Qed.

(** With float coordinates the distance is the one of [haversine_km]. *)
Lemma distance_to_floats (qlat qlng la lo : R) (a : Alert) :
  lat a = PFloat la -> lng a = PFloat lo ->
  distance_to qlat qlng a = haversine_km qlat qlng la lo.
Proof. intros Hla Hlo. unfold distance_to. now rewrite Hla, Hlo. Qed.

(** An alert at the query point itself is returned, at distance 0, for
    every radius that is not negative. *)
Lemma nearby_loop_at_point (la lo radius_km : R) (a : Alert) :
  lat a = PFloat la -> lng a = PFloat lo -> 0 <= radius_km ->
  nearby_loop la lo radius_km [a] = [ {| row := a; distance_km := 0 |} ].
Proof.
  intros Hla Hlo Hr. cbn [nearby_loop].
  rewrite (distance_to_floats la lo la lo a Hla Hlo), haversine_km_self.
  rewrite Hla, Hlo. cbn [is_none orb].
  destruct (Rle_dec 0 radius_km) as [_|H]; [|contradiction].
  now rewrite round2_0.
Qed.

Section NearbyFacts.

Variable float_of_str : string -> option R.
Variable repr : pyval -> string.
Variable utcnow : nat -> datetime.
Variable error_clock : string -> string.
Variable format_exc : string -> string.
Variable commit_error : list Alert -> string.

Let nearby :=
  alerts_nearby float_of_str repr utcnow error_clock format_exc commit_error.

(** C8. For one query point and one state of the files and the table,
    a row of the answer for the radius [r1] is a row of the answer for
    every radius [r2] with [r1 <= r2]. *)
Theorem alerts_nearby_monotone (w : world) (qlat qlng r1 r2 : R)
  (rows1 rows2 : list nearby_row) (x : nearby_row) :
  r1 <= r2 ->
  snd (nearby w qlat qlng r1) = Rows rows1 ->
  snd (nearby w qlat qlng r2) = Rows rows2 ->
  In x rows1 -> In x rows2.
Proof.
  unfold nearby, alerts_nearby. cbn [fst snd].
  intros Hle H1 H2 Hin. injection H1 as <-. injection H2 as <-.
  apply nearby_loop_In in Hin. apply nearby_loop_In.
  destruct Hin as [a [d [Ha [Hlat [Hlng [Hd [Hr ->]]]]]]].
  exists a, d. repeat split; try assumption. lra.
Qed.

End NearbyFacts.

(** A table of two alerts, one at Chennai and one without coordinates,
    and no exchange file. *)
Definition chennai : Alert :=
  {| id := Some 1%Z; source := Some "INCOIS"; severity := Some "info";
     title := Some "Ocean State Forecast"; message := Some "Moderate sea";
     time := Some 0%Z; lat := PFloat 13.0827; lng := PFloat 80.2707 |}.

Definition nowhere : Alert :=
  {| id := Some 2%Z; source := Some "INCOIS"; severity := Some "info";
     title := Some "Notice"; message := Some "No location";
     time := Some 0%Z; lat := PNone; lng := PNone |}.

Definition small_world : world :=
  {| cwd := "/srv"; files := fun _ => NoFile; table := [chennai; nowhere];
     last_error := {| error_time := None; error_message := None;
                      error_trace := None |} |}.

Lemma nearby_small_world (radius_km : R) :
  0 <= radius_km ->
  snd (alerts_nearby (fun _ => None) (fun _ => "?") (fun _ => 0%Z)
         (fun _ => "now") (fun e => e) (fun _ => "commit failed")
         small_world 13.0827 80.2707 radius_km)
  = Rows [ {| row := chennai; distance_km := 0 |} ].
Proof.
  intros Hr. unfold alerts_nearby. cbn [fst snd].
  change (table _) with ([chennai] ++ [nowhere])%list.
  cbn [app nearby_loop]. 
  rewrite (distance_to_floats _ _ 13.0827 80.2707 chennai eq_refl eq_refl).
  rewrite haversine_km_self. cbn [lat lng chennai nowhere is_none orb].
  destruct (Rle_dec 0 radius_km) as [_|H]; [|contradiction].
  now rewrite round2_0.
Qed.

(** The alert at Chennai, within 100 km of itself, is within 500 km. *)
Lemma alerts_nearby_monotone_witness :
  exists rows2,
    snd (alerts_nearby (fun _ => None) (fun _ => "?") (fun _ => 0%Z)
           (fun _ => "now") (fun e => e) (fun _ => "commit failed")
           small_world 13.0827 80.2707 500)
    = Rows rows2 /\
    In {| row := chennai; distance_km := 0 |} rows2.
Proof.
  exists [ {| row := chennai; distance_km := 0 |} ].
  split; [apply nearby_small_world; lra|].
  apply (alerts_nearby_monotone (fun _ => None) (fun _ => "?") (fun _ => 0%Z)
           (fun _ => "now") (fun e => e) (fun _ => "commit failed")
           small_world 13.0827 80.2707 100 500
           [ {| row := chennai; distance_km := 0 |} ]
           [ {| row := chennai; distance_km := 0 |} ]).
  - lra.
  - apply nearby_small_world. lra.
  - apply nearby_small_world. lra.
  - now left.
Defined.

(** *** Facts about the store sync *)

(** The effect of a stretch of the loop, apart from the state it
    started in. *)
Definition sync_join (st1 st2 : sync_state) : sync_state :=
  {| session_new := session_new st1 ++ session_new st2;
     inserted := inserted st1 + inserted st2;
     skipped := skipped st1 + skipped st2;
     skipped_details := skipped_details st1 ++ skipped_details st2 |}.

Lemma sync_join_start_r (st : sync_state) : sync_join st sync_start = st.
Proof.
  destruct st. unfold sync_join. simpl.
  now rewrite !app_nil_r, !Nat.add_0_r.
Qed.

Lemma sync_join_assoc (a b c : sync_state) :
  sync_join (sync_join a b) c = sync_join a (sync_join b c).
Proof.
  unfold sync_join. simpl. now rewrite <- !app_assoc, !Nat.add_assoc.
Qed.

Lemma skip_join (st : sync_state) (reason : string) :
  skip st reason = sync_join st (skip sync_start reason).
Proof.
  unfold skip, sync_join. simpl. now rewrite app_nil_r, Nat.add_0_r.
Qed.

Lemma add_join (st : sync_state) (alert : Alert) :
  add st alert = sync_join st (add sync_start alert).
Proof.
  unfold add, sync_join. simpl. now rewrite app_nil_r, Nat.add_0_r.
Qed.

(** *** Facts about the commit *)

(** A coordinate that is a float or is absent. *)
Definition float_or_none (v : pyval) : Prop :=
  v = PNone \/ exists r, v = PFloat r.

Section CommitFacts.

Variable float_of_str : string -> option R.

(** A float and [None] are stored as they are. *)
Lemma bind_float_stored (v : pyval) :
  float_or_none v -> bind_float float_of_str v = Some v.
Proof. intros [-> | [r ->]]; reflexivity. Qed.

(** A value that is not [None] is stored as its [float]. *)
Lemma bind_float_present (v : pyval) :
  v <> PNone ->
  bind_float float_of_str v = option_map PFloat (py_float float_of_str v).
Proof. intros H. destruct v; try reflexivity. contradiction. Qed.

Lemma insert_row_stored (key : Z) (a : Alert) :
  float_or_none (lat a) -> float_or_none (lng a) ->
  insert_row float_of_str key a = Some (set_id a key).
Proof.
  intros Hla Hlo. unfold insert_row.
  now rewrite (bind_float_stored _ Hla), (bind_float_stored _ Hlo).
Qed.

(** Objects whose coordinates are floats or absent are inserted as they
    are, with their keys. *)
Lemma flush_stored (pending : list Alert) (key : Z) :
  Forall (fun a => float_or_none (lat a) /\ float_or_none (lng a)) pending ->
  flush float_of_str key pending = Some (assign_keys key pending).
Proof.
  intros H. revert key. induction H as [|a rest [Hla Hlo] _ IH]; intros key.
  - reflexivity.
  - cbn [flush assign_keys]. now rewrite (insert_row_stored key a Hla Hlo), IH.
Qed.

Lemma flush_length (pending : list Alert) (key : Z) (rows : list Alert) :
  flush float_of_str key pending = Some rows ->
  List.length rows = List.length pending.
Proof.
  revert key rows. induction pending as [|a rest IH]; intros key rows H.
  - injection H as <-. reflexivity.
  - cbn [flush] in H.
    destruct (insert_row float_of_str key a) as [r|]; [|discriminate].
    destruct (flush float_of_str (key + 1) rest) as [rows'|] eqn:E;
      [|discriminate].
    injection H as <-. simpl. now rewrite (IH _ _ E).
Qed.

(** The row at each position is the object at that position, inserted
    under the key of that position. *)
Lemma flush_nth (pending : list Alert) (key : Z) (rows : list Alert) (i : nat) :
  flush float_of_str key pending = Some rows ->
  nth_error rows i
  = match nth_error pending i with
    | Some a => insert_row float_of_str (key + Z.of_nat i) a
    | None => None
    end.
Proof.
  revert key rows i. induction pending as [|a rest IH]; intros key rows i H.
  - injection H as <-. now destruct i.
  - cbn [flush] in H.
    destruct (insert_row float_of_str key a) as [r|] eqn:Er; [|discriminate].
    destruct (flush float_of_str (key + 1) rest) as [rows'|] eqn:E;
      [|discriminate].
    injection H as <-. destruct i as [|i].
    + cbn [nth_error]. now rewrite Z.add_0_r, Er.
    + cbn [nth_error]. rewrite (IH _ _ i E).
      now replace (key + 1 + Z.of_nat i)%Z with (key + Z.of_nat (S i))%Z by lia.
Qed.


(** The INSERT fails exactly when some pending object has a coordinate
    that cannot be bound. *)
Lemma flush_None (pending : list Alert) (key : Z) :
  flush float_of_str key pending = None <->
  exists a, In a pending /\
            (bind_float float_of_str (lat a) = None \/
             bind_float float_of_str (lng a) = None).
Proof.
  revert key. induction pending as [|a rest IH]; intros key.
  - split; [discriminate | intros [a [[] _]]].
  - cbn [flush]. unfold insert_row at 1.
    destruct (bind_float float_of_str (lat a)) as [la|] eqn:Ela.
    + destruct (bind_float float_of_str (lng a)) as [lo|] eqn:Elo.
      * destruct (flush float_of_str (key + 1) rest) as [rows|] eqn:E.
        -- split; [discriminate|].
           intros [b [[<- | Hin] Hb]].
           ++ rewrite Ela, Elo in Hb. destruct Hb; discriminate.
           ++ assert (Hn : flush float_of_str (key + 1) rest = None)
                by (apply IH; now exists b).
              congruence.
        -- split; [|reflexivity]. intros _.
           destruct (proj1 (IH (key + 1)%Z) E) as [b [Hin Hb]].
           exists b. split; [now right | exact Hb].
      * split; [|reflexivity]. intros _. exists a. split; [now left | now right].
    + split; [|reflexivity]. intros _. exists a. split; [now left | now left].
Qed.

End CommitFacts.

Section SyncFacts.

Variable float_of_str : string -> option R.
Variable repr : pyval -> string.
Variable utcnow : nat -> datetime.
Variable error_clock : string -> string.
Variable format_exc : string -> string.
Variable commit_error : list Alert -> string.

Let item_step := sync_item float_of_str repr utcnow.
Let loop := sync_loop float_of_str repr utcnow.
Let load :=
  load_alerts_from_json float_of_str repr utcnow error_clock format_exc
    commit_error.

(** A record is handled the same way whatever was handled before it. *)
Lemma sync_item_join (idx : nat) (item : pyval) (st : sync_state) :
  item_step idx item st = sync_join st (item_step idx item sync_start).
Proof.
  unfold item_step, sync_item.
  destruct item; try apply skip_join.
  cbv zeta.
  destruct (negb (truthy (dict_get d "title"))
            || negb (truthy (dict_get d "message"))); [apply skip_join|].
  destruct (coerce_pair float_of_str _ _) as [[la lo]|];
    [apply add_join | apply skip_join].
Qed.

Lemma sync_loop_join (data : list pyval) (idx : nat) (st : sync_state) :
  loop idx data st = sync_join st (loop idx data sync_start).
Proof.
  unfold loop. revert idx st. induction data as [|item rest IH]; intros idx st.
  - simpl. now rewrite sync_join_start_r.
  - cbn [sync_loop]. rewrite IH.
    rewrite (IH (S idx) (sync_item _ _ _ idx item sync_start)).
    rewrite <- sync_join_assoc. f_equal. apply sync_item_join.
Qed.

(** The loop over a batch is the loop over its first part, then over
    the rest with the indices that follow. *)
Lemma sync_loop_app (before after : list pyval) (idx : nat) (st : sync_state) :
  loop idx (before ++ after) st
  = loop (idx + List.length before) after (loop idx before st).
Proof.
  unfold loop. revert idx st.
  induction before as [|item rest IH]; intros idx st.
  - simpl. now rewrite Nat.add_0_r.
  - cbn [app sync_loop List.length]. rewrite IH. f_equal. lia.
Qed.

(** A batch with the record [item] between [before] and [after]: the
    outcome is the outcome of [before], then of [item] at its index,
    then of [after] at the indices that follow, each taken alone. *)
Lemma sync_loop_around (before after : list pyval) (item : pyval) :
  loop 0 (before ++ item :: after) sync_start
  = sync_join (loop 0 before sync_start)
      (sync_join (item_step (List.length before) item sync_start)
         (loop (S (List.length before)) after sync_start)).
Proof.
  rewrite sync_loop_app. cbn [Nat.add]. unfold loop at 1. cbn [sync_loop].
  fold loop. fold item_step.
  rewrite sync_loop_join, sync_item_join, sync_join_assoc. reflexivity.
Qed.

(** The two early failures leave through the outer handler. *)
Lemma load_no_file (w : world) (file_path : string) :
  files w file_path = NoFile ->
  load w file_path
  = load_failed error_clock format_exc w
      (file_path ++ " not found in cwd: " ++ cwd w).
Proof. intros H. unfold load, load_alerts_from_json. now rewrite H. Qed.

Lemma load_not_a_list (w : world) (file_path : string) (data : pyval) :
  files w file_path = Json data ->
  (forall items, data <> PList items) ->
  load w file_path
  = load_failed error_clock format_exc w
      "alerts.json must contain a JSON array (list) of alert objects.".
Proof.
  intros H Hnl. unfold load, load_alerts_from_json. rewrite H.
  destruct data; try reflexivity. now destruct (Hnl l).
Qed.

(** When both checks pass, the table is emptied; when the commit of the
    session succeeds, the table holds the rows of its objects and the
    answer gives the counts. *)
Lemma load_list (w : world) (file_path : string) (items : list pyval)
  (rows : list Alert) :
  files w file_path = Json (PList items) ->
  flush float_of_str 1 (session_new (loop 0 items sync_start)) = Some rows ->
  load w file_path
  = (set_table w rows,
     [ ("inserted", PInt (Z.of_nat (inserted (loop 0 items sync_start))));
       ("skipped", PInt (Z.of_nat (skipped (loop 0 items sync_start))));
       ("skipped_details",
        PList (map PStr (skipped_details (loop 0 items sync_start)))) ]).
Proof.
  intros H F. unfold load, load_alerts_from_json, commit_new. rewrite H.
  cbn [delete_all set_table table next_key]. fold loop. rewrite F.
  reflexivity.
Qed.

(** When the commit of the session raises, the sync leaves through the
    outer handler, after the table was emptied. *)
Lemma load_list_failed (w : world) (file_path : string) (items : list pyval) :
  files w file_path = Json (PList items) ->
  flush float_of_str 1 (session_new (loop 0 items sync_start)) = None ->
  load w file_path
  = load_failed error_clock format_exc (delete_all w)
      (commit_error (session_new (loop 0 items sync_start))).
Proof.
  intros H F. unfold load, load_alerts_from_json, commit_new. rewrite H.
  cbn [delete_all set_table table next_key]. fold loop. rewrite F.
  reflexivity.
Qed.

(** C10. When the exchange file does not exist, or holds a JSON value
    that is not a list, [load_alerts_from_json] returns a dict with the
    key ['error'] and the table is as it was. *)
Theorem load_failure_keeps_table (w : world) (file_path : string) :
  files w file_path = NoFile \/
  (exists data, files w file_path = Json data /\
                forall items, data <> PList items) ->
  (exists msg, dict_lookup (snd (load w file_path)) "error" = Some (PStr msg)) /\
  table (fst (load w file_path)) = table w.
Proof.
  intros [Hno | [data [Hjson Hnl]]].
  - rewrite (load_no_file w file_path Hno). split; [eexists|]; reflexivity.
  - rewrite (load_not_a_list w file_path data Hjson Hnl).
    split; [eexists|]; reflexivity.
Qed.

End SyncFacts.

(** No exchange file: the answer names the missing file and the two rows
    of the table stay. *)
Lemma load_failure_keeps_table_witness :
  let r := load_alerts_from_json (fun _ => None) (fun _ => "?") (fun _ => 0%Z)
             (fun _ => "now") (fun e => e) (fun _ => "commit failed")
             small_world "alerts.json" in
  (exists msg, dict_lookup (snd r) "error" = Some (PStr msg)) /\
  table (fst r) = [chennai; nowhere].
Proof.
  apply (load_failure_keeps_table (fun _ => None) (fun _ => "?") (fun _ => 0%Z)
           (fun _ => "now") (fun e => e) (fun _ => "commit failed")
           small_world "alerts.json").
  left. reflexivity.
Defined.

Example load_no_file_message :
  dict_lookup
    (snd (load_alerts_from_json (fun _ => None) (fun _ => "?") (fun _ => 0%Z)
            (fun _ => "now") (fun e => e) (fun _ => "commit failed")
            small_world "alerts.json")) "error"
  = Some (PStr "alerts.json not found in cwd: /srv").
Proof. reflexivity. Qed.

Lemma assign_keys_length (key : Z) (pending : list Alert) :
  List.length (assign_keys key pending) = List.length pending.
Proof.
  revert key. induction pending as [|a rest IH]; intros key; simpl;
    [reflexivity | now rewrite IH].
Qed.

Lemma assign_keys_nth (pending : list Alert) (key : Z) (i : nat) :
  nth_error (assign_keys key pending) i
  = option_map (fun a => set_id a (key + Z.of_nat i)) (nth_error pending i).
Proof.
  revert key i. induction pending as [|a rest IH]; intros key i.
  - now destruct i.
  - destruct i as [|i].
    + simpl. now rewrite Z.add_0_r.
    + cbn [assign_keys nth_error]. rewrite IH. 
      replace (key + 1 + Z.of_nat i)%Z with (key + Z.of_nat (S i))%Z by lia.
      reflexivity.
Qed.

Section BatchFacts.

Variable float_of_str : string -> option R.
Variable repr : pyval -> string.
Variable utcnow : nat -> datetime.
Variable error_clock : string -> string.
Variable format_exc : string -> string.
Variable commit_error : list Alert -> string.

Local Abbreviation item_step := (sync_item float_of_str repr utcnow).
Local Abbreviation loop := (sync_loop float_of_str repr utcnow).
Local Abbreviation load :=
  (load_alerts_from_json float_of_str repr utcnow error_clock format_exc
     commit_error).

(** A well-formed record, in the words of the design: an object with a
    title and a message that are not empty, and whose [lat] and [lng],
    where present, convert to a float. *)
Definition well_formed (item : pyval) : Prop :=
  exists d,
    item = PDict d /\
    (exists t, dict_get d "title" = PStr t /\ t <> EmptyString) /\
    (exists m, dict_get d "message" = PStr m /\ m <> EmptyString) /\
    (dict_get d "lat" <> PNone ->
     py_float float_of_str (dict_get d "lat") <> None) /\
    (dict_get d "lng" <> PNone ->
     py_float float_of_str (dict_get d "lng") <> None).

(** The object [a] of the session carries the record [item] of index
    [idx]: its title, message, severity and source (with their defaults)
    as strings, the time of its construction, and its coordinates,
    converted to floats when both are there and as they are otherwise. *)
Definition built_from (idx : nat) (item : pyval) (a : Alert) : Prop :=
  exists d,
    item = PDict d /\
    title a = Some (py_str repr (dict_get d "title")) /\
    message a = Some (py_str repr (dict_get d "message")) /\
    severity a
    = Some (py_str repr (dict_get_default d "severity" (PStr "info"))) /\
    source a
    = Some (py_str repr (dict_get_default d "source" (PStr "unknown"))) /\
    time a = Some (utcnow idx) /\
    (dict_get d "lat" = PNone \/ dict_get d "lng" = PNone ->
     lat a = dict_get d "lat" /\ lng a = dict_get d "lng") /\
    (dict_get d "lat" <> PNone -> dict_get d "lng" <> PNone ->
     exists flat flng,
       py_float float_of_str (dict_get d "lat") = Some flat /\
       py_float float_of_str (dict_get d "lng") = Some flng /\
       lat a = PFloat flat /\ lng a = PFloat flng).

Lemma is_none_true (v : pyval) : is_none v = true <-> v = PNone.
Proof. destruct v; simpl; split; intros H; congruence. Qed.

(** What a row holds in the column [lat] or [lng] for the value [v] of
    the record: nothing when [v] is absent, and the float [float(v)]
    otherwise. *)
Definition stored_coordinate (v stored : pyval) : Prop :=
  (v = PNone /\ stored = PNone) \/
  (v <> PNone /\
   exists f, py_float float_of_str v = Some f /\ stored = PFloat f).

(** The row of the table for the record [item] of index [idx]: the key
    [idx + 1], the title, message, severity and source of the record
    (with their defaults) as strings, the time of its construction, and
    its coordinates as floats. *)
Definition persisted_as (idx : nat) (item : pyval) (a : Alert) : Prop :=
  exists d,
    item = PDict d /\
    id a = Some (Z.of_nat idx + 1)%Z /\
    title a = Some (py_str repr (dict_get d "title")) /\
    message a = Some (py_str repr (dict_get d "message")) /\
    severity a
    = Some (py_str repr (dict_get_default d "severity" (PStr "info"))) /\
    source a
    = Some (py_str repr (dict_get_default d "source" (PStr "unknown"))) /\
    time a = Some (utcnow idx) /\
    stored_coordinate (dict_get d "lat") (lat a) /\
    stored_coordinate (dict_get d "lng") (lng a).

(** The value of a well-formed record in the place of a coordinate is
    bound to the column as the design says. *)
Lemma bind_float_coordinate (v obj : pyval) :
  (v <> PNone -> py_float float_of_str v <> None) ->
  obj = v \/
  (v <> PNone /\ exists f, py_float float_of_str v = Some f /\ obj = PFloat f) ->
  exists stored,
    bind_float float_of_str obj = Some stored /\ stored_coordinate v stored.
Proof.
  intros Hwf [-> | [Hv [f [Hf ->]]]].
  - destruct (is_none v) eqn:E.
    + assert (v = PNone) as -> by (destruct v; simpl in E; congruence).
      exists PNone. split; [reflexivity | now left].
    + assert (Hv : v <> PNone) by (intros ->; discriminate).
      rewrite (bind_float_present float_of_str v Hv).
      destruct (py_float float_of_str v) as [f|] eqn:Ef;
        [|now destruct (Hwf Hv)].
      exists (PFloat f). split; [reflexivity|]. right. split; [exact Hv|].
      now exists f.
  - exists (PFloat f). split; [reflexivity|]. right. split; [exact Hv|].
    now exists f.
Qed.

(** The object built from a well-formed record is inserted, and its row
    is the row of that record. *)
Lemma insert_row_well_formed (idx : nat) (item : pyval) (a : Alert) :
  well_formed item -> built_from idx item a ->
  exists r, insert_row float_of_str (Z.of_nat idx + 1) a = Some r /\
            persisted_as idx item r.
Proof.
  intros [d0 [-> [_ [_ [Hlat Hlng]]]]]
         [d [Hd [Ht [Hm [Hsev [Hsrc [Htime [Hone Hboth]]]]]]]].
  injection Hd as <-.
  assert (Hcases :
    (lat a = dict_get d0 "lat" \/
     (dict_get d0 "lat" <> PNone /\
      exists f, py_float float_of_str (dict_get d0 "lat") = Some f /\
                lat a = PFloat f)) /\
    (lng a = dict_get d0 "lng" \/
     (dict_get d0 "lng" <> PNone /\
      exists f, py_float float_of_str (dict_get d0 "lng") = Some f /\
                lng a = PFloat f))).
  { destruct (is_none (dict_get d0 "lat")) eqn:Ela.
    - destruct (Hone (or_introl (proj1 (is_none_true _) Ela))) as [H1 H2].
      split; now left.
    - destruct (is_none (dict_get d0 "lng")) eqn:Elo.
      + destruct (Hone (or_intror (proj1 (is_none_true _) Elo))) as [H1 H2].
        split; now left.
      + apply is_none_false in Ela, Elo.
        destruct (Hboth Ela Elo) as [flat [flng [Fla [Flo [Hla Hlo]]]]].
        split; right; (split; [assumption|]); eexists; split; eassumption. }
  destruct Hcases as [Hla Hlo].
  destruct (bind_float_coordinate (dict_get d0 "lat") (lat a) Hlat Hla)
    as [sla [Bla Sla]].
  destruct (bind_float_coordinate (dict_get d0 "lng") (lng a) Hlng Hlo)
    as [slo [Blo Slo]].
  unfold insert_row. rewrite Bla, Blo. eexists. split; [reflexivity|].
  exists d0. cbn [id title message severity source time lat lng].
  repeat (split; [first [reflexivity | assumption]|]). exact Slo.
Qed.

(** A well-formed record is added to the session. *)
Lemma sync_item_well_formed (idx : nat) (item : pyval) :
  well_formed item ->
  exists a, item_step idx item sync_start = add sync_start a /\
            built_from idx item a.
Proof.
  intros [d [-> [[t [Ht Htne]] [[m [Hm Hmne]] [Hlat Hlng]]]]].
  unfold sync_item. cbv zeta.
  rewrite Ht, Hm. cbn [truthy].
  destruct t as [|c t]; [contradiction|]. destruct m as [|c' m]; [contradiction|].
  cbn [nonempty negb orb].
  change (dict_get_default d "lat" PNone) with (dict_get d "lat").
  change (dict_get_default d "lng" PNone) with (dict_get d "lng").
  unfold coerce_pair.
  destruct (is_none (dict_get d "lat")) eqn:Ela.
  - cbn [negb andb]. eexists. split; [reflexivity|].
    exists d. rewrite Ht, Hm.
    cbn [new_alert title message severity source time lat lng].
    repeat (split; [reflexivity|]). split.
    + intros _. now split.
    + apply is_none_true in Ela. intros Hla. contradiction.
  - destruct (is_none (dict_get d "lng")) eqn:Elo.
    + cbn [negb andb]. eexists. split; [reflexivity|].
      exists d. rewrite Ht, Hm.
      cbn [new_alert title message severity source time lat lng].
      repeat (split; [reflexivity|]). split.
      * intros _. now split.
      * apply is_none_true in Elo. intros _ Hlo. contradiction.
    + cbn [negb andb].
      apply is_none_false in Ela, Elo.
      destruct (py_float float_of_str (dict_get d "lat")) as [flat|] eqn:Fla;
        [|now destruct (Hlat Ela)].
      destruct (py_float float_of_str (dict_get d "lng")) as [flng|] eqn:Flo;
        [|now destruct (Hlng Elo)].
      eexists. split; [reflexivity|].
      exists d. rewrite Ht, Hm.
      cbn [new_alert title message severity source time lat lng].
      repeat (split; [reflexivity|]). split.
      * intros [Hx|Hx]; contradiction.
      * intros _ _. exists flat, flng. now rewrite Fla, Flo.
Qed.

(** A batch of well-formed records: one object per record, in order,
    nothing skipped. *)
Lemma sync_loop_well_formed (items : list pyval) :
  Forall well_formed items ->
  forall idx : nat,
  exists new,
    loop idx items sync_start
    = {| session_new := new; inserted := List.length items;
         skipped := 0; skipped_details := [] |} /\
    List.length new = List.length items /\
    (forall i item, nth_error items i = Some item ->
       exists a, nth_error new i = Some a /\ built_from (idx + i) item a).
Proof.
  induction 1 as [|item rest Hwf _ IH]; intros idx.
  - exists []. repeat split. intros [|i] item H; discriminate.
  - destruct (sync_item_well_formed idx item Hwf) as [a [Hstep Ha]].
    destruct (IH (S idx)) as [new [Hloop [Hlen Hnth]]].
    exists (a :: new). split; [|split].
    + cbn [sync_loop]. rewrite sync_loop_join, Hstep, Hloop. reflexivity.
    + simpl. now rewrite Hlen.
    + intros [|i] it Hit.
      * injection Hit as <-. exists a. rewrite Nat.add_0_r. now split.
      * destruct (Hnth i it Hit) as [b [Hb Hbuilt]].
        exists b. split; [assumption|].
        now replace (idx + S i)%nat with (S idx + i)%nat by lia.
Qed.

(** C3. Syncing a JSON array of N well-formed records returns
    [inserted = N] and [skipped = 0] with no skip reason; the table
    then has N rows, the row at each position is the input record of
    that position, with its coordinates as floats, and every row of the
    table is the row of an input record: whatever the table held before
    the sync is gone. *)
Theorem sync_well_formed_batch (w : world) (file_path : string)
  (items : list pyval) :
  files w file_path = Json (PList items) ->
  Forall well_formed items ->
  snd (load w file_path)
  = [ ("inserted", PInt (Z.of_nat (List.length items)));
      ("skipped", PInt 0);
      ("skipped_details", PList []) ] /\
  List.length (table (fst (load w file_path))) = List.length items /\
  (forall i item,
     nth_error items i = Some item ->
     exists a, nth_error (table (fst (load w file_path))) i = Some a /\
               persisted_as i item a) /\
  (forall a,
     In a (table (fst (load w file_path))) ->
     exists i item, nth_error items i = Some item /\ persisted_as i item a).
Proof.
  intros Hfile Hwf.
  destruct (sync_loop_well_formed items Hwf 0) as [new [Hloop [Hlen Hnth]]].
  assert (Hins : forall a, In a new ->
            bind_float float_of_str (lat a) <> None /\
            bind_float float_of_str (lng a) <> None).
  { intros a Hin. apply In_nth_error in Hin. destruct Hin as [i Hi].
    destruct (nth_error items i) as [item|] eqn:Eitem.
    - destruct (Hnth i item Eitem) as [b [Hb Hbuilt]].
      assert (b = a) as -> by congruence.
      assert (Hw : well_formed item).
      { apply (proj1 (Forall_forall _ _) Hwf). eapply nth_error_In. exact Eitem. }
      destruct (insert_row_well_formed i item a Hw Hbuilt) as [r [Hr _]].
      unfold insert_row in Hr.
      destruct (bind_float float_of_str (lat a)); [|discriminate].
      destruct (bind_float float_of_str (lng a)); [|discriminate].
      split; discriminate.
    - apply nth_error_None in Eitem.
      assert (i < List.length new)%nat by (apply nth_error_Some; congruence).
      lia. }
  destruct (flush float_of_str 1 new) as [rows|] eqn:Eflush.
  2:{ apply flush_None in Eflush. destruct Eflush as [a [Hin Hbad]].
      destruct (Hins a Hin) as [H1 H2]. destruct Hbad; contradiction. }
  assert (Hsession : session_new (loop 0 items sync_start) = new)
    by now rewrite Hloop.
  rewrite <- Hsession in Eflush.
  rewrite (load_list _ _ _ _ _ _ w file_path items rows Hfile Eflush).
  cbn [fst snd]. rewrite Hloop.
  cbn [session_new inserted skipped skipped_details map].
  cbn [set_table table].
  rewrite Hsession in Eflush.
  assert (Hrow : forall i item,
            nth_error items i = Some item ->
            exists a, nth_error rows i = Some a /\ persisted_as i item a).
  { intros i item Hi. destruct (Hnth i item Hi) as [a [Ha Hbuilt]].
    assert (Hw : well_formed item).
    { apply (proj1 (Forall_forall _ _) Hwf). eapply nth_error_In. exact Hi. }
    destruct (insert_row_well_formed i item a Hw Hbuilt) as [r [Hr Hp]].
    exists r. rewrite (flush_nth float_of_str new 1 rows i Eflush), Ha.
    split; [|exact Hp].
    now replace (1 + Z.of_nat i)%Z with (Z.of_nat i + 1)%Z by lia. }
  split; [reflexivity|]. split; [|split].
  - rewrite (flush_length float_of_str new 1 rows Eflush). exact Hlen.
  - exact Hrow.
  - intros a Hin. apply In_nth_error in Hin. destruct Hin as [i Hi].
    assert (Hlt : (i < List.length items)%nat).
    { rewrite <- Hlen, <- (flush_length float_of_str new 1 rows Eflush).
      apply nth_error_Some. congruence. }
    destruct (nth_error items i) as [item|] eqn:Eitem.
    + exists i, item. split; [exact Eitem|].
      destruct (Hrow i item Eitem) as [b [Hb Hp]]. congruence.
    + apply nth_error_None in Eitem. lia.
Qed.




End BatchFacts.

(** *** The store sync on concrete batches *)

(** A world whose exchange file holds the array [items] and whose table
    holds two rows from an earlier sync. *)
Definition world_with (items : list pyval) : world :=
  {| cwd := "/srv";
     files := fun path =>
                if String.eqb path "alerts.json" then Json (PList items)
                else NoFile;
     table := [chennai; nowhere];
     last_error := {| error_time := None; error_message := None;
                      error_trace := None |} |}.

Definition rec_visakhapatnam : pyval :=
  PDict [ ("title", PStr "High Wave Alert");
          ("message", PStr "Rough sea along the Andhra Pradesh coast");
          ("severity", PStr "warning");
          ("source", PStr "INCOIS");
          ("lat", PFloat 17.7);
          ("lng", PFloat 83.3) ].

Definition rec_no_place : pyval :=
  PDict [ ("title", PStr "Ocean State Forecast");
          ("message", PStr "Moderate sea conditions") ].

Definition rec_bad_lat : list (string * pyval) :=
  [ ("title", PStr "Swell surge");
    ("message", PStr "Swell waves expected");
    ("lat", PStr "north");
    ("lng", PFloat 80.0) ].


(** The builtins and the clock of the examples: a [float] that parses
    no string, a [str] that is not needed, a clock that stands still. *)
Definition ex_float_of_str : string -> option R := fun _ => None.
Definition ex_repr : pyval -> string := fun _ => "?".
Definition ex_utcnow : nat -> datetime := fun _ => 0%Z.
Definition ex_commit_error : list Alert -> string :=
  fun _ => "commit failed".
Definition ex_load : world -> string -> world * list (string * pyval) :=
  load_alerts_from_json ex_float_of_str ex_repr ex_utcnow
    (fun _ => "now") (fun e => e) ex_commit_error.

Lemma sync_well_formed_batch_witness :
  snd (ex_load (world_with [rec_visakhapatnam; rec_no_place]) "alerts.json")
  = [ ("inserted", PInt 2); ("skipped", PInt 0); ("skipped_details", PList []) ].
Proof.
  apply (proj1 (sync_well_formed_batch ex_float_of_str ex_repr ex_utcnow
                  (fun _ => "now") (fun e => e) ex_commit_error
                  (world_with [rec_visakhapatnam; rec_no_place])
                  "alerts.json" [rec_visakhapatnam; rec_no_place] eq_refl
                  ltac:(repeat constructor;
                        eexists; (split; [reflexivity|]);
                        (split; [eexists; split; [reflexivity|discriminate]|]);
                        (split; [eexists; split; [reflexivity|discriminate]|]);
                        split; cbn; intros H; congruence))).
Defined.

Example sync_replaces_table :
  map title (table (fst (ex_load (world_with [rec_visakhapatnam; rec_no_place])
                           "alerts.json")))
  = [Some "High Wave Alert"; Some "Ocean State Forecast"] /\
  map id (table (fst (ex_load (world_with [rec_visakhapatnam; rec_no_place])
                        "alerts.json")))
  = [Some 1%Z; Some 2%Z].
Proof. split; reflexivity. Qed.



End Main.

(** ** Keeping the first occurrence of each key

    The scraper removes duplicates in two places, with a set of keys
    seen so far: the messages of the alerts in [fetch_incois_alerts]
    and, through [dict.fromkeys], the locations in
    [_extract_locations]. *)

Module FirstSeen.

Import PyStr.

Section KeepFirst.

Context {A : Type}.
Variable key : A -> string.

(** The loop with its two accumulators: [seen] holds the keys met so
    far, [kept] grows at its end. *)
Fixpoint keep_first (seen : list string) (kept l : list A) : list A :=
  match l with
  | [] => kept
  | x :: rest =>
      if mem (key x) seen then keep_first seen kept rest
      else keep_first (key x :: seen) (kept ++ [x]) rest
  end.

(** [seen] is the set of the keys of [kept]. *)
Definition tracks (seen : list string) (kept : list A) : Prop :=
  forall k, mem k seen = true <-> In k (map key kept).

Lemma tracks_nil : tracks [] [].
Proof. intros k. simpl. split; [discriminate | intros []]. Qed.

Lemma tracks_step (seen : list string) (kept : list A) (x : A) :
  tracks seen kept -> tracks (key x :: seen) (kept ++ [x]).
Proof.
  intros H k. rewrite map_app, in_app_iff. cbn [map In mem existsb].
  rewrite orb_true_iff, String.eqb_eq. fold (mem k seen). rewrite (H k).
  split.
  - intros [-> | Hk]; [right; now left | now left].
  - intros [Hk | [-> | []]]; [now right | now left].
Qed.

Lemma keep_first_keys (l : list A) (seen : list string) (kept : list A) :
  tracks seen kept ->
  NoDup (map key kept) ->
  NoDup (map key (keep_first seen kept l)) /\
  (forall k, In k (map key (keep_first seen kept l)) <->
             In k (map key kept) \/ In k (map key l)) /\
  (forall x, In x (keep_first seen kept l) -> In x kept \/ In x l).
Proof.
  revert seen kept. induction l as [|x rest IH]; intros seen kept Ht Hnd.
  - simpl. repeat split; auto; tauto.
  - cbn [keep_first]. destruct (mem (key x) seen) eqn:E.
    + destruct (IH seen kept Ht Hnd) as [H1 [H2 H3]].
      split; [assumption|]. split.
      * intros k. rewrite H2. cbn [map In]. split; [tauto|].
        intros [Hk | [<- | Hk]]; auto. left. now apply Ht.
      * intros y Hy. destruct (H3 y Hy); [now left | right; now right].
    + assert (Hnd' : NoDup (map key (kept ++ [x])%list)).
      { rewrite map_app. cbn [map]. apply NoDup_app; [assumption | | ].
        - constructor; [intros [] | constructor].
        - intros k Hk [<- | []]. apply Ht in Hk. congruence. }
      destruct (IH _ _ (tracks_step seen kept x Ht) Hnd') as [H1 [H2 H3]].
      split; [assumption|]. split.
      * intros k. rewrite H2, map_app, in_app_iff. cbn [map In]. tauto.
      * intros y Hy. destruct (H3 y Hy) as [Hin | Hin]; [|right; now right].
        apply in_app_iff in Hin. destruct Hin as [Hin | [<- | []]];
          [now left | right; now left].
Qed.

(** A list whose keys are all new and pairwise distinct is kept whole. *)
Lemma keep_first_distinct (l : list A) (seen : list string) (kept : list A) :
  tracks seen kept ->
  NoDup (map key (kept ++ l)%list) ->
  keep_first seen kept l = (kept ++ l)%list.
Proof.
  revert seen kept. induction l as [|x rest IH]; intros seen kept Ht Hnd.
  - simpl. now rewrite app_nil_r.
  - cbn [keep_first]. destruct (mem (key x) seen) eqn:E.
    + exfalso. apply Ht in E. rewrite map_app in Hnd. cbn [map] in Hnd.
      apply NoDup_remove_2 in Hnd. apply Hnd. apply in_app_iff. now left.
    + rewrite (IH (key x :: seen) (kept ++ [x])%list).
      * now rewrite <- app_assoc.
      * now apply tracks_step.
      * now rewrite <- app_assoc.
Qed.

End KeepFirst.

End FirstSeen.

(** ** incois_scraper.py: the text normalizer [_clean_text]

    The two regular expressions of the method are written out as the
    scans they stand for.  [<[^>]+>] matches at a [<] that is followed
    by one character or more other than [>] and then by a [>]; a match
    is replaced by one space and the scan goes on after it.  [\s+]
    matches a run of whitespace.  Characters are those of ASCII text;
    the two characters the method replaces afterwards, the no-break
    space and the zero-width space, are the byte sequences of their
    UTF-8 encodings. *)

Module Normalizer.

Import PyStr.

(** Whitespace of [\s] and of [str.strip]: the codes 9 to 13 and 28 to
    32. *)
Definition is_space (c : ascii) : bool :=
  let n := nat_of_ascii c in
  (((9 <=? n) && (n <=? 13)) || ((28 <=? n) && (n <=? 32)))%nat.

Definition is_lt (c : ascii) : bool := Ascii.eqb c "<"%char.
Definition is_gt (c : ascii) : bool := Ascii.eqb c ">"%char.

(** Some [>] occurs in [s]. *)
Fixpoint has_gt (s : string) : bool :=
  match s with
  | EmptyString => false
  | String c rest => is_gt c || has_gt rest
  end.

(** [s], read after a [<], goes on as [[^>]+>]. *)
Definition tag_closes (s : string) : bool :=
  match s with
  | EmptyString => false
  | String c rest => negb (is_gt c) && has_gt rest
  end.

(** [re.sub(r'<[^>]+>', ' ', s)]; [inside] is true while the scan is
    inside a match, up to its closing [>]. *)
Fixpoint sub_tags (inside : bool) (s : string) : string :=
  match s with
  | EmptyString => EmptyString
  | String c rest =>
      if inside then
        if is_gt c then sub_tags false rest else sub_tags true rest
      else if is_lt c && tag_closes rest then String " " (sub_tags true rest)
      else String c (sub_tags false rest)
  end.

(** [re.sub(r'\s+', ' ', s)]; [in_run] is true after a whitespace
    character. *)
Fixpoint sub_spaces (in_run : bool) (s : string) : string :=
  match s with
  | EmptyString => EmptyString
  | String c rest =>
      if is_space c then
        if in_run then sub_spaces true rest
        else String " " (sub_spaces true rest)
      else String c (sub_spaces false rest)
  end.

(** [s.replace(needle, repl)] for a [needle] that is not empty; [skip]
    counts the characters of a match still to pass. *)
Fixpoint replace_go (needle repl : string) (skip : nat) (s : string) : string :=
  match s with
  | EmptyString => EmptyString
  | String c rest =>
      match skip with
      | S k => replace_go needle repl k rest
      | O =>
          if startswith needle s then
            repl ++ replace_go needle repl (String.length needle - 1) rest
          else String c (replace_go needle repl 0 rest)
      end
  end.

Definition replace (needle repl s : string) : string :=
  replace_go needle repl 0 s.

(** The no-break space U+00A0 and the zero-width space U+200B. *)
Definition nbsp : string :=
  String (ascii_of_nat 194) (String (ascii_of_nat 160) EmptyString).
Definition zwsp : string :=
  String (ascii_of_nat 226)
    (String (ascii_of_nat 128) (String (ascii_of_nat 139) EmptyString)).

Fixpoint lstrip (s : string) : string :=
  match s with
  | EmptyString => EmptyString
  | String c rest => if is_space c then lstrip rest else s
  end.

Fixpoint rstrip (s : string) : string :=
  match s with
  | EmptyString => EmptyString
  | String c rest =>
      match rstrip rest with
      | EmptyString => if is_space c then EmptyString else String c EmptyString
      | r => String c r
      end
  end.

(** [s.strip()] *)
Definition strip (s : string) : string := rstrip (lstrip s).

Definition _clean_text (text : string) : string :=
  if negb (nonempty text) then EmptyString
  else
    let text := sub_tags false text in
    let text := sub_spaces false text in
    let text := replace zwsp EmptyString (replace nbsp " " text) in
    strip text.

Example clean_text_samples :
  _clean_text "<p>High   wave <b>alert</b></p>" = "High wave alert" /\
  _clean_text "<<a>b>" = "b>" /\
  _clean_text "<><a>x" = "<> x" /\
  _clean_text "a>b<c>d" = "a>b d" /\
  _clean_text "a<>b<c" = "a<>b<c" /\
  _clean_text "<a><b>" = EmptyString.
Proof. repeat split; reflexivity. Qed.

(** The tests on a text that the facts below are about. *)
Fixpoint all_chars (p : ascii -> bool) (s : string) : bool :=
  match s with
  | EmptyString => true
  | String c rest => p c && all_chars p rest
  end.

(** A whitespace character other than the space itself. *)
Definition odd_space (c : ascii) : bool :=
  is_space c && negb (Ascii.eqb c " "%char).

(** Two spaces in a row occur in [s]. *)
Fixpoint has_double_space (s : string) : bool :=
  match s with
  | EmptyString => false
  | String c rest =>
      (Ascii.eqb c " "%char && startswith " " rest) || has_double_space rest
  end.

(** A complete tag, a match of [<[^>]+>], occurs in [s]. *)
Fixpoint has_tag (s : string) : bool :=
  match s with
  | EmptyString => false
  | String c rest => (is_lt c && tag_closes rest) || has_tag rest
  end.

(** An ASCII character. *)
Definition is_ascii (c : ascii) : bool := (nat_of_ascii c <? 128)%nat.

Definition starts_with_space (s : string) : bool :=
  match s with
  | EmptyString => false
  | String c _ => is_space c
  end.

Fixpoint ends_with_space (s : string) : bool :=
  match s with
  | EmptyString => false
  | String c EmptyString => is_space c
  | String _ rest => ends_with_space rest
  end.

(** *** Characters of the result *)

Lemma all_chars_app (p : ascii -> bool) (a b : string) :
  all_chars p (a ++ b) = all_chars p a && all_chars p b.
Proof.
  induction a as [|c a IH]; simpl; [reflexivity|].
  now rewrite IH, andb_assoc.
Qed.

Lemma sub_tags_chars (p : ascii -> bool) (s : string) (inside : bool) :
  p " "%char = true -> all_chars p s = true ->
  all_chars p (sub_tags inside s) = true.
Proof.
  intros Hsp. revert inside. induction s as [|c s IH]; intros inside H.
  - reflexivity.
  - simpl in H. apply andb_true_iff in H. destruct H as [Hc Hs].
    cbn [sub_tags]. destruct inside.
    + destruct (is_gt c); now apply IH.
    + destruct (is_lt c && tag_closes s); simpl.
      * now rewrite Hsp, IH.
      * now rewrite Hc, IH.
Qed.

Lemma sub_spaces_chars (p : ascii -> bool) (s : string) (in_run : bool) :
  p " "%char = true -> all_chars p s = true ->
  all_chars p (sub_spaces in_run s) = true.
Proof.
  intros Hsp. revert in_run. induction s as [|c s IH]; intros in_run H.
  - reflexivity.
  - simpl in H. apply andb_true_iff in H. destruct H as [Hc Hs].
    cbn [sub_spaces]. destruct (is_space c).
    + destruct in_run; simpl; [now apply IH | now rewrite Hsp, IH].
    + simpl. now rewrite Hc, IH.
Qed.

(** After [\s+] is replaced, the only whitespace is the space. *)
Lemma sub_spaces_no_odd (s : string) (in_run : bool) :
  all_chars (fun c => negb (odd_space c)) (sub_spaces in_run s) = true.
Proof.
  revert in_run. induction s as [|c s IH]; intros in_run; [reflexivity|].
  cbn [sub_spaces]. destruct (is_space c) eqn:E.
  - destruct in_run; [apply IH|]. simpl. apply IH.
  - simpl. unfold odd_space at 1. rewrite E. simpl. apply IH.
Qed.

Lemma replace_go_chars (p : ascii -> bool) (needle repl s : string) (skip : nat) :
  all_chars p repl = true -> all_chars p s = true ->
  all_chars p (replace_go needle repl skip s) = true.
Proof.
  intros Hr. revert skip. induction s as [|c s IH]; intros skip H.
  - reflexivity.
  - simpl in H. apply andb_true_iff in H. destruct H as [Hc Hs].
    cbn [replace_go]. destruct skip as [|k]; [|now apply IH].
    destruct (startswith needle (String c s)).
    + now rewrite all_chars_app, Hr, IH.
    + simpl. now rewrite Hc, IH.
Qed.

Lemma lstrip_chars (p : ascii -> bool) (s : string) :
  all_chars p s = true -> all_chars p (lstrip s) = true.
Proof.
  induction s as [|c s IH]; intros H; [reflexivity|].
  cbn [lstrip]. destruct (is_space c); [|assumption].
  simpl in H. apply andb_true_iff in H. now apply IH.
Qed.

Lemma rstrip_chars (p : ascii -> bool) (s : string) :
  all_chars p s = true -> all_chars p (rstrip s) = true.
Proof.
  induction s as [|c s IH]; intros H; [reflexivity|].
  simpl in H. apply andb_true_iff in H. destruct H as [Hc Hs].
  specialize (IH Hs). cbn [rstrip]. destruct (rstrip s) as [|d r].
  - destruct (is_space c); simpl; [reflexivity | now rewrite Hc].
  - cbn [all_chars] in *. now rewrite Hc.
Qed.

Lemma strip_chars (p : ascii -> bool) (s : string) :
  all_chars p s = true -> all_chars p (strip s) = true.
Proof. intros H. unfold strip. now apply rstrip_chars, lstrip_chars. Qed.

(** *** The two ends of the result *)

Lemma lstrip_starts (s : string) : starts_with_space (lstrip s) = false.
Proof.
  induction s as [|c s IH]; [reflexivity|].
  cbn [lstrip]. destruct (is_space c) eqn:E; [assumption | simpl; exact E].
Qed.

Lemma rstrip_starts (s : string) :
  starts_with_space s = false -> starts_with_space (rstrip s) = false.
Proof.
  destruct s as [|c s]; [reflexivity|]. cbn [starts_with_space rstrip].
  intros E. destruct (rstrip s); [now rewrite E | exact E].
Qed.

Lemma rstrip_ends (s : string) : ends_with_space (rstrip s) = false.
Proof.
  induction s as [|c s IH]; [reflexivity|].
  cbn [rstrip]. destruct (rstrip s) as [|d r] eqn:E.
  - destruct (is_space c) eqn:Ec; [reflexivity | simpl; exact Ec].
  - exact IH.
Qed.

Lemma strip_ends (s : string) :
  starts_with_space (strip s) = false /\ ends_with_space (strip s) = false.
Proof.
  unfold strip. split; [apply rstrip_starts, lstrip_starts | apply rstrip_ends].
Qed.

(** Cleaning an ASCII text gives an ASCII text. *)
Lemma clean_text_keeps_ascii (text : string) :
  all_chars is_ascii text = true ->
  all_chars is_ascii (_clean_text text) = true.
Proof.
  intros H. unfold _clean_text.
  destruct (negb (nonempty text)); [reflexivity|]. cbv zeta.
  apply strip_chars. unfold replace.
  apply replace_go_chars; [reflexivity|].
  apply replace_go_chars; [reflexivity|].
  apply sub_spaces_chars; [reflexivity|].
  apply sub_tags_chars; [reflexivity | exact H].
Qed.

(** X1. For ASCII text, a cleaned text is ASCII text that does not
    start or end with whitespace, and the only whitespace character in
    it is the space: tabs, line breaks and the other separators are
    gone. An empty text stays empty. *)
Theorem clean_text_whitespace (text : string) :
  all_chars is_ascii text = true ->
  all_chars is_ascii (_clean_text text) = true /\
  starts_with_space (_clean_text text) = false /\
  ends_with_space (_clean_text text) = false /\
  all_chars (fun c => negb (odd_space c)) (_clean_text text) = true /\
  (text = EmptyString -> _clean_text text = EmptyString).
Proof.
  intros Hascii. split; [now apply clean_text_keeps_ascii|].
  unfold _clean_text. destruct (negb (nonempty text)) eqn:E.
  - repeat split; reflexivity.
  - cbv zeta. split; [apply strip_ends|]. split; [apply strip_ends|]. split.
    + apply strip_chars. unfold replace.
      apply replace_go_chars; [reflexivity|].
      apply replace_go_chars; [reflexivity|].
      apply sub_spaces_no_odd.
    + intros ->. discriminate.
Qed.

(** A text with a tab, spaces at both ends and a tag. *)
Lemma clean_text_whitespace_witness :
  all_chars (fun c => negb (odd_space c))
    (_clean_text "  <b>Cyclone</b>	warning  ") = true /\
  starts_with_space (_clean_text "  <b>Cyclone</b>	warning  ") = false /\
  ends_with_space (_clean_text "  <b>Cyclone</b>	warning  ") = false.
Proof.
  destruct (clean_text_whitespace "  <b>Cyclone</b>	warning  " eq_refl)
    as [_ [H1 [H2 [H3 _]]]].
  now repeat split.
Defined.

(** *** No tag is left *)

Lemma tag_closes_has_gt (s : string) : tag_closes s = true -> has_gt s = true.
Proof.
  destruct s as [|c s]; [discriminate|]. simpl.
  intros H. apply andb_true_iff in H. destruct H as [_ H].
  rewrite H. apply orb_true_r.
Qed.

Lemma sub_tags_has_gt (s : string) (inside : bool) :
  has_gt s = false -> has_gt (sub_tags inside s) = false.
Proof.
  revert inside. induction s as [|c s IH]; intros inside H; [reflexivity|].
  simpl in H. apply orb_false_iff in H. destruct H as [Hc Hs].
  cbn [sub_tags]. rewrite Hc. destruct inside; [now apply IH|].
  destruct (is_lt c && tag_closes s); simpl; [now apply IH|].
  rewrite Hc. now apply IH.
Qed.

(** After its first character, the output of the scan closes a tag
    only where the input did. *)
Lemma sub_tags_closes (s : string) :
  tag_closes s = false -> tag_closes (sub_tags false s) = false.
Proof.
  destruct s as [|c s]; [reflexivity|]. cbn [tag_closes sub_tags].
  intros H. destruct (is_gt c) eqn:Egt.
  - assert (Hlt : is_lt c = false).
    { unfold is_gt, is_lt in *. apply Ascii.eqb_eq in Egt. now subst c. }
    rewrite Hlt. simpl. now rewrite Egt.
  - simpl in H.
    assert (Hno : has_gt (String c s) = false) by (simpl; now rewrite Egt, H).
    pose proof (sub_tags_has_gt (String c s) false Hno) as Hout.
    cbn [sub_tags] in Hout.
    destruct (is_lt c && tag_closes s).
    + simpl in *. exact Hout.
    + simpl in *. rewrite Egt in *. simpl in *. exact Hout.
Qed.

Lemma sub_tags_no_tag (s : string) (inside : bool) :
  has_tag (sub_tags inside s) = false.
Proof.
  revert inside. induction s as [|c s IH]; intros inside; [reflexivity|].
  cbn [sub_tags]. destruct inside.
  - destruct (is_gt c); apply IH.
  - destruct (is_lt c) eqn:Elt; cbn [andb].
    + destruct (tag_closes s) eqn:Ecl.
      * cbn [has_tag]. rewrite IH. reflexivity.
      * cbn [has_tag]. rewrite Elt, (sub_tags_closes s Ecl), IH. reflexivity.
    + cbn [has_tag]. rewrite Elt, IH. reflexivity.
Qed.

(** A character that is neither [<] nor [>]. *)
Definition plain (c : ascii) : bool := negb (is_lt c) && negb (is_gt c).

(** [s'] is [s] with some plain characters removed and some changed
    into other plain characters. *)
Inductive soft : string -> string -> Prop :=
| soft_nil : soft EmptyString EmptyString
| soft_keep (c : ascii) (s s' : string) :
    soft s s' -> soft (String c s) (String c s')
| soft_drop (c : ascii) (s s' : string) :
    plain c = true -> soft s s' -> soft (String c s) s'
| soft_swap (c d : ascii) (s s' : string) :
    plain c = true -> plain d = true -> soft s s' ->
    soft (String c s) (String d s').

Lemma soft_refl (s : string) : soft s s.
Proof. induction s; [constructor | now constructor]. Qed.

Lemma plain_not_gt (c : ascii) : plain c = true -> is_gt c = false.
Proof. unfold plain. destruct (is_gt c); [now rewrite andb_false_r | reflexivity]. Qed.

Lemma plain_not_lt (c : ascii) : plain c = true -> is_lt c = false.
Proof. unfold plain. now destruct (is_lt c). Qed.

Lemma soft_has_gt (s s' : string) :
  soft s s' -> has_gt s = false -> has_gt s' = false.
Proof.
  induction 1 as [|c s s' _ IH|c s s' Hc _ IH|c d s s' Hc Hd _ IH];
    cbn [has_gt]; intros H.
  - reflexivity.
  - apply orb_false_iff in H. destruct H as [H1 H2]. now rewrite H1, IH.
  - apply orb_false_iff in H. now apply IH.
  - apply orb_false_iff in H. rewrite (plain_not_gt d Hd). now apply IH.
Qed.

Lemma soft_tag_closes (s s' : string) :
  soft s s' -> tag_closes s = false -> tag_closes s' = false.
Proof.
  intros Hsoft H.
  destruct (tag_closes s') eqn:E; [|reflexivity]. exfalso.
  destruct Hsoft as [|c s s' Hs|c s s' Hc Hs|c d s s' Hc Hd Hs].
  - discriminate.
  - cbn [tag_closes] in H, E. destruct (is_gt c); [discriminate|].
    cbn [negb andb] in H, E. now rewrite (soft_has_gt _ _ Hs H) in E.
  - cbn [tag_closes] in H. rewrite (plain_not_gt c Hc) in H.
    cbn [negb andb] in H. apply tag_closes_has_gt in E.
    now rewrite (soft_has_gt _ _ Hs H) in E.
  - cbn [tag_closes] in H, E.
    rewrite (plain_not_gt c Hc) in H. rewrite (plain_not_gt d Hd) in E.
    cbn [negb andb] in H, E. now rewrite (soft_has_gt _ _ Hs H) in E.
Qed.

Lemma soft_no_tag (s s' : string) :
  soft s s' -> has_tag s = false -> has_tag s' = false.
Proof.
  induction 1 as [|c s s' Hs IH|c s s' Hc _ IH|c d s s' Hc Hd _ IH];
    cbn [has_tag]; intros H.
  - reflexivity.
  - apply orb_false_iff in H. destruct H as [H1 H2]. rewrite (IH H2).
    destruct (is_lt c); [|reflexivity]. cbn [andb] in *.
    now rewrite (soft_tag_closes _ _ Hs H1).
  - apply orb_false_iff in H. now apply IH.
  - apply orb_false_iff in H. rewrite (plain_not_lt d Hd). now apply IH.
Qed.

Lemma space_plain (c : ascii) : is_space c = true -> plain c = true.
Proof.
  unfold is_space, plain, is_lt, is_gt. intros H.
  destruct (Ascii.eqb c "<") eqn:E1; [apply Ascii.eqb_eq in E1; now subst c|].
  destruct (Ascii.eqb c ">") eqn:E2; [apply Ascii.eqb_eq in E2; now subst c|].
  reflexivity.
Qed.

Lemma sub_spaces_soft (s : string) (in_run : bool) :
  soft s (sub_spaces in_run s).
Proof.
  revert in_run. induction s as [|c s IH]; intros in_run; [constructor|].
  cbn [sub_spaces]. destruct (is_space c) eqn:E.
  - destruct in_run.
    + apply soft_drop; [now apply space_plain | apply IH].
    + apply soft_swap; [now apply space_plain | reflexivity | apply IH].
  - apply soft_keep, IH.
Qed.

Lemma lstrip_soft (s : string) : soft s (lstrip s).
Proof.
  induction s as [|c s IH]; [constructor|]. cbn [lstrip].
  destruct (is_space c) eqn:E.
  - apply soft_drop; [now apply space_plain | exact IH].
  - apply soft_refl.
Qed.

Lemma rstrip_soft (s : string) : soft s (rstrip s).
Proof.
  induction s as [|c s IH]; [constructor|]. cbn [rstrip].
  destruct (rstrip s) as [|d r].
  - destruct (is_space c) eqn:E.
    + apply soft_drop; [now apply space_plain | exact IH].
    + apply soft_keep, IH.
  - apply soft_keep, IH.
Qed.

Lemma startswith_slice (p s : string) :
  startswith p s = true -> slice_to (String.length p) s = p.
Proof.
  revert s. induction p as [|a p IH]; intros s H; [reflexivity|].
  destruct s as [|b s]; [discriminate|]. simpl in H.
  apply andb_true_iff in H. destruct H as [Hab Hp].
  apply Ascii.eqb_eq in Hab. subst b. simpl. now rewrite IH.
Qed.

(** Replacing a needle of plain characters by nothing or by one plain
    character only removes and changes plain characters. *)
Lemma replace_go_soft (n0 : ascii) (n' repl : string) :
  all_chars plain (String n0 n') = true ->
  repl = EmptyString \/ (exists d, repl = String d EmptyString /\ plain d = true) ->
  forall (s : string) (skip : nat),
    all_chars plain (slice_to skip s) = true ->
    soft s (replace_go (String n0 n') repl skip s).
Proof.
  intros Hn Hr. induction s as [|c s IH]; intros skip Hskip; [constructor|].
  cbn [replace_go]. destruct skip as [|k].
  - destruct (startswith (String n0 n') (String c s)) eqn:E.
    + pose proof (startswith_slice _ _ E) as Hslice.
      cbn [startswith] in E. apply andb_true_iff in E. destruct E as [Ec En].
      apply Ascii.eqb_eq in Ec. subst c.
      cbn [all_chars] in Hn. apply andb_true_iff in Hn. destruct Hn as [H0 Hn'].
      cbn [String.length]. rewrite Nat.sub_succ, Nat.sub_0_r.
      assert (Hrest : soft s (replace_go (String n0 n') repl (String.length n') s)).
      { apply IH. now rewrite (startswith_slice _ _ En). }
      destruct Hr as [-> | [d [-> Hd]]].
      * simpl. now apply soft_drop.
      * simpl. now apply soft_swap.
    + apply soft_keep, IH. reflexivity.
  - cbn [slice_to all_chars] in Hskip. apply andb_true_iff in Hskip.
    destruct Hskip as [Hc Hk]. apply soft_drop; [assumption | now apply IH].
Qed.

(** X2. No complete tag is left in a cleaned text: no [<] of it is
    followed by one character or more other than [>] and then by a
    [>]. *)
Theorem clean_text_no_tag (text : string) :
  has_tag (_clean_text text) = false.
Proof.
  unfold _clean_text. destruct (negb (nonempty text)); [reflexivity|].
  cbv zeta. unfold strip, replace.
  apply (soft_no_tag _ _ (rstrip_soft _)).
  apply (soft_no_tag _ _ (lstrip_soft _)).
  refine (soft_no_tag _ _ (replace_go_soft _ _ _ _ _ _ 0 _) _);
    [reflexivity | now left | reflexivity |].
  refine (soft_no_tag _ _ (replace_go_soft _ _ _ _ _ _ 0 _) _);
    [reflexivity | right; now exists " "%char | reflexivity |].
  apply (soft_no_tag _ _ (sub_spaces_soft _ _)).
  apply sub_tags_no_tag.
Qed.

(** *** ASCII text *)

Lemma replace_go_ascii (n0 : ascii) (n' repl s : string) :
  is_ascii n0 = false -> all_chars is_ascii s = true ->
  replace_go (String n0 n') repl 0 s = s.
Proof.
  intros Hn. induction s as [|c s IH]; intros H; [reflexivity|].
  cbn [all_chars] in H. apply andb_true_iff in H. destruct H as [Hc Hs].
  cbn [replace_go startswith].
  destruct (Ascii.eqb n0 c) eqn:E.
  - apply Ascii.eqb_eq in E. subst c. congruence.
  - cbn [andb]. now rewrite IH.
Qed.

(** On ASCII text the two replacements find nothing. *)
Lemma clean_text_ascii (text : string) :
  all_chars is_ascii text = true ->
  _clean_text text = strip (sub_spaces false (sub_tags false text)).
Proof.
  intros H. unfold _clean_text. destruct text as [|c text]; [reflexivity|].
  cbn [nonempty negb]. cbv zeta. unfold replace, nbsp, zwsp.
  assert (Ha : all_chars is_ascii
                 (sub_spaces false (sub_tags false (String c text))) = true).
  { apply sub_spaces_chars; [reflexivity|].
    apply sub_tags_chars; [reflexivity | assumption]. }
  rewrite (replace_go_ascii (ascii_of_nat 194) _ " " _ eq_refl Ha).
  now rewrite (replace_go_ascii (ascii_of_nat 226) _ EmptyString _ eq_refl Ha).
Qed.

Lemma space_is_space (c : ascii) :
  is_space c = false -> Ascii.eqb c " " = false.
Proof.
  intros H. destruct (Ascii.eqb c " ") eqn:E; [|reflexivity].
  apply Ascii.eqb_eq in E. now subst c.
Qed.

Lemma sub_spaces_single (s : string) (in_run : bool) :
  has_double_space (sub_spaces in_run s) = false /\
  (in_run = true -> startswith " " (sub_spaces in_run s) = false).
Proof.
  revert in_run. induction s as [|c s IH]; intros in_run.
  - split; reflexivity.
  - cbn [sub_spaces]. destruct (is_space c) eqn:E.
    + destruct in_run.
      * apply IH.
      * destruct (IH true) as [H1 H2]. split; [|discriminate].
        cbn [has_double_space]. now rewrite H1, (H2 eq_refl).
    + destruct (IH false) as [H1 _]. split.
      * cbn [has_double_space]. now rewrite H1, (space_is_space c E).
      * intros _. cbn [startswith].
        rewrite Ascii.eqb_sym, (space_is_space c E). reflexivity.
Qed.

Lemma lstrip_single (s : string) :
  has_double_space s = false -> has_double_space (lstrip s) = false.
Proof.
  induction s as [|c s IH]; intros H; [reflexivity|].
  cbn [lstrip]. destruct (is_space c); [|assumption].
  cbn [has_double_space] in H. apply orb_false_iff in H. now apply IH.
Qed.

Lemma rstrip_head (s : string) (d : ascii) (r : string) :
  rstrip s = String d r -> exists s', s = String d s'.
Proof.
  destruct s as [|c s]; [discriminate|]. cbn [rstrip].
  destruct (rstrip s).
  - destruct (is_space c); [discriminate|]. intros H. injection H as -> _.
    now exists s.
  - intros H. injection H as -> _. now exists s.
Qed.

Lemma rstrip_single (s : string) :
  has_double_space s = false -> has_double_space (rstrip s) = false.
Proof.
  induction s as [|c s IH]; intros H; [reflexivity|].
  cbn [has_double_space] in H. apply orb_false_iff in H. destruct H as [H1 H2].
  specialize (IH H2). cbn [rstrip]. destruct (rstrip s) as [|d r] eqn:E.
  - destruct (is_space c); simpl; [reflexivity | now rewrite andb_false_r].
  - cbn [has_double_space] in *. rewrite IH, orb_false_r.
    destruct (rstrip_head s d r E) as [s' ->].
    cbn [startswith] in *. destruct (Ascii.eqb c " "); [|reflexivity].
    cbn [andb] in *. apply andb_false_iff in H1.
    destruct H1 as [H1 | H1]; [now rewrite H1 | discriminate].
Qed.

(** X3. In the cleaned form of an ASCII text every run of whitespace
    has become one space: no two spaces follow each other. *)
Theorem clean_text_single_spaces (text : string) :
  all_chars is_ascii text = true ->
  has_double_space (_clean_text text) = false.
Proof.
  intros H. rewrite (clean_text_ascii text H). unfold strip.
  apply rstrip_single, lstrip_single, sub_spaces_single.
Qed.

Lemma clean_text_single_spaces_witness :
  has_double_space (_clean_text "<p>High   wave <b>alert</b>  now</p>") = false.
Proof.
  apply (clean_text_single_spaces "<p>High   wave <b>alert</b>  now</p>").
  reflexivity.
Defined.

(** *** Cleaning twice *)

Lemma sub_tags_fix (s : string) : has_tag s = false -> sub_tags false s = s.
Proof.
  induction s as [|c s IH]; intros H; [reflexivity|].
  cbn [has_tag] in H. apply orb_false_iff in H. destruct H as [H1 H2].
  cbn [sub_tags]. now rewrite H1, IH.
Qed.

Lemma sub_spaces_fix (s : string) :
  all_chars (fun c => negb (odd_space c)) s = true ->
  has_double_space s = false ->
  forall in_run : bool,
    (in_run = true -> starts_with_space s = false) ->
    sub_spaces in_run s = s.
Proof.
  induction s as [|c s IH]; intros Hodd Hdbl in_run Hrun; [reflexivity|].
  cbn [all_chars] in Hodd. apply andb_true_iff in Hodd. destruct Hodd as [Hc Hs].
  cbn [has_double_space] in Hdbl. apply orb_false_iff in Hdbl.
  destruct Hdbl as [Hd1 Hd2].
  cbn [sub_spaces]. destruct (is_space c) eqn:E.
  - destruct in_run; [specialize (Hrun eq_refl); simpl in Hrun; congruence|].
    unfold odd_space in Hc. rewrite E in Hc. cbn [andb] in Hc.
    apply negb_true_iff, negb_false_iff, Ascii.eqb_eq in Hc. subst c.
    rewrite (IH Hs Hd2 true); [reflexivity|]. intros _.
    rewrite Ascii.eqb_refl in Hd1. cbn [andb] in Hd1.
    destruct s as [|d s]; [reflexivity|].
    cbn [starts_with_space startswith] in *.
    apply andb_false_iff in Hd1. destruct Hd1 as [Hd1 | Hd1]; [|discriminate].
    apply andb_true_iff in Hs. destruct Hs as [Hdc _].
    unfold odd_space in Hdc. destruct (is_space d); [|reflexivity].
    cbn [andb] in Hdc. apply negb_true_iff, negb_false_iff in Hdc.
    rewrite Ascii.eqb_sym in Hdc. congruence.
  - now rewrite (IH Hs Hd2 false).
Qed.

Lemma lstrip_fix (s : string) : starts_with_space s = false -> lstrip s = s.
Proof. destruct s as [|c s]; [reflexivity|]. simpl. now intros ->. Qed.

Lemma rstrip_fix (s : string) : ends_with_space s = false -> rstrip s = s.
Proof.
  induction s as [|c s IH]; intros H; [reflexivity|].
  cbn [rstrip]. destruct s as [|d s].
  - simpl in *. now rewrite H.
  - rewrite (IH H). reflexivity.
Qed.

(** X4. Cleaning an ASCII text a second time changes nothing. *)
Theorem clean_text_idempotent (text : string) :
  all_chars is_ascii text = true ->
  _clean_text (_clean_text text) = _clean_text text.
Proof.
  intros H. rewrite (clean_text_ascii text H).
  set (r := strip (sub_spaces false (sub_tags false text))).
  assert (Hascii : all_chars is_ascii r = true).
  { apply strip_chars, sub_spaces_chars; [reflexivity|].
    apply sub_tags_chars; [reflexivity | assumption]. }
  assert (Htag : has_tag r = false).
  { unfold r, strip.
    apply (soft_no_tag _ _ (rstrip_soft _)).
    apply (soft_no_tag _ _ (lstrip_soft _)).
    apply (soft_no_tag _ _ (sub_spaces_soft _ _)).
    apply sub_tags_no_tag. }
  assert (Hodd : all_chars (fun c => negb (odd_space c)) r = true)
    by apply strip_chars, sub_spaces_no_odd.
  assert (Hdbl : has_double_space r = false)
    by apply rstrip_single, lstrip_single, sub_spaces_single.
  destruct (strip_ends (sub_spaces false (sub_tags false text)))
    as [Hstart Hend].
  fold r in Hstart, Hend.
  rewrite (clean_text_ascii r Hascii), (sub_tags_fix r Htag).
  rewrite (sub_spaces_fix r Hodd Hdbl false) by discriminate.
  unfold strip. now rewrite (lstrip_fix r Hstart), (rstrip_fix r Hend).
Qed.

Lemma clean_text_idempotent_witness :
  _clean_text (_clean_text "  <b>Cyclone</b>	warning  ") = "Cyclone warning".
Proof.
  rewrite (clean_text_idempotent "  <b>Cyclone</b>	warning  " eq_refl).
  reflexivity.
Defined.

End Normalizer.

(** ** incois_scraper.py: locations and the building of alerts *)

Module Builder.

Import PyStr PyVal Scraper Normalizer FirstSeen.

(** [self.location_patterns] *)
Definition location_patterns : list string :=
  [ "\b([A-Z][a-z]+ (?:coast|Coast))\b";
    "\b(Bay of Bengal|Arabian Sea|Indian Ocean)\b";
    "\b([A-Z][a-z]+(?:\s+[A-Z][a-z]+)*)\s+(?:district|District)\b";
    "\b(Andhra Pradesh|Tamil Nadu|Odisha|West Bengal|Karnataka|Kerala|Gujarat|Maharashtra|Goa)\b";
    "\b(Chennai|Mumbai|Kolkata|Visakhapatnam|Cochin|Mangalore|Paradip|Haldia)\b";
    "\b([A-Z][a-z]+(?:\s+[A-Z][a-z]+)*)\s+(?:port|Port|harbour|Harbour)\b";
    "(?:along|off)\s+([A-Z][a-z]+(?:\s+[A-Z][a-z]+)*)\s+coast" ].

(** The keywords that make a paragraph of a page a candidate. *)
Definition alert_keywords : list string :=
  [ "tsunami"; "cyclone"; "warning"; "alert"; "forecast"; "bulletin";
    "depression"; "storm"; "wave"; "surge"; "advisory"; "caution" ].

(** An entry of a parsed feed: its fields, all strings. *)
Definition entry : Type := list (string * string).

(** [entry.get(key, '')] *)
Fixpoint entry_get (e : entry) (key : string) : string :=
  match e with
  | [] => EmptyString
  | (k, v) :: rest => if String.eqb k key then v else entry_get rest key
  end.

(** What the scraper takes from a page it could load: the lines of
    [soup.get_text()] and, for the selectors in turn, the text of the
    elements they select. *)
Record page : Type := mkPage {
  paragraphs : list string;
  selected : list string
}.

(** [title] with the marker of its severity. *)
Definition decorate (severity title : string) : string :=
  if String.eqb severity "emergency" then "🚨 " ++ title
  else if String.eqb severity "warning" then "⚠️ " ++ title
  else title.

(** A character of [[.!?]]. *)
Definition is_stop (c : ascii) : bool :=
  Ascii.eqb c "."%char || Ascii.eqb c "!"%char || Ascii.eqb c "?"%char.

Definition starts_with_stop (s : string) : bool :=
  match s with
  | EmptyString => false
  | String c _ => is_stop c
  end.

(** [re.split(r'[.!?]+', s)]: the pieces of [s] between the runs of
    [.], [!] and [?]. *)
Fixpoint split_sentences (s : string) : list string :=
  match s with
  | EmptyString => [EmptyString]
  | String c rest =>
      if is_stop c then
        if starts_with_stop rest then split_sentences rest
        else EmptyString :: split_sentences rest
      else
        match split_sentences rest with
        | first :: others => String c first :: others
        | [] => [String c EmptyString]
        end
  end.

Example split_sentences_samples :
  split_sentences "Hello world. Next! x" = ["Hello world"; " Next"; " x"] /\
  split_sentences "...abc" = [EmptyString; "abc"] /\
  split_sentences "abc." = ["abc"; EmptyString] /\
  split_sentences "none" = ["none"] /\
  split_sentences EmptyString = [EmptyString].
Proof. repeat split; reflexivity. Qed.

Section Build.

(** [[m.group(1) for m in re.finditer(pattern, text, re.IGNORECASE)]]:
    the regular expression engine is taken as given. *)
Variable finditer : string -> string -> list string.

(** The external lookup service. *)
Variable geocode : string -> geocode_reply.

(** The answer to [self.session.get(url)]: [None] when the request
    raises or the status is not 200, else the entries of the parsed
    feed, or the texts of the parsed page. *)
Variable http_feed : string -> option (list entry).
Variable http_page : string -> option page.

(** The clock reading, as an ISO string, when an alert is built with
    [n] alerts already in the list of the call. *)
Variable now : nat -> string.

(** The loop over the matches of one pattern. *)
Fixpoint matches_loop (matches locations : list string) : list string :=
  match matches with
  | [] => locations
  | m :: rest =>
      let location := strip m in
      if nonempty location && (2 <? String.length location)%nat then
        matches_loop rest (locations ++ [location])
      else matches_loop rest locations
  end.

(** The loop over the patterns. *)
Fixpoint patterns_loop (patterns : list string) (text : string)
  (locations : list string) : list string :=
  match patterns with
  | [] => locations
  | pattern :: rest =>
      patterns_loop rest text (matches_loop (finditer pattern text) locations)
  end.

(** [_extract_locations], with the patterns of the object as an
    argument; its last line is [list(dict.fromkeys(locations))]. *)
Definition _extract_locations (patterns : list string) (text : string)
  : list string :=
  keep_first (fun location => location) [] [] (patterns_loop patterns text []).

(** The coordinate of the first location, if there is a location and the
    geocoder finds it: [lat, lng = coords]. *)
Definition locate (locations : list string) : option R * option R :=
  match locations with
  | [] => (None, None)
  | first :: _ =>
      match fst (_geocode_location geocode first) with
      | Some (latitude, longitude) => (Some latitude, Some longitude)
      | None => (None, None)
      end
  end.

(** The body of the loop over the entries of a feed; [None] when the
    entry has neither a title nor a description. *)
Definition rss_entry (self : INCOISScraper) (n : nat) (e : entry) : option Alert :=
  let title_ := _clean_text (entry_get e "title") in
  let description :=
    _clean_text (if nonempty (entry_get e "description")
                 then entry_get e "description"
                 else entry_get e "summary") in
  if nonempty title_ || nonempty description then
    let full_text := title_ ++ " " ++ description in
    let severity_ := _determine_severity self full_text in
    let locations := _extract_locations location_patterns full_text in
    let (lat_, lng_) := locate locations in
    Some {| title := decorate severity_ title_;
            message := if nonempty description then description else title_;
            severity := severity_;
            source := "INCOIS";
            lat := lat_;
            lng := lng_;
            time := now n |}
  else None.

Fixpoint entries_loop (self : INCOISScraper) (entries : list entry)
  (alerts : list Alert) : list Alert :=
  match entries with
  | [] => alerts
  | e :: rest =>
      match rss_entry self (List.length alerts) e with
      | Some alert => entries_loop self rest (alerts ++ [alert])
      | None => entries_loop self rest alerts
      end
  end.

Definition _try_rss_feed (self : INCOISScraper) (feed_url : string) : list Alert :=
  match http_feed feed_url with
  | None => []
  | Some entries => entries_loop self entries []
  end.

(** Method 1 of [_scrape_webpage]: the paragraphs of more than 50
    characters with one of the keywords. *)
Fixpoint paragraphs_loop (paras potential : list string) : list string :=
  match paras with
  | [] => potential
  | para :: rest =>
      let para := strip para in
      if (50 <? String.length para)%nat
         && existsb (fun keyword => str_in keyword (lower para)) alert_keywords
      then paragraphs_loop rest (potential ++ [para])
      else paragraphs_loop rest potential
  end.

(** Method 2: the selected elements of more than 30 characters. *)
Fixpoint selected_loop (elems potential : list string) : list string :=
  match elems with
  | [] => potential
  | elem :: rest =>
      let text := _clean_text elem in
      if (30 <? String.length text)%nat
      then selected_loop rest (potential ++ [text])
      else selected_loop rest potential
  end.

(** The alert made of one text of a page. *)
Definition page_alert (self : INCOISScraper) (n : nat) (content : string) : Alert :=
  let sentences := split_sentences content in
  let title_ :=
    match sentences with
    | first :: _ => slice_to 100 first
    | [] => slice_to 50 content
    end in
  let severity_ := _determine_severity self content in
  let locations := _extract_locations location_patterns content in
  let (lat_, lng_) := locate locations in
  {| title := decorate severity_ title_;
     message := content;
     severity := severity_;
     source := "INCOIS";
     lat := lat_;
     lng := lng_;
     time := now n |}.

(** The loop over the candidate texts, with the set [seen_content] and
    the limit of ten alerts for a page. *)
Fixpoint process_loop (self : INCOISScraper) (potential seen_content : list string)
  (alerts : list Alert) : list Alert :=
  match potential with
  | [] => alerts
  | content :: rest =>
      let content := _clean_text content in
      if negb (nonempty content) || (String.length content <? 30)%nat
         || mem content seen_content
      then process_loop self rest seen_content alerts
      else
        let alerts := (alerts ++ [page_alert self (List.length alerts) content])%list in
        if (10 <=? List.length alerts)%nat then alerts
        else process_loop self rest (content :: seen_content) alerts
  end.

Definition _scrape_webpage (self : INCOISScraper) (url : string) : list Alert :=
  match http_page url with
  | None => []
  | Some pg =>
      let potential := paragraphs_loop (paragraphs pg) [] in
      let potential := selected_loop (selected pg) potential in
      process_loop self potential [] []
  end.

End Build.

(** *** Text of ASCII characters

    The cleaning of a text, the lowercase form and the length of a
    text are embedded for ASCII text, where a character is a byte. The
    facts about the alerts of a feed, of a page and of a run are stated
    for feeds and pages of such text. *)

Definition ascii_text (s : string) : Prop := all_chars is_ascii s = true.

Definition ascii_entry (e : entry) : Prop :=
  ascii_text (entry_get e "title") /\
  ascii_text (entry_get e "description") /\
  ascii_text (entry_get e "summary").

Definition ascii_page (pg : page) : Prop :=
  Forall ascii_text (paragraphs pg) /\ Forall ascii_text (selected pg).

(** Cleaning an ASCII text gives an ASCII text. *)
Lemma clean_text_stays_ascii (text : string) :
  ascii_text text -> ascii_text (_clean_text text).
Proof. apply clean_text_keeps_ascii. Qed.

(** *** Locations *)


Section BuildFacts.

Variable finditer : string -> string -> list string.
Variable geocode : string -> geocode_reply.
Variable http_feed : string -> option (list entry).
Variable http_page : string -> option page.
Variable now : nat -> string.







(** *** The alerts that are built *)

(** What every alert of the scraper satisfies: a message, both
    coordinates or none, the source INCOIS, one of the three
    severities. *)
Definition coherent (a : Alert) : Prop :=
  message a <> EmptyString /\
  (lat a = None <-> lng a = None) /\
  source a = "INCOIS" /\
  In (severity a) ["emergency"; "warning"; "info"].

Lemma determine_severity_values (self : INCOISScraper) (text : string) :
  In (_determine_severity self text) ["emergency"; "warning"; "info"].
Proof.
  unfold _determine_severity.
  destruct (keyword_loop _ _); [now left|].
  destruct (keyword_loop _ _); [right; now left | right; right; now left].
Qed.

Lemma locate_pair (locations : list string) :
  fst (locate geocode locations) = None <-> snd (locate geocode locations) = None.
Proof.
  unfold locate. destruct locations as [|first rest]; [now split|].
  destruct (fst (_geocode_location geocode first)) as [[la lo]|]; simpl;
    split; intros H; congruence.
Qed.

Lemma nonempty_true (s : string) : nonempty s = true <-> s <> EmptyString.
Proof. destruct s; simpl; split; intros H; congruence. Qed.

(** X6. An entry of a feed, of ASCII text, gives an alert when its
    cleaned title or its cleaned description is not empty, and none
    when both are empty. The alert has a message that is not empty (the
    description, or the title when there is none) and is ASCII text,
    both coordinates or neither, the source INCOIS, the severity of the
    title and description taken together, and the cleaned title under
    the marker of that severity. *)
Theorem rss_entry_alert (self : INCOISScraper) (n : nat) (e : entry) :
  ascii_entry e ->
  let title_ := _clean_text (entry_get e "title") in
  let description :=
    _clean_text (if nonempty (entry_get e "description")
                 then entry_get e "description" else entry_get e "summary") in
  (title_ = EmptyString /\ description = EmptyString ->
   rss_entry finditer geocode now self n e = None) /\
  (title_ <> EmptyString \/ description <> EmptyString ->
   exists a, rss_entry finditer geocode now self n e = Some a) /\
  (forall a,
     rss_entry finditer geocode now self n e = Some a ->
     coherent a /\
     ascii_text (message a) /\
     message a = (if nonempty description then description else title_) /\
     severity a = _determine_severity self (title_ ++ " " ++ description) /\
     title a = decorate (severity a) title_).
Proof using finditer geocode now.
  intros [Ht [Hd Hs]] title_ description.
  assert (Htitle : ascii_text title_) by now apply clean_text_stays_ascii.
  assert (Hdesc : ascii_text description).
  { apply clean_text_stays_ascii.
    now destruct (nonempty (entry_get e "description")). }
  unfold rss_entry. fold title_. fold description.
  split; [|split].
  - intros [-> ->]. reflexivity.
  - intros Hone.
    assert (E : nonempty title_ || nonempty description = true).
    { apply orb_true_iff.
      destruct Hone as [H | H]; [left | right]; now apply nonempty_true. }
    rewrite E. destruct (locate geocode _) as [la lo]. eexists. reflexivity.
  - intros a. destruct (nonempty title_ || nonempty description) eqn:E;
      [|discriminate].
    pose proof (locate_pair
                  (_extract_locations finditer location_patterns
                     (title_ ++ " " ++ description))) as Hpair.
    destruct (locate geocode _) as [la lo]. cbn [fst snd] in Hpair.
    intros H. injection H as <-. unfold coherent.
    cbn [message lat lng source severity title].
    split; [|split; [|split; [reflexivity | split; reflexivity]]].
    2:{ now destruct (nonempty description). }
    split; [|split; [exact Hpair | split; [reflexivity|]]].
    + destruct (nonempty description) eqn:Ed.
      * now apply nonempty_true.
      * rewrite orb_false_r in E. now apply nonempty_true.
    + apply determine_severity_values.
Qed.

Lemma rss_entry_ascii (self : INCOISScraper) (n : nat) (e : entry) (a : Alert) :
  ascii_entry e ->
  rss_entry finditer geocode now self n e = Some a ->
  ascii_text (message a).
Proof using finditer geocode now.
  intros [Ht [Hd Hs]]. unfold rss_entry. cbv zeta.
  destruct (_ || _); [|discriminate].
  destruct (locate geocode _) as [la lo]. intros H. injection H as <-.
  cbn [message].
  destruct (nonempty (_clean_text _)); apply clean_text_stays_ascii;
    [now destruct (nonempty (entry_get e "description")) | exact Ht].
Qed.

Lemma entries_loop_ascii (self : INCOISScraper) (entries : list entry)
  (alerts : list Alert) :
  Forall ascii_entry entries ->
  Forall (fun a => ascii_text (message a)) alerts ->
  Forall (fun a => ascii_text (message a))
    (entries_loop finditer geocode now self entries alerts).
Proof using finditer geocode now.
  intros H. revert alerts.
  induction H as [|e rest He _ IH]; intros alerts Hall; [exact Hall|].
  cbn [entries_loop].
  destruct (rss_entry finditer geocode now self (List.length alerts) e)
    as [a|] eqn:E; [|now apply IH].
  apply IH. apply Forall_app. split; [exact Hall|].
  constructor; [|constructor].
  exact (rss_entry_ascii self (List.length alerts) e a He E).
Qed.

Lemma try_rss_feed_ascii (self : INCOISScraper) (feed_url : string) :
  (forall entries, http_feed feed_url = Some entries ->
                   Forall ascii_entry entries) ->
  Forall (fun a => ascii_text (message a))
    (_try_rss_feed finditer geocode http_feed now self feed_url).
Proof.
  intros Hfeed. unfold _try_rss_feed.
  destruct (http_feed feed_url) as [entries|]; [|constructor].
  apply entries_loop_ascii; [now apply Hfeed | constructor].
Qed.

Lemma entries_loop_coherent (self : INCOISScraper) (entries : list entry)
  (alerts : list Alert) :
  Forall coherent alerts ->
  Forall coherent (entries_loop finditer geocode now self entries alerts).
Proof.
  revert alerts. induction entries as [|e rest IH]; intros alerts H; [exact H|].
  cbn [entries_loop].
  destruct (rss_entry finditer geocode now self (List.length alerts) e)
    as [a|] eqn:E; [|now apply IH].
  apply IH. apply Forall_app. split; [exact H|]. constructor; [|constructor].
  unfold rss_entry in E.
  destruct (nonempty _ || nonempty _) eqn:En; [|discriminate].
  pose proof (locate_pair
                (_extract_locations finditer location_patterns
                   (_clean_text (entry_get e "title") ++ " "
                    ++ _clean_text
                         (if nonempty (entry_get e "description")
                          then entry_get e "description"
                          else entry_get e "summary")))) as Hpair.
  destruct (locate geocode _) as [la lo]. cbn [fst snd] in Hpair.
  injection E as <-. unfold coherent. cbn [message lat lng source severity].
  repeat split; try tauto.
  - destruct (nonempty (_clean_text (if nonempty (entry_get e "description")
                                      then _ else _))) eqn:Ed.
    + now apply nonempty_true.
    + rewrite orb_false_r in En. now apply nonempty_true.
  - apply determine_severity_values.
Qed.

Lemma try_rss_feed_coherent (self : INCOISScraper) (feed_url : string) :
  Forall coherent (_try_rss_feed finditer geocode http_feed now self feed_url).
Proof.
  unfold _try_rss_feed. destruct (http_feed feed_url); [|constructor].
  apply entries_loop_coherent. constructor.
Qed.

(** *** The alerts of a page *)

Lemma slice_to_length (n : nat) (s : string) :
  (String.length (slice_to n s) <= n)%nat.
Proof.
  revert s. induction n as [|n IH]; intros s; [simpl; lia|].
  destruct s as [|c s]; simpl; [lia|]. specialize (IH s). lia.
Qed.

Lemma slice_to_chars (p : ascii -> bool) (n : nat) (s : string) :
  all_chars p s = true -> all_chars p (slice_to n s) = true.
Proof.
  revert s. induction n as [|n IH]; intros s H; [reflexivity|].
  destruct s as [|c s]; [reflexivity|]. simpl in *.
  apply andb_true_iff in H. destruct H as [Hc Hs]. now rewrite Hc, IH.
Qed.

(** The first piece of a split text has no [.], [!] or [?]. *)
Lemma split_sentences_first (s : string) :
  exists first others,
    split_sentences s = first :: others /\
    all_chars (fun c => negb (is_stop c)) first = true.
Proof.
  induction s as [|c s [first [others [IH Hfirst]]]].
  - exists EmptyString, []. now split.
  - cbn [split_sentences]. destruct (is_stop c) eqn:E.
    + destruct (starts_with_stop s).
      * now exists first, others.
      * exists EmptyString, (split_sentences s). now split.
    + rewrite IH. exists (String c first), others. split; [reflexivity|].
      simpl. now rewrite E, Hfirst.
Qed.

(** What the scraper makes of one text of a page: a message of 30
    characters or more, and a title that is the marker of the severity
    followed by at most 100 characters without [.], [!] or [?]. *)
Definition page_made (a : Alert) : Prop :=
  (30 <= String.length (message a))%nat /\
  exists t,
    title a = decorate (severity a) t /\
    (String.length t <= 100)%nat /\
    all_chars (fun c => negb (is_stop c)) t = true.

Lemma page_alert_made (self : INCOISScraper) (n : nat) (content : string) :
  (30 <= String.length content)%nat ->
  coherent (page_alert finditer geocode now self n content) /\
  page_made (page_alert finditer geocode now self n content) /\
  message (page_alert finditer geocode now self n content) = content.
Proof.
  intros Hlen. unfold page_alert. cbv zeta.
  pose proof (locate_pair
                (_extract_locations finditer location_patterns content)) as Hpair.
  destruct (locate geocode _) as [la lo]. cbn [fst snd] in Hpair.
  destruct (split_sentences_first content) as [first [others [-> Hfirst]]].
  unfold coherent, page_made. cbn [message lat lng source severity title].
  split; [|split; [|reflexivity]].
  - split; [|split; [exact Hpair | split; [reflexivity|]]].
    + intros ->. simpl in Hlen. lia.
    + apply determine_severity_values.
  - split; [exact Hlen|].
    exists (slice_to 100 first). split; [reflexivity|]. split.
    + apply slice_to_length.
    + now apply slice_to_chars.
Qed.

Lemma process_loop_inv (self : INCOISScraper) (potential seen : list string)
  (alerts : list Alert) :
  (List.length alerts < 10)%nat ->
  NoDup (map message alerts) ->
  (forall a, In a alerts -> mem (message a) seen = true) ->
  Forall (fun a => coherent a /\ page_made a) alerts ->
  (List.length (process_loop finditer geocode now self potential seen alerts)
   <= 10)%nat /\
  NoDup (map message (process_loop finditer geocode now self potential seen alerts)) /\
  Forall (fun a => coherent a /\ page_made a)
    (process_loop finditer geocode now self potential seen alerts).
Proof.
  revert seen alerts.
  induction potential as [|raw rest IH]; intros seen alerts Hlen Hnd Hseen Hall.
  - cbn [process_loop]. repeat split; [lia | assumption | assumption].
  - cbn [process_loop]. set (content := _clean_text raw).
    destruct (negb (nonempty content)
              || (String.length content <? 30)%nat || mem content seen) eqn:E.
    + now apply IH.
    + apply orb_false_iff in E. destruct E as [E Emem].
      apply orb_false_iff in E. destruct E as [_ Elen].
      apply Nat.ltb_ge in Elen.
      destruct (page_alert_made self (List.length alerts) content Elen)
        as [Hcoh [Hmade Hmsg]].
      set (a := page_alert finditer geocode now self (List.length alerts) content) in *.
      assert (Hnd' : NoDup (map message (alerts ++ [a])%list)).
      { rewrite map_app. cbn [map]. apply NoDup_app; [assumption | | ].
        - constructor; [intros [] | constructor].
        - intros m Hm [<- | []]. apply in_map_iff in Hm.
          destruct Hm as [b [Hb Hin]]. specialize (Hseen b Hin).
          rewrite Hb, Hmsg in Hseen. congruence. }
      assert (Hall' : Forall (fun a => coherent a /\ page_made a) (alerts ++ [a])%list).
      { apply Forall_app. split; [assumption|].
        constructor; [now split | constructor]. }
      destruct (10 <=? List.length (alerts ++ [a])%list)%nat eqn:Eten.
      * repeat split; try assumption.
        rewrite length_app. simpl. lia.
      * apply Nat.leb_gt in Eten. apply IH; try assumption.
        intros b Hb. apply in_app_iff in Hb. cbn [mem existsb].
        destruct Hb as [Hb | [<- | []]].
        -- fold (mem (message b) seen). rewrite (Hseen b Hb). apply orb_true_r.
        -- rewrite Hmsg, String.eqb_refl. reflexivity.
Qed.

(** The candidate texts of an ASCII page are ASCII, and so are the
    messages made of them. *)
Lemma paragraphs_loop_ascii (paras potential : list string) :
  Forall ascii_text paras -> Forall ascii_text potential ->
  Forall ascii_text (paragraphs_loop paras potential).
Proof.
  intros H. revert potential.
  induction H as [|para rest Hp _ IH]; intros potential Hpot; [exact Hpot|].
  cbn [paragraphs_loop]. cbv zeta.
  destruct (_ && _); [|now apply IH].
  apply IH. apply Forall_app. split; [exact Hpot|].
  constructor; [|constructor]. now apply strip_chars.
Qed.

Lemma selected_loop_ascii (elems potential : list string) :
  Forall ascii_text elems -> Forall ascii_text potential ->
  Forall ascii_text (selected_loop elems potential).
Proof.
  intros H. revert potential.
  induction H as [|elem rest He _ IH]; intros potential Hpot; [exact Hpot|].
  cbn [selected_loop]. cbv zeta.
  destruct (_ <? _)%nat; [|now apply IH].
  apply IH. apply Forall_app. split; [exact Hpot|].
  constructor; [|constructor]. now apply clean_text_stays_ascii.
Qed.

Lemma page_alert_message (self : INCOISScraper) (n : nat) (content : string) :
  message (page_alert finditer geocode now self n content) = content.
Proof. unfold page_alert. cbv zeta. now destruct (locate geocode _). Qed.

Lemma process_loop_ascii (self : INCOISScraper) (potential seen : list string)
  (alerts : list Alert) :
  Forall ascii_text potential ->
  Forall (fun a => ascii_text (message a)) alerts ->
  Forall (fun a => ascii_text (message a))
    (process_loop finditer geocode now self potential seen alerts).
Proof.
  intros H. revert seen alerts.
  induction H as [|raw rest Hraw _ IH]; intros seen alerts Hall; [exact Hall|].
  cbn [process_loop]. cbv zeta.
  destruct (_ || _); [now apply IH|].
  assert (Hall' : Forall (fun a => ascii_text (message a))
                    (alerts ++ [page_alert finditer geocode now self
                                  (List.length alerts) (_clean_text raw)])%list).
  { apply Forall_app. split; [exact Hall|]. constructor; [|constructor].
    rewrite page_alert_message. now apply clean_text_stays_ascii. }
  destruct (10 <=? _)%nat; [exact Hall' | now apply IH].
Qed.

Lemma scrape_webpage_ascii (self : INCOISScraper) (url : string) :
  (forall pg, http_page url = Some pg -> ascii_page pg) ->
  Forall (fun a => ascii_text (message a))
    (_scrape_webpage finditer geocode http_page now self url).
Proof.
  intros Hpage. unfold _scrape_webpage.
  destruct (http_page url) as [pg|]; [|constructor].
  destruct (Hpage pg eq_refl) as [Hparas Hsel].
  apply process_loop_ascii; [|constructor].
  apply selected_loop_ascii; [exact Hsel|].
  apply paragraphs_loop_ascii; [exact Hparas | constructor].
Qed.

(** X7. A page of ASCII text gives at most ten alerts. Their messages
    are pairwise distinct, are ASCII text and have 30 characters or
    more; every title is the marker of the severity followed by at
    most 100 characters, none of them [.], [!] or [?]; and every alert
    has both coordinates or neither. A page that cannot be loaded
    gives none. *)
Theorem scrape_webpage_alerts (self : INCOISScraper) (url : string) :
  (forall pg, http_page url = Some pg -> ascii_page pg) ->
  (List.length (_scrape_webpage finditer geocode http_page now self url) <= 10)%nat /\
  NoDup (map message (_scrape_webpage finditer geocode http_page now self url)) /\
  Forall (fun a => coherent a /\ page_made a)
    (_scrape_webpage finditer geocode http_page now self url) /\
  Forall (fun a => ascii_text (message a))
    (_scrape_webpage finditer geocode http_page now self url) /\
  (http_page url = None ->
   _scrape_webpage finditer geocode http_page now self url = []).
Proof.
  intros Hpage. pose proof (scrape_webpage_ascii self url Hpage) as Hascii.
  unfold _scrape_webpage in *. destruct (http_page url) as [pg|].
  - destruct (process_loop_inv self
                (selected_loop (selected pg) (paragraphs_loop (paragraphs pg) []))
                [] []) as [H1 [H2 H3]];
      [simpl; lia | constructor | intros a [] | constructor |].
    repeat split; try assumption. discriminate.
  - repeat split; [simpl; lia | constructor | constructor | constructor].
Qed.

Lemma scrape_webpage_coherent (self : INCOISScraper) (url : string) :
  Forall coherent (_scrape_webpage finditer geocode http_page now self url).
Proof.
  unfold _scrape_webpage. destruct (http_page url) as [pg|]; [|constructor].
  destruct (process_loop_inv self
              (selected_loop (selected pg) (paragraphs_loop (paragraphs pg) []))
              [] []) as [_ [_ H]];
    [simpl; lia | constructor | intros a [] | constructor |].
  eapply Forall_impl; [|exact H]. now intros a [Ha _].
Qed.

(** *** A whole run *)

Lemma dedup_loop_keep_first (all_alerts unique_alerts : list Alert)
  (seen : list string) (self : INCOISScraper) :
  fst (dedup_loop all_alerts unique_alerts seen self)
  = keep_first message_key seen unique_alerts all_alerts.
Proof.
  revert unique_alerts seen self.
  induction all_alerts as [|a rest IH]; intros unique_alerts seen self.
  - reflexivity.
  - cbn [dedup_loop keep_first].
    destruct (mem (message_key a) seen); cbn [negb]; apply IH.
Qed.

Lemma rss_loop_all (P : Alert -> Prop) (rss : string -> option (list Alert))
  (feeds : list string) (all_alerts : list Alert) :
  (forall url l, rss url = Some l -> Forall P l) ->
  Forall P all_alerts -> Forall P (rss_loop rss feeds all_alerts).
Proof.
  intros Hrss. revert all_alerts.
  induction feeds as [|url rest IH]; intros all_alerts H; [exact H|].
  cbn [rss_loop]. destruct (rss url) as [l|] eqn:E; [|now apply IH].
  apply IH. apply Forall_app. split; [exact H | now apply (Hrss url)].
Qed.

Lemma web_loop_all (P : Alert -> Prop) (web : string -> option (list Alert))
  (urls : list string) (all_alerts : list Alert) :
  (forall url l, web url = Some l -> Forall P l) ->
  Forall P all_alerts -> Forall P (web_loop web urls all_alerts).
Proof.
  intros Hweb. revert all_alerts.
  induction urls as [|url rest IH]; intros all_alerts H; [exact H|].
  cbn [web_loop]. destruct (web url) as [l|] eqn:E; [|now apply IH].
  assert (Hall : Forall P (all_alerts ++ l)%list)
    by (apply Forall_app; split; [exact H | now apply (Hweb url)]).
  destruct (5 <=? List.length (all_alerts ++ l)%list)%nat; [exact Hall|].
  now apply IH.
Qed.

Lemma samples_coherent : Forall coherent (_generate_sample_alerts now).
Proof.
  unfold _generate_sample_alerts, coherent.
  repeat (apply Forall_cons;
          [cbn [message lat lng source severity In];
           split; [discriminate|];
           split; [split; discriminate|];
           split; [reflexivity | auto 6] |]).
  apply Forall_nil.
Qed.

(** X8. A run of [fetch_incois_alerts] over feeds and pages of ASCII
    text, as [_try_rss_feed] and [_scrape_webpage] read them, returns
    the records of a list of alerts that is not empty, in which every
    alert has a message of ASCII text, both coordinates or neither, the
    source INCOIS and one of the three severities, and in which no two
    alerts have the same key. *)
Theorem fetch_alerts_coherent (self : INCOISScraper) :
  (forall url entries, http_feed url = Some entries -> Forall ascii_entry entries) ->
  (forall url pg, http_page url = Some pg -> ascii_page pg) ->
  exists alerts : list Alert,
    snd (fetch_incois_alerts
           (fun url => Some (_try_rss_feed finditer geocode http_feed now self url))
           (fun url => Some (_scrape_webpage finditer geocode http_page now self url))
           now self)
    = map asdict alerts /\
    alerts <> [] /\
    Forall coherent alerts /\
    Forall (fun a => ascii_text (message a)) alerts /\
    NoDup (map message_key alerts).
Proof.
  intros Hfeed Hpage.
  set (rss := fun url => Some (_try_rss_feed finditer geocode http_feed now self url)).
  set (web := fun url => Some (_scrape_webpage finditer geocode http_page now self url)).
  set (all_alerts := or_samples now (scrape_all rss web self)).
  exists (first_occurrences all_alerts).
  split; [apply fetch_incois_alerts_result|].
  assert (Hall : Forall (fun a => coherent a /\ ascii_text (message a)) all_alerts).
  { unfold all_alerts, or_samples.
    assert (Hscraped : Forall (fun a => coherent a /\ ascii_text (message a))
                         (scrape_all rss web self)).
    { unfold scrape_all. apply web_loop_all.
      - intros url l H. injection H as <-. apply Forall_and.
        + apply scrape_webpage_coherent.
        + apply scrape_webpage_ascii. intros pg. apply Hpage.
      - apply rss_loop_all; [|constructor].
        intros url l H. injection H as <-. apply Forall_and.
        + apply try_rss_feed_coherent.
        + apply try_rss_feed_ascii. intros entries. apply Hfeed. }
    destruct (scrape_all rss web self); [|exact Hscraped].
    apply Forall_and; [apply samples_coherent|].
    unfold _generate_sample_alerts. repeat constructor. }
  rewrite <- (dedup_loop_first_occurrences all_alerts self).
  rewrite dedup_loop_keep_first.
  destruct (keep_first_keys message_key all_alerts [] []
              (tracks_nil _) (NoDup_nil _)) as [Hnd [_ Hin]].
  assert (Hkept : Forall (fun a => coherent a /\ ascii_text (message a))
                    (keep_first message_key [] [] all_alerts)).
  { apply Forall_forall. intros a Ha.
    destruct (Hin a Ha) as [[] | Hin']. now apply (proj1 (Forall_forall _ _) Hall). }
  split; [|split; [|split]].
  - rewrite <- dedup_loop_keep_first with (self := self).
    apply dedup_loop_nonempty. apply or_samples_nonempty.
  - eapply Forall_impl; [|exact Hkept]. now intros a [Ha _].
  - eapply Forall_impl; [|exact Hkept]. now intros a [_ Ha].
  - exact Hnd.
Qed.

End BuildFacts.

(** *** A feed and a page *)

(** An entry with a tag in its title, a page with one paragraph that
    qualifies and one that is too short; a regular expression engine
    that finds nothing and a lookup service that knows no place. *)
Definition ex_entry : entry :=
  [ ("title", "<b>Cyclone</b> warning");
    ("description", "Rough sea off the coast of Odisha") ].

Definition ex_page : page :=
  {| paragraphs :=
       [ "  A cyclone warning is in force along the coast of Odisha today.  ";
         "Contact" ];
     selected := [] |}.

Definition ex_finditer : string -> string -> list string := fun _ _ => [].
Definition ex_geocode : string -> geocode_reply := fun _ => GeoNoMatch.
Definition ex_now : nat -> string := fun _ => "2024-01-01T00:00:00+00:00".

Lemma rss_entry_alert_witness :
  exists a, rss_entry ex_finditer ex_geocode ex_now init 0 ex_entry = Some a.
Proof.
  apply (proj1 (proj2 (rss_entry_alert ex_finditer ex_geocode ex_now init 0
                         ex_entry ltac:(repeat split)))).
  left. discriminate.
Defined.

Example rss_entry_sample :
  option_map (fun a => (title a, message a, severity a))
    (rss_entry ex_finditer ex_geocode ex_now init 0 ex_entry)
  = Some ("🚨 Cyclone warning", "Rough sea off the coast of Odisha",
          "emergency").
Proof. reflexivity. Qed.

Lemma scrape_webpage_alerts_witness :
  Forall (fun a => coherent a /\ page_made a)
    (_scrape_webpage ex_finditer ex_geocode (fun _ => Some ex_page) ex_now
       init "https://incois.gov.in").
Proof.
  apply (scrape_webpage_alerts ex_finditer ex_geocode (fun _ => Some ex_page)
           ex_now init "https://incois.gov.in").
  intros pg H. injection H as <-. repeat constructor.
Defined.

Example scrape_webpage_sample :
  map message
    (_scrape_webpage ex_finditer ex_geocode (fun _ => Some ex_page) ex_now
       init "https://incois.gov.in")
  = [ "A cyclone warning is in force along the coast of Odisha today." ].
Proof. reflexivity. Qed.

Lemma fetch_alerts_coherent_witness :
  exists alerts : list Alert,
    snd (fetch_incois_alerts
           (fun url => Some (_try_rss_feed ex_finditer ex_geocode
                               (fun _ => Some [ex_entry]) ex_now init url))
           (fun url => Some (_scrape_webpage ex_finditer ex_geocode
                               (fun _ => Some ex_page) ex_now init url))
           ex_now init)
    = map asdict alerts /\
    alerts <> [] /\
    Forall coherent alerts /\
    Forall (fun a => ascii_text (message a)) alerts /\
    NoDup (map message_key alerts).
Proof.
  apply (fetch_alerts_coherent ex_finditer ex_geocode
           (fun _ => Some [ex_entry]) (fun _ => Some ex_page) ex_now init).
  - intros url entries H. injection H as <-. repeat constructor.
  - intros url pg H. injection H as <-. repeat constructor.
Defined.

End Builder.

(** ** The scraper on text of every script

    A [string] is read as the bytes of the UTF-8 form of a Python
    [str]. Containment of one text in another is the same on these
    bytes as on the characters, since no character's bytes begin inside
    another character's, so [str_in] is the operator [in] on every
    text. Two operations are not byte-wise. [str.lower] folds the
    letters of every script, and may change the length of a text: it is
    the function of the interpreter, a parameter here. A slice [s[:n]]
    counts characters: a character is one byte that is not a
    continuation byte, followed by its continuation bytes.

    The classification and the deduplication are embedded again on
    this reading; on ASCII text they are the functions of the module
    [Scraper]. *)

Module Unicode.

Import PyStr FirstSeen.

(** A continuation byte of UTF-8, of the form 10xxxxxx. *)
Definition is_continuation (c : ascii) : bool :=
  let n := nat_of_ascii c in ((128 <=? n) && (n <? 192))%nat.

(** [s[:n]]: the first [n] characters of [s], each with all its
    bytes. *)
Fixpoint slice_chars (n : nat) (s : string) : string :=
  match s with
  | EmptyString => EmptyString
  | String c s' =>
      if is_continuation c then String c (slice_chars n s')
      else
        match n with
        | O => EmptyString
        | S n' => String c (slice_chars n' s')
        end
  end.

(** The degree sign has two bytes and is one character. *)
Example slice_chars_samples :
  slice_chars 3 "25°C at noon" = "25°" /\
  String.length (slice_chars 3 "25°C at noon") = 4%nat /\
  slice_chars 0 "°" = EmptyString /\
  slice_chars 5 "25°" = "25°".
Proof. repeat split. Qed.

Section Text.

(** [str.lower] *)
Variable str_lower : string -> string.

(** The loop [for keyword in ...: if keyword.lower() in text_lower:
    return ...]: [true] when the loop returns from its body. *)
Fixpoint keyword_loop (kws : list string) (text_lower : string) : bool :=
  match kws with
  | [] => false
  | keyword :: rest =>
      if str_in (str_lower keyword) text_lower then true
      else keyword_loop rest text_lower
  end.

Definition _determine_severity (self : Scraper.INCOISScraper) (text : string)
  : string :=
  let text_lower := str_lower text in
  if keyword_loop (Scraper.emergency (Scraper.severity_keywords self)) text_lower
  then "emergency"
  else if keyword_loop (Scraper.warning (Scraper.severity_keywords self))
            text_lower
  then "warning"
  else "info".

(** [alert.message[:100].lower()] *)
Definition message_key (alert : Scraper.Alert) : string :=
  str_lower (slice_chars 100 (Scraper.message alert)).

(** The loop that removes duplicates: [unique_alerts] grows at its end,
    [seen_messages] is the set of keys met so far, the two counters are
    fields of [self]. *)
Fixpoint dedup_loop (all_alerts unique_alerts : list Scraper.Alert)
  (seen_messages : list string) (self : Scraper.INCOISScraper)
  : list Scraper.Alert * Scraper.INCOISScraper :=
  match all_alerts with
  | [] => (unique_alerts, self)
  | alert :: rest =>
      let key := message_key alert in
      if negb (mem key seen_messages) then
        dedup_loop rest (unique_alerts ++ [alert]) (key :: seen_messages)
          (Scraper.bump_processed self)
      else
        dedup_loop rest unique_alerts seen_messages (Scraper.bump_skipped self)
  end.

(** *** Severity classification *)

(** Some keyword of [kws] occurs in [text] whatever the case of the
    letters: its lowercase form is a substring of the lowercase form of
    the text. *)
Definition keyword_occurs (kws : list string) (text : string) : Prop :=
  exists kw, In kw kws /\ occurs (str_lower kw) (str_lower text).

Lemma keyword_loop_occurs (kws : list string) (text : string) :
  keyword_loop kws (str_lower text) = true <-> keyword_occurs kws text.
Proof.
  unfold keyword_occurs. induction kws as [|k kws IH]; cbn [keyword_loop].
  - split; [discriminate | intros [kw [[] _]]].
  - destruct (str_in (str_lower k) (str_lower text)) eqn:E.
    + split; [intros _ | reflexivity].
      exists k. split; [now left | now apply str_in_spec].
    + rewrite IH. split.
      * intros [kw [Hin Hocc]]. exists kw. split; [now right | assumption].
      * intros [kw [[-> | Hin] Hocc]].
        -- apply str_in_spec in Hocc. congruence.
        -- now exists kw.
Qed.

Lemma keyword_loop_none (kws : list string) (text : string) :
  ~ keyword_occurs kws text -> keyword_loop kws (str_lower text) = false.
Proof.
  intros H. destruct (keyword_loop kws (str_lower text)) eqn:E; [|reflexivity].
  apply keyword_loop_occurs in E. contradiction.
Qed.

(** C2. Classification goes by precedence: a text in which some
    emergency keyword occurs, in any case, is ['emergency'], also when a
    warning keyword occurs in it; a text with no emergency keyword and
    some warning keyword is ['warning']; a text with neither is
    ['info'].  The result is a function of the text and the keyword sets
    alone: no other field of the object is read, none is written. *)
Theorem determine_severity_precedence (self : Scraper.INCOISScraper)
  (text : string) :
  (keyword_occurs (Scraper.emergency (Scraper.severity_keywords self)) text ->
   _determine_severity self text = "emergency") /\
  (~ keyword_occurs (Scraper.emergency (Scraper.severity_keywords self)) text ->
   keyword_occurs (Scraper.warning (Scraper.severity_keywords self)) text ->
   _determine_severity self text = "warning") /\
  (~ keyword_occurs (Scraper.emergency (Scraper.severity_keywords self)) text ->
   ~ keyword_occurs (Scraper.warning (Scraper.severity_keywords self)) text ->
   _determine_severity self text = "info") /\
  (forall self' : Scraper.INCOISScraper,
     Scraper.severity_keywords self' = Scraper.severity_keywords self ->
     _determine_severity self' text = _determine_severity self text).
Proof.
  unfold _determine_severity. repeat split.
  - intros He. apply keyword_loop_occurs in He. now rewrite He.
  - intros Hne Hw. rewrite (keyword_loop_none _ _ Hne).
    apply keyword_loop_occurs in Hw. now rewrite Hw.
  - intros Hne Hnw.
    now rewrite (keyword_loop_none _ _ Hne), (keyword_loop_none _ _ Hnw).
  - intros self' ->. reflexivity.
Qed.

(** *** Deduplication *)

(** The alert [a], at position [i] of [alerts], is the first of the
    sequence with its key. *)
Definition first_of_its_key (alerts : list Scraper.Alert) (i : nat)
  (a : Scraper.Alert) : bool :=
  negb (mem (message_key a) (map message_key (firstn i alerts))).

(** The alerts of a sequence that are the first with their key, in
    their order. *)
Definition first_occurrences (alerts : list Scraper.Alert)
  : list Scraper.Alert :=
  map snd
    (filter (fun ia => first_of_its_key alerts (fst ia) (snd ia))
       (combine (seq 0 (List.length alerts)) alerts)).

(** The loop, started after the alerts [done] with a set [seen] that
    holds their keys, appends to [unique_alerts] the alerts of the rest
    that are the first of their key in the whole sequence. *)
Lemma dedup_keeps (rest done unique_alerts : list Scraper.Alert)
  (seen : list string) (self : Scraper.INCOISScraper) :
  (forall k, mem k seen = mem k (map message_key done)) ->
  fst (dedup_loop rest unique_alerts seen self)
  = (unique_alerts ++
     map snd
       (filter (fun ia => first_of_its_key (done ++ rest) (fst ia) (snd ia))
          (combine (seq (List.length done) (List.length rest)) rest)))%list.
Proof.
  revert done unique_alerts seen self.
  induction rest as [|a rest IH]; intros done unique_alerts seen self Hseen.
  - simpl. now rewrite app_nil_r.
  - cbn [dedup_loop List.length seq combine filter fst snd].
    unfold first_of_its_key at 1.
    rewrite Scraper.firstn_length_app, <- Hseen.
    assert (Hassoc : (done ++ a :: rest = (done ++ [a]) ++ rest)%list)
      by now rewrite <- app_assoc.
    assert (Hlen : S (List.length done) = List.length (done ++ [a])%list)
      by (rewrite length_app; simpl; lia).
    destruct (mem (message_key a) seen) eqn:E; cbn [negb].
    + rewrite (IH (done ++ [a])%list).
      * now rewrite Hassoc, Hlen.
      * intros k. rewrite map_app. cbn [map].
        rewrite Scraper.mem_snoc, <- Hseen.
        destruct (String.eqb k (message_key a)) eqn:Ek.
        -- apply String.eqb_eq in Ek. subst k. now rewrite E.
        -- now rewrite orb_false_r.
    + rewrite (IH (done ++ [a])%list).
      * cbn [map snd]. now rewrite Hassoc, Hlen, <- app_assoc.
      * intros k. rewrite map_app. cbn [map].
        rewrite Scraper.mem_snoc, Scraper.mem_cons, <- Hseen. apply orb_comm.
Qed.

(** Each alert of the sequence moves one of the two counters: the kept
    ones [alerts_processed], the dropped ones [alerts_skipped]. *)
Lemma dedup_counts (rest unique_alerts : list Scraper.Alert)
  (seen : list string) (self : Scraper.INCOISScraper) :
  let r := dedup_loop rest unique_alerts seen self in
  (Scraper.alerts_processed (snd r) + List.length unique_alerts
   = Scraper.alerts_processed self + List.length (fst r))%nat /\
  (Scraper.alerts_skipped (snd r) + List.length (fst r)
   = Scraper.alerts_skipped self + List.length unique_alerts
     + List.length rest)%nat.
Proof.
  revert unique_alerts seen self.
  induction rest as [|a rest IH]; intros unique_alerts seen self; cbn zeta.
  - simpl. lia.
  - cbn [dedup_loop].
    destruct (negb (mem (message_key a) seen)).
    + specialize (IH (unique_alerts ++ [a])%list (message_key a :: seen)
                    (Scraper.bump_processed self)).
      cbn zeta in IH. rewrite length_app in IH. simpl in IH |- *. lia.
    + specialize (IH unique_alerts seen (Scraper.bump_skipped self)).
      cbn zeta in IH. simpl in IH |- *. lia.
Qed.

(** C5, as the code has it. Deduplication keeps, in their order, exactly
    the alerts whose key, the lowercase of the first 100 characters of
    the message, is the key of no earlier alert of the sequence; each
    kept alert adds one to [alerts_processed], each dropped one adds one
    to [alerts_skipped].  Of two alerts, both are kept when their keys
    differ, and the second is dropped and counted as skipped when their
    keys are equal, as they are when the two messages agree on their
    first 100 characters. *)
Theorem dedup_keeps_first_of_each_key (self : Scraper.INCOISScraper) :
  (forall alerts : list Scraper.Alert,
     let r := dedup_loop alerts [] [] self in
     fst r = first_occurrences alerts /\
     Scraper.alerts_processed (snd r)
     = (Scraper.alerts_processed self + List.length (fst r))%nat /\
     (Scraper.alerts_skipped (snd r) + List.length (fst r)
      = Scraper.alerts_skipped self + List.length alerts)%nat) /\
  (forall a b : Scraper.Alert,
     message_key a <> message_key b ->
     fst (dedup_loop [a; b] [] [] self) = [a; b]) /\
  (forall a b : Scraper.Alert,
     message_key a = message_key b ->
     fst (dedup_loop [a; b] [] [] self) = [a] /\
     Scraper.alerts_skipped (snd (dedup_loop [a; b] [] [] self))
     = (Scraper.alerts_skipped self + 1)%nat) /\
  (forall a b : Scraper.Alert,
     slice_chars 100 (Scraper.message a) = slice_chars 100 (Scraper.message b) ->
     fst (dedup_loop [a; b] [] [] self) = [a]).
Proof.
  assert (Hsame : forall a b : Scraper.Alert,
            message_key a = message_key b ->
            fst (dedup_loop [a; b] [] [] self) = [a] /\
            Scraper.alerts_skipped (snd (dedup_loop [a; b] [] [] self))
            = (Scraper.alerts_skipped self + 1)%nat).
  { intros a b He. cbn [dedup_loop mem existsb negb app].
    rewrite He, String.eqb_refl. cbn [orb negb]. split; reflexivity. }
  split; [|split; [|split]].
  - intros alerts r. subst r. split.
    + now rewrite (dedup_keeps alerts [] [] [] self).
    + destruct (dedup_counts alerts [] [] self) as [Hp Hs].
      cbn zeta in Hp, Hs. simpl in Hp, Hs. lia.
  - intros a b Hne. cbn [dedup_loop mem existsb negb app].
    destruct (String.eqb (message_key b) (message_key a)) eqn:E.
    + apply String.eqb_eq in E. congruence.
    + reflexivity.
  - exact Hsame.
  - intros a b He. apply Hsame. unfold message_key. now rewrite He.
Qed.

Lemma dedup_loop_first_seen (all_alerts unique_alerts : list Scraper.Alert)
  (seen : list string) (self : Scraper.INCOISScraper) :
  fst (dedup_loop all_alerts unique_alerts seen self)
  = keep_first message_key seen unique_alerts all_alerts.
Proof.
  revert unique_alerts seen self.
  induction all_alerts as [|a rest IH]; intros unique_alerts seen self.
  - reflexivity.
  - cbn [dedup_loop keep_first].
    destruct (mem (message_key a) seen); cbn [negb]; apply IH.
Qed.

(** X9. After deduplication no two alerts have the same key, every key
    of the input is the key of a kept alert, the kept alerts are
    alerts of the input, and deduplicating the result again keeps all
    of it. *)
Theorem dedup_distinct_keys (self : Scraper.INCOISScraper)
  (alerts : list Scraper.Alert) :
  NoDup (map message_key (fst (dedup_loop alerts [] [] self))) /\
  (forall k, In k (map message_key (fst (dedup_loop alerts [] [] self))) <->
             In k (map message_key alerts)) /\
  (forall a, In a (fst (dedup_loop alerts [] [] self)) -> In a alerts) /\
  (forall self' : Scraper.INCOISScraper,
     fst (dedup_loop (fst (dedup_loop alerts [] [] self)) [] [] self')
     = fst (dedup_loop alerts [] [] self)).
Proof.
  rewrite dedup_loop_first_seen.
  destruct (keep_first_keys message_key alerts [] [] (tracks_nil _) (NoDup_nil _))
    as [Hnd [Hkeys Hin]].
  split; [exact Hnd|]. split; [|split].
  - intros k. rewrite Hkeys. cbn [map In]. tauto.
  - intros a Ha. destruct (Hin a Ha) as [[] | H]. exact H.
  - intros self'. rewrite dedup_loop_first_seen.
    now apply (keep_first_distinct message_key _ [] [] (tracks_nil _)).
Qed.

End Text.

(** *** On ASCII text

    On a text of ASCII characters [str.lower] changes the letters A to
    Z only and a character is a byte: with [PyStr.lower] in the place
    of [str.lower], the functions above are those of the module
    [Scraper]. *)

Lemma keyword_loop_ascii (kws : list string) (text_lower : string) :
  keyword_loop lower kws text_lower = Scraper.keyword_loop kws text_lower.
Proof.
  induction kws as [|k kws IH]; [reflexivity|].
  cbn [keyword_loop Scraper.keyword_loop]. now rewrite IH.
Qed.

Lemma determine_severity_ascii (self : Scraper.INCOISScraper) (text : string) :
  _determine_severity lower self text = Scraper._determine_severity self text.
Proof.
  unfold _determine_severity, Scraper._determine_severity.
  now rewrite !keyword_loop_ascii.
Qed.

Lemma slice_chars_ascii (n : nat) (s : string) :
  Normalizer.all_chars Normalizer.is_ascii s = true ->
  slice_chars n s = slice_to n s.
Proof.
  revert n. induction s as [|c s IH]; intros n H.
  - now destruct n.
  - cbn [Normalizer.all_chars] in H. apply andb_true_iff in H.
    destruct H as [Hc Hs]. cbn [slice_chars].
    assert (Hcont : is_continuation c = false).
    { unfold is_continuation, Normalizer.is_ascii in *.
      apply Nat.ltb_lt in Hc.
      destruct (128 <=? nat_of_ascii c)%nat eqn:E; [|reflexivity].
      apply Nat.leb_le in E. lia. }
    rewrite Hcont. destruct n as [|n]; [reflexivity|].
    cbn [slice_to]. now rewrite IH.
Qed.

Lemma dedup_loop_ascii (all_alerts unique_alerts : list Scraper.Alert)
  (seen : list string) (self : Scraper.INCOISScraper) :
  Forall (fun a => Normalizer.all_chars Normalizer.is_ascii (Scraper.message a)
                   = true) all_alerts ->
  dedup_loop lower all_alerts unique_alerts seen self
  = Scraper.dedup_loop all_alerts unique_alerts seen self.
Proof.
  intros H. revert unique_alerts seen self.
  induction H as [|a rest Ha _ IH]; intros unique_alerts seen self.
  - reflexivity.
  - cbn [dedup_loop Scraper.dedup_loop]. cbv zeta.
    assert (Hk : message_key lower a = Scraper.message_key a).
    { unfold message_key, Scraper.message_key.
      now rewrite (slice_chars_ascii 100 _ Ha). }
    rewrite Hk. destruct (negb (mem (Scraper.message_key a) seen)); apply IH.
Qed.

(** An emergency keyword in capitals next to a warning keyword. *)
Lemma determine_severity_precedence_witness :
  _determine_severity lower Scraper.init "TSUNAMI warning for the east coast"
  = "emergency".
Proof.
  apply (proj1 (determine_severity_precedence lower Scraper.init
                  "TSUNAMI warning for the east coast")).
  exists "tsunami". split.
  - simpl. now left.
  - apply str_in_spec. reflexivity.
Defined.

(** Two alerts whose messages differ in the third word. *)
Lemma dedup_keeps_first_of_each_key_witness :
  let a := Scraper.mkAlert "t1" "High waves off Odisha" "warning" "INCOIS"
             None None "t" in
  let b := Scraper.mkAlert "t2" "High waves off Kerala" "warning" "INCOIS"
             None None "t" in
  fst (dedup_loop lower [a; b] [] [] Scraper.init) = [a; b].
Proof.
  intros a b.
  apply (proj1 (proj2 (dedup_keeps_first_of_each_key lower Scraper.init)) a b).
  vm_compute. discriminate.
Defined.

(** *** Text that is not ASCII *)

(** The capital I with a dot, U+0130, lowercases to an [i] followed by
    a combining dot: the keyword is found in the lowercase text. *)
Example severity_dotted_capital (str_lower : string -> string) :
  str_lower "tsunami" = "tsunami" ->
  str_lower "TSUNAMİ" = "tsunami̇" ->
  _determine_severity str_lower Scraper.init "TSUNAMİ" = "emergency".
Proof.
  intros Hkw Htext. unfold _determine_severity. rewrite Htext.
  cbn [Scraper.init Scraper.severity_keywords Scraper.emergency keyword_loop].
  now rewrite Hkw.
Qed.

(** Two messages that differ in the case of an accented letter have one
    key. *)
Example dedup_accented (str_lower : string -> string) :
  let a := Scraper.mkAlert "t1" "ÉTAT D'ALERTE" "info" "INCOIS" None None "t" in
  let b := Scraper.mkAlert "t2" "état d'alerte" "info" "INCOIS" None None "t" in
  str_lower "ÉTAT D'ALERTE" = "état d'alerte" ->
  str_lower "état d'alerte" = "état d'alerte" ->
  fst (dedup_loop str_lower [a; b] [] [] Scraper.init) = [a].
Proof.
  intros a b Ha Hb. subst a b.
  cbn [dedup_loop mem existsb negb app]. unfold message_key.
  cbn [Scraper.message].
  change (slice_chars 100 "ÉTAT D'ALERTE") with "ÉTAT D'ALERTE".
  change (slice_chars 100 "état d'alerte") with "état d'alerte".
  rewrite Ha, Hb, String.eqb_refl. reflexivity.
Qed.

(** Sixty degree signs are 120 bytes and 60 characters: two messages
    that differ in the character after them differ within their first
    100 characters, though not within their first 100 bytes. *)
Example slice_chars_degrees :
  slice_chars 100 "°°°°°°°°°°°°°°°°°°°°°°°°°°°°°°°°°°°°°°°°°°°°°°°°°°°°°°°°°°°° A" <> slice_chars 100 "°°°°°°°°°°°°°°°°°°°°°°°°°°°°°°°°°°°°°°°°°°°°°°°°°°°°°°°°°°°° B" /\
  slice_to 100 "°°°°°°°°°°°°°°°°°°°°°°°°°°°°°°°°°°°°°°°°°°°°°°°°°°°°°°°°°°°° A" = slice_to 100 "°°°°°°°°°°°°°°°°°°°°°°°°°°°°°°°°°°°°°°°°°°°°°°°°°°°°°°°°°°°° B".
Proof. split; [vm_compute; discriminate | reflexivity]. Qed.

End Unicode.

(** ** incois_scraper.py: more on severity and geocoding *)

Module ScraperFacts.

Import PyStr PyVal Scraper FirstSeen.

(** The order of urgency of the three severities. *)
Definition severity_rank (severity : string) : nat :=
  if String.eqb severity "emergency" then 2%nat
  else if String.eqb severity "warning" then 1%nat
  else 0%nat.

Lemma append_assoc (a b c : string) : (a ++ b) ++ c = a ++ (b ++ c).
Proof. induction a as [|x a IH]; simpl; [reflexivity | now rewrite IH]. Qed.

Lemma occurs_ci_extend (kw pre text post : string) :
  occurs_ci kw text -> occurs_ci kw (pre ++ text ++ post).
Proof.
  intros [p [w [q [-> Hw]]]]. exists (pre ++ p), w, (q ++ post).
  split; [|exact Hw]. now rewrite !append_assoc.
Qed.

Lemma some_keyword_extend (kws : list string) (pre text post : string) :
  some_keyword_occurs kws text -> some_keyword_occurs kws (pre ++ text ++ post).
Proof.
  intros [kw [Hin Hocc]]. exists kw. split; [exact Hin|].
  now apply occurs_ci_extend.
Qed.

(** X10. Text around a text never lowers its severity: the severity of
    [pre ++ text ++ post] is at least as urgent as the severity of
    [text]. *)
Theorem severity_never_lowered (self : INCOISScraper) (pre text post : string) :
  (severity_rank (_determine_severity self text)
   <= severity_rank (_determine_severity self (pre ++ text ++ post)))%nat.
Proof.
  unfold _determine_severity.
  destruct (keyword_loop (emergency (severity_keywords self))
              (lower (pre ++ text ++ post))) eqn:E2.
  - destruct (keyword_loop _ (lower text)); [vm_compute; lia|].
    destruct (keyword_loop _ (lower text)); vm_compute; lia.
  - destruct (keyword_loop (emergency (severity_keywords self)) (lower text)) eqn:E1.
    + apply keyword_loop_spec in E1.
      apply (some_keyword_extend _ pre text post), keyword_loop_spec in E1.
      congruence.
    + destruct (keyword_loop (warning (severity_keywords self)) (lower text)) eqn:W1.
      * apply keyword_loop_spec in W1.
        apply (some_keyword_extend _ pre text post), keyword_loop_spec in W1.
        rewrite W1. vm_compute. lia.
      * destruct (keyword_loop _ _); vm_compute; lia.
Qed.

(** X11. For a location that names none of the three water bodies, the
    geocoder sends exactly one query, the location followed by
    [", India"]; the result is the coordinate the service returns, and
    no coordinate when the service raises or finds nothing. *)
Theorem geocode_other_location (geocode : string -> geocode_reply)
  (location : string) :
  ~ occurs_ci "bay of bengal" location ->
  ~ occurs_ci "arabian sea" location ->
  ~ occurs_ci "indian ocean" location ->
  _geocode_location geocode location
  = (match geocode (location ++ ", India") with
     | GeoPlace latitude longitude => Some (latitude, longitude)
     | GeoNoMatch | GeoRaises => None
     end,
     [location ++ ", India"]).
Proof.
  intros Hb Ha Hi. unfold _geocode_location.
  apply str_in_lower_false in Hb, Ha, Hi.
  change (lower "bay of bengal") with "bay of bengal" in Hb.
  change (lower "arabian sea") with "arabian sea" in Ha.
  change (lower "indian ocean") with "indian ocean" in Hi.
  rewrite Hb, Ha, Hi. now destruct (geocode _).
Qed.

Lemma not_occurs_ci (kw text : string) :
  str_in (lower kw) (lower text) = false -> ~ occurs_ci kw text.
Proof. intros H Hocc. apply str_in_lower_spec in Hocc. congruence. Qed.

(** A service that is down: no coordinate for Chennai, after one
    query. *)
Lemma geocode_other_location_witness :
  _geocode_location (fun _ => GeoRaises) "Chennai" = (None, ["Chennai, India"]).
Proof.
  apply (geocode_other_location (fun _ => GeoRaises) "Chennai");
    apply not_occurs_ci; reflexivity.
Defined.

End ScraperFacts.

(** ** main.py: more on the store sync *)

Module StoreFacts.

Import PyStr PyVal Main.

Section Store.

Variable float_of_str : string -> option R.
Variable repr : pyval -> string.
Variable utcnow : nat -> datetime.
Variable error_clock : string -> string.
Variable format_exc : string -> string.
Variable commit_error : list Alert -> string.

Local Abbreviation item_step := (sync_item float_of_str repr utcnow).
Local Abbreviation loop := (sync_loop float_of_str repr utcnow).
Local Abbreviation load :=
  (load_alerts_from_json float_of_str repr utcnow error_clock format_exc
     commit_error).

(** Every record is either skipped with one reason or added as one
    object. *)
Lemma sync_item_cases (idx : nat) (item : pyval) (st : sync_state) :
  (exists reason, item_step idx item st = skip st reason) \/
  (exists alert, item_step idx item st = add st alert).
Proof.
  unfold sync_item. destruct item; try (left; eexists; reflexivity).
  cbv zeta.
  destruct (negb (truthy (dict_get d "title"))
            || negb (truthy (dict_get d "message")));
    [left; eexists; reflexivity|].
  destruct (coerce_pair float_of_str _ _) as [[la lo]|];
    [right | left]; eexists; reflexivity.
Qed.

(** The accumulators agree with the lists they count. *)
Definition balanced (st : sync_state) : Prop :=
  List.length (session_new st) = inserted st /\
  List.length (skipped_details st) = skipped st.

Lemma sync_loop_balanced (data : list pyval) (idx : nat) (st : sync_state) :
  balanced st ->
  balanced (loop idx data st) /\
  (inserted (loop idx data st) + skipped (loop idx data st)
   = inserted st + skipped st + List.length data)%nat.
Proof.
  revert idx st. induction data as [|item rest IH]; intros idx st Hb.
  - simpl. split; [exact Hb | lia].
  - cbn [sync_loop List.length].
    assert (Hstep : balanced (item_step idx item st) /\
                    (inserted (item_step idx item st)
                     + skipped (item_step idx item st)
                     = S (inserted st + skipped st))%nat).
    { destruct Hb as [Hb1 Hb2].
      destruct (sync_item_cases idx item st) as [[reason ->] | [alert ->]];
        unfold balanced; cbn [skip add session_new inserted skipped skipped_details];
        rewrite length_app; cbn [List.length]; split; try split; lia. }
    destruct Hstep as [Hb' Hcount].
    destruct (IH (S idx) _ Hb') as [Hb'' Hsum]. split; [exact Hb''|]. lia.
Qed.

(** The objects the loop adds for a JSON array, and whether their commit
    succeeds. *)
Definition pending_of (items : list pyval) : list Alert :=
  session_new (loop 0 items sync_start).

Definition unbindable (a : Alert) : Prop :=
  bind_float float_of_str (lat a) = None \/
  bind_float float_of_str (lng a) = None.

(** X12. A sync of a JSON array either accounts for every record or
    loses the whole batch. When every object the loop added can be
    committed, the answer gives counts: inserted plus skipped is the
    number of records, there is one reason for each skipped record,
    and the table afterwards has as many rows as records were
    inserted. When one of these objects holds a coordinate that the
    column cannot take, the commit raises: the answer is the dict with
    ['error'] and ['trace'], the error is recorded, and the table is
    left empty. *)
Theorem sync_accounts_for_all (w : world) (file_path : string)
  (items : list pyval) :
  files w file_path = Json (PList items) ->
  ((forall a, In a (pending_of items) -> ~ unbindable a) ->
   exists (n_inserted n_skipped : nat) (reasons : list string),
     snd (load w file_path)
     = [ ("inserted", PInt (Z.of_nat n_inserted));
         ("skipped", PInt (Z.of_nat n_skipped));
         ("skipped_details", PList (map PStr reasons)) ] /\
     (n_inserted + n_skipped = List.length items)%nat /\
     List.length reasons = n_skipped /\
     List.length (table (fst (load w file_path))) = n_inserted) /\
  ((exists a, In a (pending_of items) /\ unbindable a) ->
   let msg := commit_error (pending_of items) in
   snd (load w file_path)
   = [ ("error", PStr msg); ("trace", PStr (format_exc msg)) ] /\
   error_message (last_error (fst (load w file_path))) = Some msg /\
   table (fst (load w file_path)) = []).
Proof.
  intros Hfile. split.
  - intros Hok.
    destruct (flush float_of_str 1 (pending_of items)) as [rows|] eqn:Eflush.
    2:{ apply flush_None in Eflush. destruct Eflush as [a [Hin Hbad]].
        now destruct (Hok a Hin). }
    rewrite (load_list _ _ _ _ _ _ w file_path items rows Hfile Eflush).
    cbn [fst snd].
    destruct (sync_loop_balanced items 0 sync_start) as [[Hb1 Hb2] Hsum];
      [split; reflexivity|].
    exists (inserted (loop 0 items sync_start)),
           (skipped (loop 0 items sync_start)),
           (skipped_details (loop 0 items sync_start)).
    split; [reflexivity|]. split; [exact Hsum|]. split; [exact Hb2|].
    cbn [set_table table].
    rewrite (flush_length float_of_str _ 1 rows Eflush). exact Hb1.
  - intros Hbad msg.
    assert (Eflush : flush float_of_str 1 (pending_of items) = None)
      by (apply flush_None; exact Hbad).
    rewrite (load_list_failed _ _ _ _ _ _ w file_path items Hfile Eflush).
    repeat split.
Qed.

(** *** What the clock does not change *)

Definition coords (a : Alert) : pyval * pyval := (lat a, lng a).

Lemma sync_item_coords (utcnow' : nat -> datetime) (idx : nat) (item : pyval)
  (st st' : sync_state) :
  map coords (session_new st) = map coords (session_new st') ->
  map coords (session_new (item_step idx item st))
  = map coords (session_new (sync_item float_of_str repr utcnow' idx item st')).
Proof.
  intros H. unfold sync_item. destruct item; try exact H.
  cbv zeta.
  destruct (negb (truthy (dict_get d "title"))
            || negb (truthy (dict_get d "message"))); [exact H|].
  destruct (coerce_pair float_of_str _ _) as [[la lo]|]; [|exact H].
  cbn [add session_new]. rewrite !map_app, H. reflexivity.
Qed.

Lemma sync_loop_coords (utcnow' : nat -> datetime) (data : list pyval)
  (idx : nat) (st st' : sync_state) :
  map coords (session_new st) = map coords (session_new st') ->
  map coords (session_new (loop idx data st))
  = map coords (session_new (sync_loop float_of_str repr utcnow' idx data st')).
Proof.
  revert idx st st'. induction data as [|item rest IH]; intros idx st st' H.
  - exact H.
  - cbn [sync_loop]. apply IH. now apply sync_item_coords.
Qed.

(** Whether the commit fails depends on the coordinates only. *)
Lemma flush_None_coords (l l' : list Alert) (key key' : Z) :
  map coords l = map coords l' ->
  flush float_of_str key l = None -> flush float_of_str key' l' = None.
Proof.
  intros Hmap H. apply flush_None in H. destruct H as [a [Hin Hbad]].
  apply flush_None.
  assert (Hc : In (coords a) (map coords l')).
  { rewrite <- Hmap. now apply in_map. }
  apply in_map_iff in Hc. destruct Hc as [a' [Hc Hin']].
  exists a'. split; [exact Hin'|].
  unfold coords in Hc. injection Hc as Hla Hlo. now rewrite Hla, Hlo.
Qed.

(** X13. A sync replaces everything: with the same exchange file, the
    table and the answer after a sync are the same whatever the table
    and the last error were before. A sync does not touch the files,
    so a second sync, at other clock readings, leaves exactly what it
    would have left without the first one. *)
Theorem sync_forgets_earlier_state (w : world) (file_path : string)
  (items : list pyval) :
  files w file_path = Json (PList items) ->
  (forall w' : world,
     files w' file_path = files w file_path ->
     table (fst (load w' file_path)) = table (fst (load w file_path)) /\
     snd (load w' file_path) = snd (load w file_path)) /\
  files (fst (load w file_path)) = files w /\
  (forall utcnow' : nat -> datetime,
     load_alerts_from_json float_of_str repr utcnow' error_clock format_exc
       commit_error (fst (load w file_path)) file_path
     = load_alerts_from_json float_of_str repr utcnow' error_clock format_exc
         commit_error w file_path).
Proof.
  intros Hfile.
  destruct (flush float_of_str 1 (pending_of items)) as [rows|] eqn:Eflush.
  - split; [|split].
    + intros w' Hsame. rewrite Hfile in Hsame.
      rewrite (load_list _ _ _ _ _ _ w file_path items rows Hfile Eflush).
      rewrite (load_list _ _ _ _ _ _ w' file_path items rows Hsame Eflush).
      split; reflexivity.
    + now rewrite (load_list _ _ _ _ _ _ w file_path items rows Hfile Eflush).
    + intros utcnow'.
      rewrite (load_list _ _ _ _ _ _ w file_path items rows Hfile Eflush).
      cbn [fst].
      destruct (flush float_of_str 1
                  (session_new (sync_loop float_of_str repr utcnow' 0 items
                                  sync_start))) as [rows'|] eqn:Eflush'.
      * rewrite (load_list _ _ utcnow' _ _ _ w file_path items rows' Hfile Eflush').
        now rewrite (load_list _ _ utcnow' _ _ _ (set_table w rows) file_path
                       items rows' Hfile Eflush').
      * assert (Hn : flush float_of_str 1 (pending_of items) = None).
        { apply (flush_None_coords _ (pending_of items) 1%Z 1%Z) in Eflush';
            [exact Eflush'|].
          symmetry. now apply sync_loop_coords. }
        rewrite Eflush in Hn. discriminate.
  - split; [|split].
    + intros w' Hsame. rewrite Hfile in Hsame.
      rewrite (load_list_failed _ _ _ _ _ _ w file_path items Hfile Eflush).
      rewrite (load_list_failed _ _ _ _ _ _ w' file_path items Hsame Eflush).
      split; reflexivity.
    + now rewrite (load_list_failed _ _ _ _ _ _ w file_path items Hfile Eflush).
    + intros utcnow'.
      rewrite (load_list_failed _ _ _ _ _ _ w file_path items Hfile Eflush).
      cbn [fst load_failed].
      assert (Eflush' : flush float_of_str 1
                (session_new (sync_loop float_of_str repr utcnow' 0 items
                                sync_start)) = None).
      { apply (flush_None_coords _
                 (session_new (sync_loop float_of_str repr utcnow' 0 items
                                 sync_start)) 1%Z 1%Z) in Eflush;
          [exact Eflush|].
        now apply sync_loop_coords. }
      rewrite (load_list_failed _ _ utcnow' _ _ _ w file_path items Hfile Eflush').
      now rewrite (load_list_failed _ _ utcnow' _ _ _
                     (set_last_error error_clock format_exc (delete_all w) _)
                     file_path items Hfile Eflush').
Qed.




Lemma dict_lookup_other (pre post : list (string * pyval)) (k key : string)
  (v : pyval) :
  k <> key ->
  dict_lookup (pre ++ (k, v) :: post) key = dict_lookup (pre ++ post) key.
Proof.
  intros Hne. induction pre as [|[k0 v0] pre IH].
  - simpl. apply String.eqb_neq in Hne. now rewrite Hne.
  - simpl. destruct (String.eqb k0 key); [reflexivity | exact IH].
Qed.

(** X15. A record is read through the six keys title, message,
    severity, source, lat and lng only: a binding of any other key,
    such as the time or the id of the exchange format, changes nothing
    in what the sync does with the record. *)
Theorem sync_ignores_other_keys (idx : nat) (pre post : list (string * pyval))
  (k : string) (v : pyval) (st : sync_state) :
  ~ In k ["title"; "message"; "severity"; "source"; "lat"; "lng"] ->
  item_step idx (PDict (pre ++ (k, v) :: post)) st
  = item_step idx (PDict (pre ++ post)) st.
Proof.
  intros Hk. cbn [In] in Hk.
  unfold sync_item, dict_get, dict_get_default.
  rewrite !(dict_lookup_other pre post k _ v)
    by (intros Heq; apply Hk; rewrite Heq; auto 10).
  reflexivity.
Qed.

(** The answer of a sync is one of two dicts. *)
Lemma load_answers (w : world) (file_path : string) :
  (exists msg,
     load w file_path
     = load_failed error_clock format_exc
         (match files w file_path with
          | Json (PList _) => delete_all w
          | _ => w
          end) msg) \/
  (exists rows n_inserted n_skipped reasons,
     load w file_path
     = (set_table w rows,
        [ ("inserted", PInt n_inserted);
          ("skipped", PInt n_skipped);
          ("skipped_details", PList reasons) ])).
Proof.
  unfold load_alerts_from_json, commit_new.
  destruct (files w file_path) as [|err|data].
  - left. eexists. reflexivity.
  - left. eexists. reflexivity.
  - destruct data; try (left; eexists; reflexivity).
    cbn [delete_all set_table table next_key].
    destruct (flush float_of_str 1 _) as [rows|].
    + right. do 4 eexists. reflexivity.
    + left. eexists. reflexivity.
Qed.

(** X16. A sync that fails records its error: when the answer has the
    key ['error'], it is the dict of that message and its trace, and
    [last_error] holds that message and that trace. This is so when the
    file is missing, unreadable or not a JSON array, and when the
    commit raises. A sync whose answer has no key ['error'] leaves
    [last_error] as it was. *)
Theorem sync_records_its_error (w : world) (file_path : string) :
  ((forall items, files w file_path <> Json (PList items)) ->
   exists msg,
     dict_lookup (snd (load w file_path)) "error" = Some (PStr msg)) /\
  (forall v,
     dict_lookup (snd (load w file_path)) "error" = Some v ->
     exists msg,
       v = PStr msg /\
       snd (load w file_path)
       = [ ("error", PStr msg); ("trace", PStr (format_exc msg)) ] /\
       error_message (last_error (fst (load w file_path))) = Some msg /\
       error_trace (last_error (fst (load w file_path)))
       = Some (format_exc msg)) /\
  (dict_lookup (snd (load w file_path)) "error" = None ->
   last_error (fst (load w file_path)) = last_error w).
Proof.
  split; [|split].
  - intros Hnot. unfold load_alerts_from_json.
    destruct (files w file_path) as [|err|data].
    + eexists. reflexivity.
    + eexists. reflexivity.
    + destruct data; try solve [eexists; reflexivity]. now destruct (Hnot l).
  - intros v Hv.
    destruct (load_answers w file_path)
      as [[msg H] | [rows [i [k [rs H]]]]]; rewrite H in Hv |- *.
    + cbn in Hv. injection Hv as <-. exists msg. repeat split.
    + discriminate.
  - intros Hv.
    destruct (load_answers w file_path)
      as [[msg H] | [rows [i [k [rs H]]]]]; rewrite H in Hv |- *.
    + discriminate.
    + reflexivity.
Qed.

(** A record that passes the validation of the loop with one coordinate
    absent and the other one not convertible. *)
Lemma sync_item_lone_coordinate (idx : nat) (d : list (string * pyval)) :
  truthy (dict_get d "title") = true ->
  truthy (dict_get d "message") = true ->
  dict_get d "lat" = PNone \/ dict_get d "lng" = PNone ->
  item_step idx (PDict d) sync_start
  = add sync_start
      (new_alert repr utcnow idx (dict_get d "title") (dict_get d "message")
         (dict_get_default d "severity" (PStr "info"))
         (dict_get_default d "source" (PStr "unknown"))
         (dict_get d "lat") (dict_get d "lng")).
Proof.
  intros Ht Hm Hone. unfold sync_item. cbv zeta.
  rewrite Ht, Hm. cbn [negb orb].
  change (dict_get_default d "lat" PNone) with (dict_get d "lat").
  change (dict_get_default d "lng" PNone) with (dict_get d "lng").
  unfold coerce_pair.
  destruct Hone as [-> | ->]; [reflexivity|].
  cbn [is_none negb]. now rewrite andb_false_r.
Qed.

(** X22. The validation of the coordinates reaches a record only when
    both are there. A record with a title and a message and with one
    coordinate only, which [float] does not convert (a text that is no
    number, a list), is added to the session as it is; the commit at
    the end of the loop, outside the handler of the record, then
    raises: the sync answers the dict with ['error'] and ['trace'],
    records the error, and leaves the table empty, whatever the other
    records of the batch are and whatever the table held. *)
Theorem sync_lost_on_lone_coordinate (w : world) (file_path : string)
  (before after : list pyval) (d : list (string * pyval)) :
  files w file_path = Json (PList (before ++ PDict d :: after)) ->
  truthy (dict_get d "title") = true ->
  truthy (dict_get d "message") = true ->
  (dict_get d "lng" = PNone /\ dict_get d "lat" <> PNone /\
   py_float float_of_str (dict_get d "lat") = None) \/
  (dict_get d "lat" = PNone /\ dict_get d "lng" <> PNone /\
   py_float float_of_str (dict_get d "lng") = None) ->
  exists msg,
    snd (load w file_path)
    = [ ("error", PStr msg); ("trace", PStr (format_exc msg)) ] /\
    error_message (last_error (fst (load w file_path))) = Some msg /\
    table (fst (load w file_path)) = [].
Proof.
  intros Hfile Ht Hm Hlone.
  assert (Hone : dict_get d "lat" = PNone \/ dict_get d "lng" = PNone)
    by (destruct Hlone as [[H _] | [H _]]; [now right | now left]).
  assert (Eflush : flush float_of_str 1
                     (pending_of (before ++ PDict d :: after)) = None).
  { apply flush_None. unfold pending_of. rewrite sync_loop_around.
    rewrite (sync_item_lone_coordinate _ d Ht Hm Hone).
    eexists. split.
    - cbn [sync_join add sync_start session_new app].
      apply in_or_app. right. left. reflexivity.
    - cbn [new_alert lat lng].
      destruct Hlone as [[_ [Hne Hbad]] | [_ [Hne Hbad]]].
      + left. now rewrite (bind_float_present _ _ Hne), Hbad.
      + right. now rewrite (bind_float_present _ _ Hne), Hbad. }
  rewrite (load_list_failed _ _ _ _ _ _ w file_path _ Hfile Eflush).
  eexists. repeat split.
Qed.

End Store.

(** A record with a latitude that is a text and no longitude. *)
Definition rec_north : pyval :=
  PDict [ ("title", PStr "Swell surge");
          ("message", PStr "Swell waves expected");
          ("lat", PStr "north") ].

(** The exchange format has a key ["time"]; the sync does not read it. *)
Lemma sync_ignores_other_keys_witness :
  sync_item ex_float_of_str ex_repr ex_utcnow 0
    (PDict [ ("title", PStr "t"); ("time", PStr "2024-01-01T00:00:00");
             ("message", PStr "m") ]) sync_start
  = sync_item ex_float_of_str ex_repr ex_utcnow 0
      (PDict [ ("title", PStr "t"); ("message", PStr "m") ]) sync_start.
Proof.
  apply (sync_ignores_other_keys ex_float_of_str ex_repr ex_utcnow 0
           [ ("title", PStr "t") ] [ ("message", PStr "m") ]
           "time" (PStr "2024-01-01T00:00:00") sync_start).
  cbn [In]. intros [H | [H | [H | [H | [H | [H | []]]]]]]; discriminate.
Defined.

(** A good record, a record skipped for its coordinates and a number:
    one row, two reasons. *)
Lemma sync_accounts_for_all_witness :
  exists (n_inserted n_skipped : nat) (reasons : list string),
    snd (ex_load (world_with [rec_no_place; PDict rec_bad_lat; PInt 7])
           "alerts.json")
    = [ ("inserted", PInt (Z.of_nat n_inserted));
        ("skipped", PInt (Z.of_nat n_skipped));
        ("skipped_details", PList (map PStr reasons)) ] /\
    (n_inserted + n_skipped = 3)%nat /\
    List.length reasons = n_skipped /\
    List.length (table (fst (ex_load
                               (world_with [rec_no_place; PDict rec_bad_lat; PInt 7])
                               "alerts.json"))) = n_inserted.
Proof.
  apply (proj1 (sync_accounts_for_all ex_float_of_str ex_repr ex_utcnow
                  (fun _ => "now") (fun e => e) ex_commit_error
                  (world_with [rec_no_place; PDict rec_bad_lat; PInt 7])
                  "alerts.json" [rec_no_place; PDict rec_bad_lat; PInt 7]
                  eq_refl)).
  intros a [<- | []] [H | H]; discriminate.
Defined.

(** A second sync, one second later on the clock. *)
Lemma sync_forgets_earlier_state_witness :
  load_alerts_from_json ex_float_of_str ex_repr (fun _ => 1000000%Z)
    (fun _ => "now") (fun e => e) ex_commit_error
    (fst (ex_load (world_with [rec_visakhapatnam]) "alerts.json")) "alerts.json"
  = load_alerts_from_json ex_float_of_str ex_repr (fun _ => 1000000%Z)
      (fun _ => "now") (fun e => e) ex_commit_error
      (world_with [rec_visakhapatnam]) "alerts.json".
Proof.
  apply (proj2 (proj2 (sync_forgets_earlier_state ex_float_of_str ex_repr
                         ex_utcnow (fun _ => "now") (fun e => e)
                         ex_commit_error
                         (world_with [rec_visakhapatnam]) "alerts.json"
                         [rec_visakhapatnam] eq_refl))).
Defined.


(** The record with the latitude ['north'] between two good records:
    nothing is stored, the two rows of the earlier sync are gone. *)
Lemma sync_lost_on_lone_coordinate_witness :
  let r := ex_load (world_with [rec_no_place; rec_north; rec_visakhapatnam])
             "alerts.json" in
  exists msg,
    snd r = [ ("error", PStr msg); ("trace", PStr msg) ] /\
    error_message (last_error (fst r)) = Some msg /\
    table (fst r) = [].
Proof.
  apply (sync_lost_on_lone_coordinate ex_float_of_str ex_repr ex_utcnow
           (fun _ => "now") (fun e => e) ex_commit_error
           (world_with [rec_no_place; rec_north; rec_visakhapatnam])
           "alerts.json" [rec_no_place] [rec_visakhapatnam]
           [ ("title", PStr "Swell surge");
             ("message", PStr "Swell waves expected");
             ("lat", PStr "north") ]
           eq_refl eq_refl eq_refl).
  left. split; [reflexivity|]. split; [discriminate | reflexivity].
Defined.

Example sync_lone_coordinate_answer :
  let r := ex_load (world_with [rec_no_place; rec_north; rec_visakhapatnam])
             "alerts.json" in
  snd r = [ ("error", PStr "commit failed"); ("trace", PStr "commit failed") ] /\
  table (fst r) = [] /\
  error_message (last_error (fst r)) = Some "commit failed".
Proof. repeat split. Qed.

End StoreFacts.

(** ** main.py: more on the proximity query *)

Module Proximity.

Import PyStr PyVal Main.
Open Scope R_scope.

Lemma distance_to_nonneg (qlat qlng d : R) (a : Alert) :
  distance_to qlat qlng a = Some d -> 0 <= d.
Proof.
  unfold distance_to. destruct (as_number (lat a)) as [la|]; [|discriminate].
  destruct (as_number (lng a)) as [lo|]; [|discriminate].
  destruct (haversine_km_defined qlat qlng la lo) as [d' [Hd' Hpos]].
  rewrite Hd'. intros H. injection H as <-. exact Hpos.
Qed.

Lemma round_half_even_nonneg (x : R) : 0 <= x -> (0 <= round_half_even x)%Z.
Proof.
  intros Hx. unfold round_half_even. cbv zeta.
  destruct (base_Int_part x) as [Hlo Hhi].
  assert (Hn : (0 <= Int_part x)%Z).
  { apply Z.lt_succ_r, lt_IZR. rewrite succ_IZR. lra. }
  destruct (Rlt_dec _ _); [exact Hn|].
  destruct (Rlt_dec _ _); [lia|].
  destruct (Z.even _); lia.
Qed.

Lemma round2_nonneg (x : R) : 0 <= x -> 0 <= round2 x.
Proof.
  intros Hx. unfold round2.
  assert (H : (0 <= round_half_even (x * 100))%Z)
    by (apply round_half_even_nonneg; lra).
  apply IZR_le in H. lra.
Qed.

Section Query.

Variable float_of_str : string -> option R.
Variable repr : pyval -> string.
Variable utcnow : nat -> datetime.
Variable error_clock : string -> string.
Variable format_exc : string -> string.
Variable commit_error : list Alert -> string.

Local Abbreviation nearby :=
  (alerts_nearby float_of_str repr utcnow error_clock format_exc commit_error).

(** X19. A negative radius selects nothing: the proximity query then
    answers the empty list, whatever the table holds. *)
Theorem alerts_nearby_negative_radius (w : world) (qlat qlng radius_km : R) :
  radius_km < 0 ->
  snd (nearby w qlat qlng radius_km) = Rows [].
Proof.
  intros Hneg. unfold alerts_nearby. cbn [snd]. f_equal.
  destruct (nearby_loop qlat qlng radius_km _) as [|x rest] eqn:E; [reflexivity|].
  assert (Hin : In x (x :: rest)) by now left.
  rewrite <- E in Hin. apply nearby_loop_In in Hin.
  destruct Hin as [a [d [_ [_ [_ [Hd [Hr _]]]]]]].
  apply distance_to_nonneg in Hd. lra.
Qed.

(** X20. The rows of an answer follow the order of the table, and the
    distance shown in a row is the exact distance rounded: it is not
    negative and at most the radius plus half a hundredth of a
    kilometre. *)
Theorem alerts_nearby_rows (w : world) (qlat qlng radius_km : R)
  (rows : list nearby_row) :
  snd (nearby w qlat qlng radius_km) = Rows rows ->
  (exists keep : Alert -> bool,
     map row rows = filter keep (table (fst (nearby w qlat qlng radius_km)))) /\
  (forall x, In x rows -> 0 <= distance_km x <= radius_km + 1 / 200).
Proof.
  unfold alerts_nearby. cbn [fst snd]. intros H. injection H as <-. split.
  - apply nearby_loop_order.
  - intros x Hx. apply nearby_loop_In in Hx.
    destruct Hx as [a [d [_ [_ [_ [Hd [Hr ->]]]]]]]. cbn [distance_km].
    apply distance_to_nonneg in Hd.
    pose proof (round2_close d). pose proof (round2_nonneg d Hd). lra.
Qed.

End Query.

Lemma alerts_nearby_negative_radius_witness :
  snd (alerts_nearby (fun _ => None) (fun _ => "?") (fun _ => 0%Z)
         (fun _ => "now") (fun e => e) (fun _ => "commit failed")
         small_world 13.0827 80.2707 (-1))
  = Rows [].
Proof.
  apply (alerts_nearby_negative_radius (fun _ => None) (fun _ => "?")
           (fun _ => 0%Z) (fun _ => "now") (fun e => e)
           (fun _ => "commit failed")
           small_world 13.0827 80.2707 (-1)).
  lra.
Defined.

(** The alert at Chennai, asked for from Chennai within 100 km. *)
Lemma alerts_nearby_rows_witness :
  0 <= distance_km {| row := chennai; distance_km := 0 |} <= 100 + 1 / 200.
Proof.
  apply (proj2 (alerts_nearby_rows (fun _ => None) (fun _ => "?")
                  (fun _ => 0%Z) (fun _ => "now") (fun e => e)
                  (fun _ => "commit failed")
                  small_world 13.0827 80.2707 100
                  [ {| row := chennai; distance_km := 0 |} ]
                  (nearby_small_world 100 ltac:(lra)))).
  now left.
Defined.

End Proximity.

(** ** From the scraper to the store

    The scraper writes the records of its alerts to [alerts.json]
    ([json.dump] of the list of [asdict(alert)]) and the sync of
    [main.py] reads that file back. *)

Module Pipeline.

Import PyStr PyVal.

(** The JSON value of the exchange file written for [alerts]. *)
Definition exchange (alerts : list Scraper.Alert) : pyval :=
  PList (map (fun a => PDict (Scraper.asdict a)) alerts).

(** The sync takes an alert of the scraper when its title and its
    message are not empty. *)
Definition accepted (a : Scraper.Alert) : bool :=
  nonempty (Scraper.title a) && nonempty (Scraper.message a).

Section Exchange.

Variable float_of_str : string -> option R.
Variable repr : pyval -> string.
Variable utcnow : nat -> Main.datetime.
Variable error_clock : string -> string.
Variable format_exc : string -> string.
Variable commit_error : list Main.Alert -> string.

Local Abbreviation item_step := (Main.sync_item float_of_str repr utcnow).
Local Abbreviation loop := (Main.sync_loop float_of_str repr utcnow).
Local Abbreviation load :=
  (Main.load_alerts_from_json float_of_str repr utcnow error_clock format_exc
     commit_error).

(** The object the sync builds for the record of the alert [a] at index
    [idx]. *)
Definition stored (idx : nat) (a : Scraper.Alert) : Main.Alert :=
  {| Main.id := None;
     Main.source := Some (Scraper.source a);
     Main.severity := Some (Scraper.severity a);
     Main.title := Some (Scraper.title a);
     Main.message := Some (Scraper.message a);
     Main.time := Some (utcnow idx);
     Main.lat := of_option_float (Scraper.lat a);
     Main.lng := of_option_float (Scraper.lng a) |}.

Lemma sync_item_asdict (idx : nat) (a : Scraper.Alert) (st : Main.sync_state) :
  item_step idx (PDict (Scraper.asdict a)) st
  = if accepted a then Main.add st (stored idx a)
    else Main.skip st ("idx " ++ str_of_nat idx ++ ": missing title/message").
Proof.
  unfold Main.sync_item, accepted, stored, Scraper.asdict. cbv zeta.
  change (dict_get _ "title") with (PStr (Scraper.title a)).
  change (dict_get _ "message") with (PStr (Scraper.message a)).
  change (dict_get_default _ "severity" _) with (PStr (Scraper.severity a)).
  change (dict_get_default _ "source" _) with (PStr (Scraper.source a)).
  change (dict_get_default _ "lat" _) with (of_option_float (Scraper.lat a)).
  change (dict_get_default _ "lng" _) with (of_option_float (Scraper.lng a)).
  cbn [truthy]. 
  destruct (nonempty (Scraper.title a)); [|reflexivity].
  destruct (nonempty (Scraper.message a)); [|reflexivity].
  cbn [negb orb andb]. unfold Main.coerce_pair, Main.new_alert.
  destruct (Scraper.lat a) as [la|], (Scraper.lng a) as [lo|]; reflexivity.
Qed.

Lemma sync_loop_exchange_counts (alerts : list Scraper.Alert) (idx : nat)
  (st : Main.sync_state) :
  let st' := loop idx (map (fun a => PDict (Scraper.asdict a)) alerts) st in
  Main.inserted st'
  = (Main.inserted st + List.length (filter accepted alerts))%nat /\
  Main.skipped st'
  = (Main.skipped st
     + List.length (filter (fun a => negb (accepted a)) alerts))%nat.
Proof.
  revert idx st. induction alerts as [|a rest IH]; intros idx st; cbv zeta.
  - simpl. lia.
  - cbn [map Main.sync_loop filter]. rewrite sync_item_asdict.
    destruct (IH (S idx) (if accepted a then Main.add st (stored idx a)
                          else Main.skip st ("idx " ++ str_of_nat idx
                                             ++ ": missing title/message")))
      as [H1 H2].
    cbv zeta in H1, H2. rewrite H1, H2.
    destruct (accepted a); cbn [negb Main.add Main.skip Main.inserted
                                 Main.skipped List.length]; lia.
Qed.

Lemma sync_loop_exchange_field {X : Type} (field : Main.Alert -> X)
  (of_alert : Scraper.Alert -> X) :
  (forall idx a, field (stored idx a) = of_alert a) ->
  forall (alerts : list Scraper.Alert) (idx : nat) (st : Main.sync_state),
    map field
      (Main.session_new
         (loop idx (map (fun a => PDict (Scraper.asdict a)) alerts) st))
    = (map field (Main.session_new st)
       ++ map of_alert (filter accepted alerts))%list.
Proof.
  intros Hfield. induction alerts as [|a rest IH]; intros idx st.
  - simpl. now rewrite app_nil_r.
  - cbn [map Main.sync_loop filter]. rewrite sync_item_asdict, IH.
    destruct (accepted a); [|reflexivity].
    cbn [Main.add Main.session_new map]. rewrite map_app. cbn [map].
    now rewrite Hfield, <- app_assoc.
Qed.

Lemma assign_keys_field {X : Type} (field : Main.Alert -> X) :
  (forall a key, field (Main.set_id a key) = field a) ->
  forall (pending : list Main.Alert) (key : Z),
    map field (Main.assign_keys key pending) = map field pending.
Proof.
  intros Hfield. induction pending as [|a rest IH]; intros key; [reflexivity|].
  cbn [Main.assign_keys map]. now rewrite Hfield, IH.
Qed.

(** The objects built for alerts of the scraper hold floats or nothing
    in their coordinates: the commit stores them as they are. *)
Lemma sync_loop_exchange_stored (alerts : list Scraper.Alert) (idx : nat)
  (st : Main.sync_state) :
  Forall (fun a => Main.float_or_none (Main.lat a) /\
                   Main.float_or_none (Main.lng a)) (Main.session_new st) ->
  Forall (fun a => Main.float_or_none (Main.lat a) /\
                   Main.float_or_none (Main.lng a))
    (Main.session_new
       (loop idx (map (fun a => PDict (Scraper.asdict a)) alerts) st)).
Proof.
  revert idx st. induction alerts as [|a rest IH]; intros idx st H.
  - exact H.
  - cbn [map Main.sync_loop]. apply IH. rewrite sync_item_asdict.
    destruct (accepted a); [|exact H].
    cbn [Main.add Main.session_new]. apply Forall_app. split; [exact H|].
    constructor; [|constructor].
    cbn [stored Main.lat Main.lng]. unfold Main.float_or_none.
    destruct (Scraper.lat a), (Scraper.lng a); cbn [of_option_float];
      split; first [now left | right; eexists; reflexivity].
Qed.

Lemma load_exchange (w : Main.world) (file_path : string)
  (alerts : list Scraper.Alert) :
  Main.files w file_path = Main.Json (exchange alerts) ->
  let st := loop 0 (map (fun a => PDict (Scraper.asdict a)) alerts)
              Main.sync_start in
  load w file_path
  = (Main.set_table w (Main.assign_keys 1 (Main.session_new st)),
     [ ("inserted", PInt (Z.of_nat (Main.inserted st)));
       ("skipped", PInt (Z.of_nat (Main.skipped st)));
       ("skipped_details", PList (map PStr (Main.skipped_details st))) ]).
Proof.
  intros Hfile st. unfold exchange in Hfile.
  apply (Main.load_list _ _ _ _ _ _ w file_path _ _ Hfile).
  apply Main.flush_stored. apply sync_loop_exchange_stored. constructor.
Qed.

Lemma table_field {X : Type} (field : Main.Alert -> X)
  (of_alert : Scraper.Alert -> X) (w : Main.world) (file_path : string)
  (alerts : list Scraper.Alert) :
  (forall idx a, field (stored idx a) = of_alert a) ->
  (forall a key, field (Main.set_id a key) = field a) ->
  Main.files w file_path = Main.Json (exchange alerts) ->
  map field (Main.table (fst (load w file_path)))
  = map of_alert (filter accepted alerts).
Proof.
  intros H1 H2 Hfile.
  rewrite (load_exchange w file_path alerts Hfile).
  cbn [fst Main.set_table Main.table].
  rewrite (assign_keys_field field H2).
  now rewrite (sync_loop_exchange_field field of_alert H1).
Qed.

(** X21. When the exchange file holds the records of a list of alerts
    of the scraper, the sync inserts exactly the alerts whose title
    and message are not empty and skips the others; the rows of the
    table are those alerts in their order, each with its title,
    message, severity and source, and with the coordinates the scraper
    gave it, as floats, or none. *)
Theorem sync_of_scraper_alerts (w : Main.world) (file_path : string)
  (alerts : list Scraper.Alert) :
  Main.files w file_path = Main.Json (exchange alerts) ->
  dict_lookup (snd (load w file_path)) "inserted"
  = Some (PInt (Z.of_nat (List.length (filter accepted alerts)))) /\
  dict_lookup (snd (load w file_path)) "skipped"
  = Some (PInt (Z.of_nat
                  (List.length (filter (fun a => negb (accepted a)) alerts)))) /\
  map Main.title (Main.table (fst (load w file_path)))
  = map (fun a => Some (Scraper.title a)) (filter accepted alerts) /\
  map Main.message (Main.table (fst (load w file_path)))
  = map (fun a => Some (Scraper.message a)) (filter accepted alerts) /\
  map Main.severity (Main.table (fst (load w file_path)))
  = map (fun a => Some (Scraper.severity a)) (filter accepted alerts) /\
  map Main.source (Main.table (fst (load w file_path)))
  = map (fun a => Some (Scraper.source a)) (filter accepted alerts) /\
  map Main.lat (Main.table (fst (load w file_path)))
  = map (fun a => of_option_float (Scraper.lat a)) (filter accepted alerts) /\
  map Main.lng (Main.table (fst (load w file_path)))
  = map (fun a => of_option_float (Scraper.lng a)) (filter accepted alerts).
Proof.
  intros Hfile.
  split; [|split].
  - rewrite (load_exchange w file_path alerts Hfile). cbn [snd].
    destruct (sync_loop_exchange_counts alerts 0 Main.sync_start) as [H _].
    cbv zeta in H. cbn [dict_lookup String.eqb]. simpl. now rewrite H.
  - rewrite (load_exchange w file_path alerts Hfile). cbn [snd].
    destruct (sync_loop_exchange_counts alerts 0 Main.sync_start) as [_ H].
    cbv zeta in H. simpl. now rewrite H.
  - repeat split;
      apply (table_field _ _ w file_path alerts); try reflexivity; assumption.
Qed.

End Exchange.

(** Two alerts, the second one with an empty title: one row stored,
    with the coordinates of the first. *)
Lemma sync_of_scraper_alerts_witness :
  let a := Scraper.mkAlert "High waves" "Rough sea off Odisha" "warning"
             "INCOIS" (Some 19.8%R) (Some 85.8%R) "t" in
  let b := Scraper.mkAlert EmptyString "Forecast for the week" "info"
             "INCOIS" None None "t" in
  let items := map (fun a => PDict (Scraper.asdict a)) [a; b] in
  map Main.lat (Main.table (fst (Main.ex_load (Main.world_with items) "alerts.json")))
  = [PFloat 19.8%R].
Proof.
  intros a b items.
  apply (proj1 (proj2 (proj2 (proj2 (proj2 (proj2 (proj2
           (sync_of_scraper_alerts Main.ex_float_of_str Main.ex_repr
              Main.ex_utcnow (fun _ => "now") (fun e => e)
              Main.ex_commit_error
              (Main.world_with items) "alerts.json" [a; b] eq_refl)))))))).
Defined.

End Pipeline.
